(** * etrace: the instrumented run orchestrator ([cmdRun.Execute])

    A shallow embedding of [cmd/etrace/main.go].  The external collaborators
    (strace helpers, xdotool, wmctrl, snap, the file helpers, the clock) are
    taken as a record of outcomes, one per call; everything [Execute] itself
    decides is translated statement by statement.  [Execute] runs in a small
    monad that carries the package-level error accumulator [errs] and the
    local [outRes], and that writes down, in program order, the calls made to
    the collaborators and the calls registered with [defer]. *)

From Stdlib Require Import ZArith String Ascii List Lia DecimalString.
From stdpp Require Import base tactics option list.
Import ListNotations.

Local Open Scope Z_scope.
Local Open Scope string_scope.

(** ** Go values used by the command *)

(** [error]: a value built by [errors.New] or returned by a collaborator,
    carrying its [Error()] text, or one wrapped by [fmt.Errorf("...: %w", err)],
    carrying the text formatted before the [%w] verb. *)
Inductive error : Type :=
| ErrNew (msg : string)
| ErrWrap (prefix : string) (cause : error).

Fixpoint Error (e : error) : string :=
  match e with
  | ErrNew msg => msg
  | ErrWrap prefix cause => prefix ++ Error cause
  end.

(** [time.Duration] is a signed count of nanoseconds. *)
Definition Duration := Z.

(** The [%d] verb on an [int]. *)
Definition itoa (n : Z) : string := NilZero.string_of_int (Z.to_int n).

(** [strings.Contains s substr]. *)
Fixpoint strings_Contains (s substr : string) : bool :=
  if String.prefix substr s then true
  else match s with
       | EmptyString => false
       | String _ s' => strings_Contains s' substr
       end.

(** *** [filepath.Base] on a Unix path *)

Definition IsPathSeparator (c : ascii) : bool := Ascii.eqb c "/"%char.

(** The loop that strips the trailing separators. *)
Fixpoint strip_trailing (path : string) : string :=
  match path with
  | EmptyString => EmptyString
  | String c rest =>
      match strip_trailing rest with
      | EmptyString => if IsPathSeparator c then EmptyString else String c EmptyString
      | kept => String c kept
      end
  end.

Fixpoint has_separator (path : string) : bool :=
  match path with
  | EmptyString => false
  | String c rest => IsPathSeparator c || has_separator rest
  end.

(** What follows the last separator, the whole path when it has none. *)
Fixpoint last_element (path : string) : string :=
  match path with
  | EmptyString => EmptyString
  | String c rest =>
      if has_separator rest then last_element rest
      else if IsPathSeparator c then rest else path
  end.

Definition filepath_Base (path : string) : string :=
  if String.eqb path "" then "."
  else
    let path := last_element (strip_trailing path) in
    if String.eqb path "" then "/" else path.

(** [filepath.Join] of a clean directory and a plain file name. *)
Definition filepath_Join (dir file : string) : string := dir ++ "/" ++ file.

(** ** The data model of [main.go] *)

(** Modelled from the spec: [strace.ExecveTiming], declared in
    [internal/strace], which is not among the sources: a structured timing
    breakdown and a total-duration value.  [Execute] reads [TotalTime] only;
    the breakdown is carried along. *)
Record strace_ExecveTiming : Type := {
  TotalTime : Duration;
  exeRuntimes : list (string * Duration)
}.

(** Modelled from the spec: [xdotool.Window], declared in
    [internal/xdotool], which is not among the sources: the selector handed
    to [WaitForWindow], with the two fields [Class] and [Name] that
    [Execute] sets. *)
Record xdotool_Window : Type := {
  Class : string;
  Name : string
}.

Record Execution : Type := {
  ExecveTiming : option strace_ExecveTiming;
  TimeToDisplay : Duration;
  TimeToRun : Duration;
  Errors : list error
}.

(** [OutputResult] has the one field [Runs]. *)
Record OutputResult : Type := { Runs : list Execution }.

Record cmdRun : Type := {
  WindowName : string;
  PrepareScript : string;
  PrepareScriptArgs : list string;
  RestoreScript : string;
  RestoreScriptArgs : list string;
  WindowClass : string;
  NoTrace : bool;
  RunThroughSnap : bool;
  DiscardSnapNs : bool;
  ProgramStdoutLog : string;
  ProgramStderrLog : string;
  JSONOutput : bool;
  OutputFile : string;
  NoWindowWait : bool;
  Args_Cmd : list string
}.

(** [uint] on the 64-bit platforms: arithmetic wraps modulo [2^64]. *)
Definition uint_bits : Z := 64.
Definition uint_wrap (n : Z) : Z := n mod 2 ^ uint_bits.
Definition MaxUint : Z := 2 ^ uint_bits - 1.

Record Command : Type := {
  Run : cmdRun;
  ShowErrors : bool;
  AdditionalIterations : Z
}.

(** ** The collaborators

    What the packages outside [main.go] and the operating system answer.
    Each field is the outcome of one call site, indexed by the trial (the loop
    counter [i]) in which the call is made and, for the calls made per window
    or per pid, by the position in the slice that is ranged over.  The
    arguments of a call are fixed by the configuration and by the earlier
    outcomes, so nothing is lost by not passing them. *)
Record World : Type := {
  (** [files.EnsureExistsAndOpen(x.OutputFile, true)] *)
  open_OutputFile : option error;
  (** [profiling.RunScript(x.PrepareScript, x.PrepareScriptArgs)] *)
  RunScript_prepare : nat -> option error;
  (** [ioutil.TempDir("", "exec-trace")] *)
  ioutil_TempDir : nat -> string * option error;
  (** [syscall.Mkfifo(straceLog, 0640)] *)
  syscall_Mkfifo : nat -> option error;
  (** [os.OpenFile(straceLog, os.O_RDWR, 0640)] *)
  os_OpenFile : nat -> option error;
  (** [strace.TraceExecveTimings(straceLog, -1)], run by the goroutine: the
      values it leaves in [slg] and [straceErr] *)
  strace_TraceExecveTimings : nat -> option strace_ExecveTiming * option error;
  (** [strace.TraceExecCommand(straceLog, targetCmd...)] *)
  strace_TraceExecCommand : nat -> option error;
  (** [files.EnsureExistsAndOpen(x.ProgramStdoutLog, false)] *)
  open_ProgramStdoutLog : nat -> option error;
  (** [files.EnsureExistsAndOpen(x.ProgramStderrLog, false)] *)
  open_ProgramStderrLog : nat -> option error;
  (** [snaps.DiscardSnapNs(x.Args.Cmd[0])] *)
  snaps_DiscardSnapNs : nat -> option error;
  (** [profiling.FreeCaches()] *)
  profiling_FreeCaches : nat -> option error;
  (** [cmd.Start()] *)
  cmd_Start : nat -> option error;
  (** [time.Since(start)] *)
  time_Since : nat -> Duration;
  (** [xtool.WaitForWindow(windowspec)] *)
  xtool_WaitForWindow : nat -> list string * option error;
  (** [xtool.PidForWindowID(wid)] *)
  xtool_PidForWindowID : nat -> nat -> Z * option error;
  (** [xtool.CloseWindowID(wid)] *)
  xtool_CloseWindowID : nat -> nat -> option error;
  (** [proc.Signal(os.Kill)] *)
  proc_Signal : nat -> nat -> option error;
  (** [exec.Command("wmctrl", "-c", name).CombinedOutput()] *)
  wmctrl_CombinedOutput : nat -> string * option error;
  (** [profiling.RunScript(x.RestoreScript, x.RestoreScriptArgs)] *)
  RunScript_restore : nat -> option error
}.

(** *** Worlds that differ in one collaborator *)

Definition with_ioutil_TempDir (f : nat -> string * option error) (W : World) : World :=
  {| open_OutputFile := open_OutputFile W;
     RunScript_prepare := RunScript_prepare W;
     ioutil_TempDir := f;
     syscall_Mkfifo := syscall_Mkfifo W;
     os_OpenFile := os_OpenFile W;
     strace_TraceExecveTimings := strace_TraceExecveTimings W;
     strace_TraceExecCommand := strace_TraceExecCommand W;
     open_ProgramStdoutLog := open_ProgramStdoutLog W;
     open_ProgramStderrLog := open_ProgramStderrLog W;
     snaps_DiscardSnapNs := snaps_DiscardSnapNs W;
     profiling_FreeCaches := profiling_FreeCaches W;
     cmd_Start := cmd_Start W;
     time_Since := time_Since W;
     xtool_WaitForWindow := xtool_WaitForWindow W;
     xtool_PidForWindowID := xtool_PidForWindowID W;
     xtool_CloseWindowID := xtool_CloseWindowID W;
     proc_Signal := proc_Signal W;
     wmctrl_CombinedOutput := wmctrl_CombinedOutput W;
     RunScript_restore := RunScript_restore W |}.

Definition with_strace_TraceExecveTimings (f : nat -> option strace_ExecveTiming * option error) (W : World) : World :=
  {| open_OutputFile := open_OutputFile W;
     RunScript_prepare := RunScript_prepare W;
     ioutil_TempDir := ioutil_TempDir W;
     syscall_Mkfifo := syscall_Mkfifo W;
     os_OpenFile := os_OpenFile W;
     strace_TraceExecveTimings := f;
     strace_TraceExecCommand := strace_TraceExecCommand W;
     open_ProgramStdoutLog := open_ProgramStdoutLog W;
     open_ProgramStderrLog := open_ProgramStderrLog W;
     snaps_DiscardSnapNs := snaps_DiscardSnapNs W;
     profiling_FreeCaches := profiling_FreeCaches W;
     cmd_Start := cmd_Start W;
     time_Since := time_Since W;
     xtool_WaitForWindow := xtool_WaitForWindow W;
     xtool_PidForWindowID := xtool_PidForWindowID W;
     xtool_CloseWindowID := xtool_CloseWindowID W;
     proc_Signal := proc_Signal W;
     wmctrl_CombinedOutput := wmctrl_CombinedOutput W;
     RunScript_restore := RunScript_restore W |}.

Definition with_strace_TraceExecCommand (f : nat -> option error) (W : World) : World :=
  {| open_OutputFile := open_OutputFile W;
     RunScript_prepare := RunScript_prepare W;
     ioutil_TempDir := ioutil_TempDir W;
     syscall_Mkfifo := syscall_Mkfifo W;
     os_OpenFile := os_OpenFile W;
     strace_TraceExecveTimings := strace_TraceExecveTimings W;
     strace_TraceExecCommand := f;
     open_ProgramStdoutLog := open_ProgramStdoutLog W;
     open_ProgramStderrLog := open_ProgramStderrLog W;
     snaps_DiscardSnapNs := snaps_DiscardSnapNs W;
     profiling_FreeCaches := profiling_FreeCaches W;
     cmd_Start := cmd_Start W;
     time_Since := time_Since W;
     xtool_WaitForWindow := xtool_WaitForWindow W;
     xtool_PidForWindowID := xtool_PidForWindowID W;
     xtool_CloseWindowID := xtool_CloseWindowID W;
     proc_Signal := proc_Signal W;
     wmctrl_CombinedOutput := wmctrl_CombinedOutput W;
     RunScript_restore := RunScript_restore W |}.

Definition with_cmd_Start (f : nat -> option error) (W : World) : World :=
  {| open_OutputFile := open_OutputFile W;
     RunScript_prepare := RunScript_prepare W;
     ioutil_TempDir := ioutil_TempDir W;
     syscall_Mkfifo := syscall_Mkfifo W;
     os_OpenFile := os_OpenFile W;
     strace_TraceExecveTimings := strace_TraceExecveTimings W;
     strace_TraceExecCommand := strace_TraceExecCommand W;
     open_ProgramStdoutLog := open_ProgramStdoutLog W;
     open_ProgramStderrLog := open_ProgramStderrLog W;
     snaps_DiscardSnapNs := snaps_DiscardSnapNs W;
     profiling_FreeCaches := profiling_FreeCaches W;
     cmd_Start := f;
     time_Since := time_Since W;
     xtool_WaitForWindow := xtool_WaitForWindow W;
     xtool_PidForWindowID := xtool_PidForWindowID W;
     xtool_CloseWindowID := xtool_CloseWindowID W;
     proc_Signal := proc_Signal W;
     wmctrl_CombinedOutput := wmctrl_CombinedOutput W;
     RunScript_restore := RunScript_restore W |}.

Definition with_xtool_WaitForWindow (f : nat -> list string * option error) (W : World) : World :=
  {| open_OutputFile := open_OutputFile W;
     RunScript_prepare := RunScript_prepare W;
     ioutil_TempDir := ioutil_TempDir W;
     syscall_Mkfifo := syscall_Mkfifo W;
     os_OpenFile := os_OpenFile W;
     strace_TraceExecveTimings := strace_TraceExecveTimings W;
     strace_TraceExecCommand := strace_TraceExecCommand W;
     open_ProgramStdoutLog := open_ProgramStdoutLog W;
     open_ProgramStderrLog := open_ProgramStderrLog W;
     snaps_DiscardSnapNs := snaps_DiscardSnapNs W;
     profiling_FreeCaches := profiling_FreeCaches W;
     cmd_Start := cmd_Start W;
     time_Since := time_Since W;
     xtool_WaitForWindow := f;
     xtool_PidForWindowID := xtool_PidForWindowID W;
     xtool_CloseWindowID := xtool_CloseWindowID W;
     proc_Signal := proc_Signal W;
     wmctrl_CombinedOutput := wmctrl_CombinedOutput W;
     RunScript_restore := RunScript_restore W |}.

Definition with_xtool_PidForWindowID (f : nat -> nat -> Z * option error) (W : World) : World :=
  {| open_OutputFile := open_OutputFile W;
     RunScript_prepare := RunScript_prepare W;
     ioutil_TempDir := ioutil_TempDir W;
     syscall_Mkfifo := syscall_Mkfifo W;
     os_OpenFile := os_OpenFile W;
     strace_TraceExecveTimings := strace_TraceExecveTimings W;
     strace_TraceExecCommand := strace_TraceExecCommand W;
     open_ProgramStdoutLog := open_ProgramStdoutLog W;
     open_ProgramStderrLog := open_ProgramStderrLog W;
     snaps_DiscardSnapNs := snaps_DiscardSnapNs W;
     profiling_FreeCaches := profiling_FreeCaches W;
     cmd_Start := cmd_Start W;
     time_Since := time_Since W;
     xtool_WaitForWindow := xtool_WaitForWindow W;
     xtool_PidForWindowID := f;
     xtool_CloseWindowID := xtool_CloseWindowID W;
     proc_Signal := proc_Signal W;
     wmctrl_CombinedOutput := wmctrl_CombinedOutput W;
     RunScript_restore := RunScript_restore W |}.

Definition with_time_Since (f : nat -> Duration) (W : World) : World :=
  {| open_OutputFile := open_OutputFile W;
     RunScript_prepare := RunScript_prepare W;
     ioutil_TempDir := ioutil_TempDir W;
     syscall_Mkfifo := syscall_Mkfifo W;
     os_OpenFile := os_OpenFile W;
     strace_TraceExecveTimings := strace_TraceExecveTimings W;
     strace_TraceExecCommand := strace_TraceExecCommand W;
     open_ProgramStdoutLog := open_ProgramStdoutLog W;
     open_ProgramStderrLog := open_ProgramStderrLog W;
     snaps_DiscardSnapNs := snaps_DiscardSnapNs W;
     profiling_FreeCaches := profiling_FreeCaches W;
     cmd_Start := cmd_Start W;
     time_Since := f;
     xtool_WaitForWindow := xtool_WaitForWindow W;
     xtool_PidForWindowID := xtool_PidForWindowID W;
     xtool_CloseWindowID := xtool_CloseWindowID W;
     proc_Signal := proc_Signal W;
     wmctrl_CombinedOutput := wmctrl_CombinedOutput W;
     RunScript_restore := RunScript_restore W |}.

(** ** What [Execute] does to the outside, in program order *)

Inductive action : Type :=
| EnsureExistsAndOpen (path : string) (delete : bool)
| RunScript (path : string) (args : list string)
| TempDir
| Mkfifo (path : string)
| OpenFile (path : string)
| GoTraceExecveTimings (path : string)      (* the [go func() {...}()] statement *)
| TraceExecCommand (path : string) (cmd : list string)
| ExecCommand (prog : string) (args : list string)
| DiscardNs (name : string)
| FreeCaches
| Start
| Wait
| WaitForWindow (w : xdotool_Window)
| PidForWindowID (wid : string)
| CloseWindowID (wid : string)
| SignalKill (pid : Z)
| Wmctrl (name : string)
| FifoClose                                  (* [fw.Close()] *)
| RecvDone                                   (* [<-doneCh] *)
| Display (slg : option strace_ExecveTiming)
| PrintStartup (startup : Duration)
| LogPrintln (text : string)
| RemoveAll (path : string)                  (* [os.RemoveAll(straceTmp)] *)
| FileClose (path : string)                  (* [f.Close()] of a log file *)
| Encode (res : OutputResult).

(** An action is made in the body of trial [i] (or registered there with
    [defer]), or outside the loop. *)
Inductive event : Type :=
| InTrial (i : nat) (a : action)
| Outside (a : action).

(** ** The monad of [Execute] *)

(** A statement falls through with a value, leaves the function with
    [return err], or panics. *)
Inductive outcome (A : Type) : Type :=
| Val (a : A)
| Return (err : option error)
| Panic (msg : string).
Arguments Val {A} a.
Arguments Return {A} err.
Arguments Panic {A} msg.

(** The package-level [errs] and the local [outRes]. *)
Record GState : Type := {
  errs : list error;
  outRes : OutputResult
}.

Record Out (A : Type) : Type := {
  res : outcome A;
  gst : GState;
  calls : list event;        (* actions made, oldest first *)
  deferred : list event      (* [defer] statements executed, oldest first *)
}.
Arguments res {A} o.
Arguments gst {A} o.
Arguments calls {A} o.
Arguments deferred {A} o.

Definition M (A : Type) : Type := GState -> Out A.

Definition pure {A} (a : A) : M A :=
  fun s => {| res := Val a; gst := s; calls := []; deferred := [] |}.

Definition bind {A B} (m : M A) (k : A -> M B) : M B :=
  fun s =>
    let o := m s in
    match res o with
    | Val a =>
        let o' := k a (gst o) in
        {| res := res o'; gst := gst o';
           calls := calls o ++ calls o'; deferred := deferred o ++ deferred o' |}
    | Return err =>
        {| res := Return err; gst := gst o; calls := calls o; deferred := deferred o |}
    | Panic msg =>
        {| res := Panic msg; gst := gst o; calls := calls o; deferred := deferred o |}
    end.

#[global] Instance M_ret : MRet M := @pure.
#[global] Instance M_bind : MBind M := fun A B k m => bind m k.

Definition return_ {A} (err : option error) : M A :=
  fun s => {| res := Return err; gst := s; calls := []; deferred := [] |}.

Definition panic {A} (msg : string) : M A :=
  fun s => {| res := Panic msg; gst := s; calls := []; deferred := [] |}.

(** A call to a collaborator: the action is made and the outcome comes back. *)
Definition call {A} (ev : event) (r : A) : M A :=
  fun s => {| res := Val r; gst := s; calls := [ev]; deferred := [] |}.

Definition defer (ev : event) : M unit :=
  fun s => {| res := Val tt; gst := s; calls := []; deferred := [ev] |}.

Definition when (b : bool) (m : M unit) : M unit := if b then m else pure tt.

Definition nonempty (s : string) : bool := negb (String.eqb s "").

(** ** [main.go] *)

Section Execute.

Variable currentCmd : Command.
Variable W : World.

(** The receiver of [Execute] is the [Run] member of [currentCmd]. *)
Local Abbreviation x := (Run currentCmd).

(** [resetErrors] *)
Definition resetErrors : M unit :=
  fun s => {| res := Val tt; gst := {| errs := []; outRes := outRes s |};
              calls := []; deferred := [] |}.

(** [logError]; [i] only tags the printed line with the running trial. *)
Definition logError (i : nat) (err : error) : M unit :=
  fun s => {| res := Val tt; gst := {| errs := errs s ++ [err]; outRes := outRes s |};
              calls := if ShowErrors currentCmd
                       then [InTrial i (LogPrintln (Error err))] else [];
              deferred := [] |}.

(** [wmctrlCloseWindow] *)
Definition wmctrlCloseWindow (i : nat) (name : string) : M (option error) :=
  '(out, err) ← call (InTrial i (Wmctrl name)) (wmctrl_CombinedOutput W i);
  match err with
  | Some e => call (InTrial i (LogPrintln out)) (Some e)
  | None => mret None
  end.

(** *** The body of the loop of [Execute], in source order *)

(** Lines 144-150: the prepare script. *)
Definition prepare_script (i : nat) : M unit :=
  when (nonempty (PrepareScript x))
    (err ← call (InTrial i (RunScript (PrepareScript x) (PrepareScriptArgs x)))
                (RunScript_prepare W i);
     match err with
     | Some e => logError i (ErrWrap "running prepare script: " e)
     | None => mret tt
     end).

(** Lines 152-156: [targetCmd]. *)
Definition targetCmd : list string :=
  if RunThroughSnap x then "snap" :: "run" :: Args_Cmd x else Args_Cmd x.

(** Lines 158-203: the fifo, the reader goroutine and the command. *)
Definition setup_command (i : nat) : M unit :=
  if negb (NoTrace x) then
    '(straceTmp, err) ← call (InTrial i TempDir) (ioutil_TempDir W i);
    match err with
    | Some e => return_ (Some e)
    | None =>
        defer (InTrial i (RemoveAll straceTmp));;
        let straceLog := filepath_Join straceTmp "strace.fifo" in
        err ← call (InTrial i (Mkfifo straceLog)) (syscall_Mkfifo W i);
        match err with
        | Some e => return_ (Some e)
        | None =>
            err ← call (InTrial i (OpenFile straceLog)) (os_OpenFile W i);
            match err with
            | Some e => return_ (Some e)
            | None =>
                defer (InTrial i FifoClose);;
                call (InTrial i (GoTraceExecveTimings straceLog)) tt;;
                err ← call (InTrial i (TraceExecCommand straceLog targetCmd))
                           (strace_TraceExecCommand W i);
                match err with
                | Some e => return_ (Some e)
                | None => mret tt
                end
            end
        end
    end
  else
    match targetCmd with
    | [] => panic "index out of range [0] with length 0"
    | prog :: args => call (InTrial i (ExecCommand prog args)) tt
    end.

(** Lines 205-226: the standard streams of the command. *)
Definition open_log (i : nat) (path : string) (opened : option error) : M unit :=
  when (nonempty path)
    (err ← call (InTrial i (EnsureExistsAndOpen path false)) opened;
     match err with
     | Some e => return_ (Some e)
     | None => defer (InTrial i (FileClose path))
     end).

Definition setup_stdio (i : nat) : M unit :=
  open_log i (ProgramStdoutLog x) (open_ProgramStdoutLog W i);;
  open_log i (ProgramStderrLog x) (open_ProgramStderrLog W i).

(** Lines 228-237: the snap namespace. *)
Definition discard_snap_ns (i : nat) : M unit :=
  when (DiscardSnapNs x)
    (if negb (RunThroughSnap x) then
       return_ (Some (ErrNew "cannot use --discard-snap-ns without --use-snap-run"))
     else
       match Args_Cmd x with
       | [] => panic "index out of range [0] with length 0"
       | name :: _ =>
           err ← call (InTrial i (DiscardNs name)) (snaps_DiscardSnapNs W i);
           match err with
           | Some e => return_ (Some e)
           | None => mret tt
           end
       end).

(** Lines 245-261: the window to wait for. *)
Definition windowspec : outcome xdotool_Window :=
  if nonempty (WindowClass x) then
    Val {| Class := WindowClass x; Name := "" |}
  else if nonempty (WindowName x) then
    Val {| Class := ""; Name := WindowName x |}
  else
    match Args_Cmd x with
    | [] => Panic "index out of range [0] with length 0"
    | cmd0 :: _ => Val {| Class := filepath_Base cmd0; Name := "" |}
    end.

Definition lift {A} (o : outcome A) : M A :=
  fun s => {| res := o; gst := s; calls := []; deferred := [] |}.

(** Lines 263-268: the caches. *)
Definition free_caches (i : nat) : M unit :=
  err ← call (InTrial i FreeCaches) (profiling_FreeCaches W i);
  match err with
  | Some e => return_ (Some e)
  | None => mret tt
  end.

(** Lines 270-289: start, wait for the exit or for the window, take the time.
    The result is [wids], the variable [err], [tryXToolClose] and [startup]. *)
Definition start_and_wait (i : nat) (ws : xdotool_Window)
  : M (list string * option error * bool * Duration) :=
  err ← call (InTrial i Start) (cmd_Start W i);
  '(wids, err, tryXToolClose) ←
    (if NoWindowWait x then
       call (InTrial i Wait) tt;;
       mret ([], err, true)
     else
       '(wids, err) ← call (InTrial i (WaitForWindow ws)) (xtool_WaitForWindow W i);
       match err with
       | Some e =>
           logError i (ErrWrap "waiting for window appearance: " e);;
           mret (wids, err, false)
       | None => mret (wids, err, true)
       end);
  mret (wids, err, tryXToolClose, time_Since W i).

(** Lines 295-303: the pid of every window, until one lookup fails.  [k] is
    the loop index; the result is [pids] and whether the loop was left by
    [break] (after [tryWmctrl = true]). *)
Fixpoint resolve_pids (i k : nat) (wids : list string) (pids : list Z)
  : M (list Z * bool) :=
  match wids with
  | [] => mret (pids, false)
  | wid :: rest =>
      '(pid, err) ← call (InTrial i (PidForWindowID wid)) (xtool_PidForWindowID W i k);
      match err with
      | Some e =>
          logError i (ErrWrap ("getting pid for wid " ++ wid ++ ": ") e);;
          mret (pids, true)
      | None => resolve_pids i (S k) rest (<[k := pid]> pids)
      end
  end.

(** Lines 305-312: close every window. *)
Fixpoint close_windows (i k : nat) (wids : list string) (tryWmctrl : bool) : M bool :=
  match wids with
  | [] => mret tryWmctrl
  | wid :: rest =>
      err ← call (InTrial i (CloseWindowID wid)) (xtool_CloseWindowID W i k);
      match err with
      | Some e =>
          logError i (ErrWrap "closing window: " e);;
          close_windows i (S k) rest true
      | None => close_windows i (S k) rest tryWmctrl
      end
  end.

(** Lines 314-325: kill every pid of the slice. *)
Fixpoint kill_pids (i k : nat) (pids : list Z) (tryWmctrl : bool) : M bool :=
  match pids with
  | [] => mret tryWmctrl
  | pid :: rest =>
      err ← call (InTrial i (SignalKill pid)) (proc_Signal W i k);
      match err with
      | Some e =>
          if negb (strings_Contains (Error e) "process already finished") then
            logError i (ErrWrap ("killing window process pid " ++ itoa pid ++ ": ") e);;
            kill_pids i (S k) rest true
          else kill_pids i (S k) rest tryWmctrl
      | None => kill_pids i (S k) rest tryWmctrl
      end
  end.

(** Lines 291-326; the result is [tryWmctrl]. *)
Definition close_and_kill (i : nat) (tryXToolClose : bool) (wids : list string) : M bool :=
  if tryXToolClose then
    '(pids, tryWmctrl) ← resolve_pids i 0 wids (replicate (length wids) 0);
    tryWmctrl ← close_windows i 0 wids tryWmctrl;
    kill_pids i 0 pids tryWmctrl
  else mret false.

(** Lines 328-333. *)
Definition fallback_close (i : nat) (tryWmctrl : bool) : M unit :=
  when tryWmctrl
    (err ← wmctrlCloseWindow i (WindowName x);
     match err with
     | Some e => logError i (ErrWrap "closing window with wmctrl: " e)
     | None => mret tt
     end).

(** Lines 335-352: close the fifo, wait for the reader, look at what it left
    in [slg] and [straceErr].  The result is [slg], nil when not tracing. *)
Definition collect_trace (i : nat) : M (option strace_ExecveTiming) :=
  if negb (NoTrace x) then
    call (InTrial i FifoClose) tt;;
    '(slg, straceErr) ← call (InTrial i RecvDone) (strace_TraceExecveTimings W i);
    match straceErr with
    | None => when (negb (JSONOutput x)) (call (InTrial i (Display slg)) tt)
    | Some e => logError i (ErrWrap "cannot extract runtime data: " e)
    end;;
    mret slg
  else mret None.

(** Lines 354-359: the restore script. *)
Definition restore_script (i : nat) : M unit :=
  when (nonempty (RestoreScript x))
    (err ← call (InTrial i (RunScript (RestoreScript x) (RestoreScriptArgs x)))
                (RunScript_restore W i);
     match err with
     | Some e => logError i (ErrWrap "running restore script: " e)
     | None => mret tt
     end).

(** Lines 361-372: the [Execution] of the trial.  [slg.TotalTime] on a nil
    [slg] is a nil pointer dereference. *)
Definition build_run (slg : option strace_ExecveTiming) (startup : Duration)
  : M Execution :=
  fun s =>
    let run := fun ttr => {| ExecveTiming := slg; TimeToDisplay := startup;
                             TimeToRun := ttr; Errors := errs s |} in
    if NoTrace x then pure (run startup) s
    else match slg with
         | Some t => pure (run (TotalTime t)) s
         | None => panic "invalid memory address or nil pointer dereference" s
         end.

(** Lines 374-381: append the run, print the total, reset the errors. *)
Definition append_run (run : Execution) : M unit :=
  fun s => {| res := Val tt;
              gst := {| errs := errs s; outRes := {| Runs := Runs (outRes s) ++ [run] |} |};
              calls := []; deferred := [] |}.

Definition record_run (i : nat) (run : Execution) (startup : Duration) : M unit :=
  append_run run;;
  when (negb (JSONOutput x)) (call (InTrial i (PrintStartup startup)) tt);;
  resetErrors.

(** Lines 144-372 of the loop body: everything up to the [Execution]. *)
Definition measure (i : nat) : M (Execution * Duration) :=
  prepare_script i;;
  setup_command i;;
  setup_stdio i;;
  discard_snap_ns i;;
  ws ← lift windowspec;
  free_caches i;;
  '(wids, _, tryXToolClose, startup) ← start_and_wait i ws;
  tryWmctrl ← close_and_kill i tryXToolClose wids;
  fallback_close i tryWmctrl;;
  slg ← collect_trace i;
  restore_script i;;
  run ← build_run slg startup;
  mret (run, startup).

(** The body of the loop, lines 144-381. *)
Definition trial (i : nat) : M unit :=
  '(run, startup) ← measure i;
  record_run i run startup.

(** Line 143: [for i = 0; i < 1+currentCmd.AdditionalIterations; i++], the
    bound computed in [uint]. *)
Definition iterations : nat := Z.to_nat (uint_wrap (1 + AdditionalIterations currentCmd)).

(** [n] more rounds of the loop, the counter at [i]. *)
Fixpoint trials (n i : nat) : M unit :=
  match n with
  | O => mret tt
  | S n' => trial i;; trials n' (S i)
  end.

(** Lines 129-139: the output file. *)
Definition open_output : M unit :=
  when (nonempty (OutputFile x))
    (err ← call (Outside (EnsureExistsAndOpen (OutputFile x) true)) (open_OutputFile W);
     match err with
     | Some e => return_ (Some e)
     | None => mret tt
     end).

(** Lines 384-386. *)
Definition encode : M unit :=
  fun s => when (JSONOutput x) (call (Outside (Encode (outRes s))) tt) s.

Definition Execute_body : M unit :=
  open_output;; trials iterations 0;; encode.

(** How a call of [Execute] ends. *)
Inductive exit : Type :=
| Returned (err : option error)
| Panicked (msg : string).

Record Final : Type := {
  ended : exit;
  result : OutputResult;      (* [outRes] when the function is left *)
  trace : list event          (* every action made, the deferred ones included *)
}.

(** [Execute]: the body, then the deferred calls, last registered first;
    they run on [return] and on a panic alike.  [errs] is nil and [outRes]
    empty when the function is entered. *)
Definition Execute : Final :=
  let o := Execute_body {| errs := []; outRes := {| Runs := [] |} |} in
  {| ended := match res o with
              | Val _ => Returned None
              | Return err => Returned err
              | Panic msg => Panicked msg
              end;
     result := outRes (gst o);
     trace := calls o ++ rev (deferred o) |}.

End Execute.

(** ** Sample configurations and worlds *)

Module Samples.

(** [etrace run sample-app], every option at its zero value. *)
Definition sample_run : cmdRun :=
  {| WindowName := ""; PrepareScript := ""; PrepareScriptArgs := [];
     RestoreScript := ""; RestoreScriptArgs := []; WindowClass := "";
     NoTrace := false; RunThroughSnap := false; DiscardSnapNs := false;
     ProgramStdoutLog := ""; ProgramStderrLog := ""; JSONOutput := false;
     OutputFile := ""; NoWindowWait := false; Args_Cmd := ["sample-app"] |}.

Definition timing : strace_ExecveTiming :=
  {| TotalTime := 1500; exeRuntimes := [("sample-app", 1500)] |}.

(** Every collaborator succeeds: one window [w1] of pid 4242 appears, the
    temporary directory of trial [i] is [/tmp/exec-trace<i>]. *)
Definition calm : World :=
  {| open_OutputFile := None;
     RunScript_prepare := fun _ => None;
     ioutil_TempDir := fun i => ("/tmp/exec-trace" ++ itoa (Z.of_nat i), None);
     syscall_Mkfifo := fun _ => None;
     os_OpenFile := fun _ => None;
     strace_TraceExecveTimings := fun _ => (Some timing, None);
     strace_TraceExecCommand := fun _ => None;
     open_ProgramStdoutLog := fun _ => None;
     open_ProgramStderrLog := fun _ => None;
     snaps_DiscardSnapNs := fun _ => None;
     profiling_FreeCaches := fun _ => None;
     cmd_Start := fun _ => None;
     time_Since := fun _ => 900;
     xtool_WaitForWindow := fun _ => (["w1"], None);
     xtool_PidForWindowID := fun _ _ => (4242, None);
     xtool_CloseWindowID := fun _ _ => None;
     proc_Signal := fun _ _ => None;
     wmctrl_CombinedOutput := fun _ => ("", None);
     RunScript_restore := fun _ => None |}.

(** [etrace -n <additional> run sample-app] *)
Definition sample (additional : Z) : Command :=
  {| Run := sample_run; ShowErrors := false; AdditionalIterations := additional |}.

(** The trace parser returns a nil timing and an error, as Go functions do. *)
Definition parse_fails : World :=
  with_strace_TraceExecveTimings
    (fun _ => (None, Some (ErrNew "strace: no execve found"))) calm.

(** [strace.TraceExecCommand] fails. *)
Definition tracer_missing : World :=
  with_strace_TraceExecCommand (fun _ => Some (ErrNew "cannot find strace")) calm.

(** No window ever appears: [WaitForWindow] times out. *)
Definition no_window : World :=
  with_xtool_WaitForWindow (fun _ => ([], Some (ErrNew "timed out"))) calm.

(** [etrace run --discard-snap-ns sample-app], without [--use-snap-run]. *)
Definition discard_without_snap : Command :=
  {| Run := {| WindowName := ""; PrepareScript := ""; PrepareScriptArgs := [];
               RestoreScript := ""; RestoreScriptArgs := []; WindowClass := "";
               NoTrace := false; RunThroughSnap := false; DiscardSnapNs := true;
               ProgramStdoutLog := ""; ProgramStderrLog := ""; JSONOutput := false;
               OutputFile := ""; NoWindowWait := false; Args_Cmd := ["sample-app"] |};
     ShowErrors := false; AdditionalIterations := 0 |}.

(** The temporary directory cannot be created. *)
Definition no_tmp : World :=
  with_ioutil_TempDir (fun _ => ("", Some (ErrNew "no space left on device"))) calm.

(** [cmd.Start()] fails. *)
Definition start_fails : World :=
  with_cmd_Start (fun _ => Some (ErrNew "exec: sample-app: not found")) calm.

(** Three windows appear; the pid of the first is found, the lookup for the
    second fails. *)
Definition pid_lookup_fails : World :=
  with_xtool_PidForWindowID
    (fun _ k => match k with
                | O => (4242, None)
                | _ => (0, Some (ErrNew "xdotool: no pid for window"))
                end)
    (with_xtool_WaitForWindow (fun _ => (["w1"; "w2"; "w3"], None)) calm).

(** [etrace run --no-trace --no-window-wait sample-app] *)
Definition untraced_no_wait : Command :=
  {| Run := {| WindowName := ""; PrepareScript := ""; PrepareScriptArgs := [];
               RestoreScript := ""; RestoreScriptArgs := []; WindowClass := "";
               NoTrace := true; RunThroughSnap := false; DiscardSnapNs := false;
               ProgramStdoutLog := ""; ProgramStderrLog := ""; JSONOutput := false;
               OutputFile := ""; NoWindowWait := true; Args_Cmd := ["sample-app"] |};
     ShowErrors := false; AdditionalIterations := 0 |}.

End Samples.

Import Samples.

(** * [internal/files]: the stubs of [export_test.go] and their use in
    [files_test.go]

    The package keeps the four system calls it uses in the variables
    [osStat], [osRemove], [osCreate] and [osOpenFile]; [export_test.go]
    reads and assigns them.  Their types are those of the parameters of its
    four functions, which only move the values around. *)

Section Stubs.

Context {StatFn RemoveFn CreateFn OpenFileFn : Type}.

(** The four package variables. *)
Record files_vars : Type := {
  osStat : StatFn;
  osRemove : RemoveFn;
  osCreate : CreateFn;
  osOpenFile : OpenFileFn
}.

(** A [func()] that assigns to the package variables when it is called. *)
Definition restorer : Type := files_vars -> files_vars.

(** [MockOSStat]: the variables after the call, and the closure it returns,
    which holds the value that [osStat] had when the stub was installed. *)
Definition MockOSStat (mocked : StatFn) (v : files_vars) : files_vars * restorer :=
  let old := osStat v in
  ({| osStat := mocked; osRemove := osRemove v; osCreate := osCreate v;
      osOpenFile := osOpenFile v |},
   fun v' => {| osStat := old; osRemove := osRemove v'; osCreate := osCreate v';
                osOpenFile := osOpenFile v' |}).

(** [MockOSRemove] *)
Definition MockOSRemove (mocked : RemoveFn) (v : files_vars) : files_vars * restorer :=
  let old := osRemove v in
  ({| osStat := osStat v; osRemove := mocked; osCreate := osCreate v;
      osOpenFile := osOpenFile v |},
   fun v' => {| osStat := osStat v'; osRemove := old; osCreate := osCreate v';
                osOpenFile := osOpenFile v' |}).

(** [MockOSCreate] *)
Definition MockOSCreate (mocked : CreateFn) (v : files_vars) : files_vars * restorer :=
  let old := osCreate v in
  ({| osStat := osStat v; osRemove := osRemove v; osCreate := mocked;
      osOpenFile := osOpenFile v |},
   fun v' => {| osStat := osStat v'; osRemove := osRemove v'; osCreate := old;
                osOpenFile := osOpenFile v' |}).

(** [MockOSOpenFile] *)
Definition MockOSOpenFile (mocked : OpenFileFn) (v : files_vars)
  : files_vars * restorer :=
  let old := osOpenFile v in
  ({| osStat := osStat v; osRemove := osRemove v; osCreate := osCreate v;
      osOpenFile := mocked |},
   fun v' => {| osStat := osStat v'; osRemove := osRemove v'; osCreate := osCreate v';
                osOpenFile := old |}).

(** A call of one of the four functions. *)
Inductive stub : Type :=
| StubStat (mocked : StatFn)
| StubRemove (mocked : RemoveFn)
| StubCreate (mocked : CreateFn)
| StubOpenFile (mocked : OpenFileFn).

Definition install (m : stub) : files_vars -> files_vars * restorer :=
  match m with
  | StubStat f => MockOSStat f
  | StubRemove f => MockOSRemove f
  | StubCreate f => MockOSCreate f
  | StubOpenFile f => MockOSOpenFile f
  end.

(** The calls [ms], one after the other; the closures they return are kept
    as a test keeps them to unwind: the last returned is the first to be
    called. *)
Fixpoint install_all (ms : list stub) (v : files_vars) : files_vars * list restorer :=
  match ms with
  | [] => (v, [])
  | m :: rest =>
      let '(v1, r) := install m v in
      let '(v2, rs) := install_all rest v1 in
      (v2, (rs ++ [r])%list)
  end.

(** Call the closures [rs], from the first to the last. *)
Definition run_all (rs : list restorer) (v : files_vars) : files_vars :=
  fold_left (fun v' r => r v') rs v.

End Stubs.

Arguments files_vars : clear implicits.
Arguments restorer : clear implicits.
Arguments stub : clear implicits.

(** ** [files_test.go] *)

(** [mockedOsFileInfo] and its methods; [ModTime], which reads the clock, is
    left out. *)
Record mockedOsFileInfo : Type := { isDir : bool }.

Definition mockedOsFileInfo_Name (m : mockedOsFileInfo) : string := "".
Definition mockedOsFileInfo_Size (m : mockedOsFileInfo) : Z := 0.
Definition mockedOsFileInfo_Mode (m : mockedOsFileInfo) : Z := 0.
Definition mockedOsFileInfo_IsDir (m : mockedOsFileInfo) : bool := isDir m.

(** [syscall.ENOENT] *)
Definition ENOENT : error := ErrNew "no such file or directory".

(** A row of the table [tt] of [TestEnsureExistAndOpenExists]. *)
Record test_case : Type := {
  fExists : bool;
  fIsDir : bool;
  fShouldDelete : bool;
  expectedDelete : bool;
  expectedErrPattern : string
}.

Definition tt_cases : list test_case :=
  [ {| fExists := true; fIsDir := false; fShouldDelete := true;
       expectedDelete := true; expectedErrPattern := "" |};
    {| fExists := false; fIsDir := false; fShouldDelete := true;
       expectedDelete := false; expectedErrPattern := "" |};
    {| fExists := true; fIsDir := false; fShouldDelete := false;
       expectedDelete := false; expectedErrPattern := "" |} ].

(** The stub that the test installs for the row [t]. *)
Definition stat_stub (t : test_case) (name : string) : mockedOsFileInfo * option error :=
  let fi := {| isDir := fIsDir t |} in
  (fi, if negb (fExists t) then Some ENOENT else None).

(** The loop of [TestEnsureExistAndOpenExists] over a table: install the
    stub of the row, do the test (nothing yet), call the closure.  The result
    is the package variables after the loop and, row by row, the [osStat]
    that was in place for the test. *)
Fixpoint TestEnsureExistAndOpenExists {RemoveFn CreateFn OpenFileFn : Type}
    (table : list test_case)
    (v : files_vars (string -> mockedOsFileInfo * option error) RemoveFn CreateFn OpenFileFn)
  : files_vars (string -> mockedOsFileInfo * option error) RemoveFn CreateFn OpenFileFn *
    list (string -> mockedOsFileInfo * option error) :=
  match table with
  | [] => (v, [])
  | t :: rest =>
      let '(v1, r) := MockOSStat (stat_stub t) v in
      let in_place := osStat v1 in
      let '(v2, seen) := TestEnsureExistAndOpenExists rest (r v1) in
      (v2, in_place :: seen)
  end.

(** * The vocabulary of the properties *)

Local Open Scope list_scope.

(** ** What a statement leaves alone

    [sound Q D m]: [m] does not touch [outRes], only appends to [errs], every
    action it makes satisfies [Q], every action it defers satisfies [D], and
    it has no [return nil]. *)
Definition sound (Q D : event -> Prop) {A} (m : M A) : Prop :=
  forall s,
    outRes (gst (m s)) = outRes s /\
    (exists l, errs (gst (m s)) = errs s ++ l) /\
    Forall Q (calls (m s)) /\
    Forall D (deferred (m s)) /\
    res (m s) <> Return None.

(** The stages of the loop body, and the actions each of them makes. *)
Inductive stage : Type :=
| Prepare | Setup | Stdio | Discard | Caches | Launch | Cascade | Fallback
| Collect | Restore.

(** [made_in st a]: [a] is an action that stage [st] can make. *)
Definition made_in (st : stage) (a : action) : Prop :=
  match st, a with
  | Prepare, (RunScript _ _ | LogPrintln _) => True
  | Setup, (TempDir | Mkfifo _ | OpenFile _ | GoTraceExecveTimings _
           | TraceExecCommand _ _ | ExecCommand _ _) => True
  | Stdio, EnsureExistsAndOpen _ false => True
  | Discard, DiscardNs _ => True
  | Caches, FreeCaches => True
  | Launch, (Start | Wait | WaitForWindow _ | LogPrintln _) => True
  | Cascade, (PidForWindowID _ | CloseWindowID _ | SignalKill _ | LogPrintln _) => True
  | Fallback, (Wmctrl _ | LogPrintln _) => True
  | Collect, (FifoClose | RecvDone | Display _ | LogPrintln _) => True
  | Restore, (RunScript _ _ | LogPrintln _) => True
  | _, _ => False
  end.

(** The actions a trial registers with [defer]. *)
Definition deferred_by_trial (a : action) : Prop :=
  match a with
  | RemoveAll _ | FifoClose | FileClose _ => True
  | _ => False
  end.

(** The actions a trial makes itself: no clean-up is among them. *)
Definition made_by_trial (a : action) : Prop :=
  match a with
  | RemoveAll _ | FileClose _ | Encode _ | EnsureExistsAndOpen _ true => False
  | _ => True
  end.

(** The events of the code around the loop. *)
Definition is_outside (e : event) : Prop :=
  match e with Outside _ => True | InTrial _ _ => False end.

(** The state in which the loop is entered. *)
Definition entry : GState := {| errs := []; outRes := {| Runs := [] |} |}.

(** The actions of the termination cascade and of its fallback. *)
Definition closing (a : action) : Prop :=
  match a with
  | PidForWindowID _ | CloseWindowID _ | SignalKill _ | Wmctrl _ => True
  | _ => False
  end.

(** The error of line 230. *)
Definition ErrDiscardWithoutSnap : error :=
  ErrNew "cannot use --discard-snap-ns without --use-snap-run".

(** Everything before the option check of trial [i] goes well: the trace
    directory, the fifo and the tracer command when tracing, else a command
    to build; and the log files that are configured. *)
Definition setup_succeeds (currentCmd : Command) (W : World) (i : nat) : Prop :=
  (NoTrace (Run currentCmd) = false ->
   snd (ioutil_TempDir W i) = None /\ syscall_Mkfifo W i = None /\
   os_OpenFile W i = None /\ strace_TraceExecCommand W i = None) /\
  (NoTrace (Run currentCmd) = true -> targetCmd currentCmd <> []) /\
  (ProgramStdoutLog (Run currentCmd) <> ""%string -> open_ProgramStdoutLog W i = None) /\
  (ProgramStderrLog (Run currentCmd) <> ""%string -> open_ProgramStderrLog W i = None).

(** The world in which the command of trial [i] does start. *)
Definition started_at (i : nat) (W : World) : World :=
  with_cmd_Start (fun j => if Nat.eqb j i then None else cmd_Start W j) W.

(** The windows whose pid is looked up, in the order of the calls. *)
Definition pid_lookups (l : list event) : list string :=
  omap (fun e => match e with
                 | InTrial _ (PidForWindowID wid) => Some wid
                 | _ => None
                 end) l.

(** The pids that are signalled, in the order of the calls. *)
Definition kills (l : list event) : list Z :=
  omap (fun e => match e with
                 | InTrial _ (SignalKill pid) => Some pid
                 | _ => None
                 end) l.

(** The events of trial [i], in the order of the trace. *)
Definition of_trial (i : nat) (l : list event) : list event :=
  omap (fun e => match e with
                 | InTrial j _ => if Nat.eqb j i then Some e else None
                 | Outside _ => None
                 end) l.

(** Neither a pid lookup nor a kill. *)
Definition quiet (l : list event) : Prop := pid_lookups l = [] /\ kills l = [].

(** The results that are encoded, in the order of the calls. *)
Definition encodings (l : list event) : list OutputResult :=
  omap (fun e => match e with
                 | Outside (Encode r) => Some r
                 | _ => None
                 end) l.

(** ** How a statement can end, and what it can log

    [behaves E R P m]: [m] only appends to [errs], and only errors that
    satisfy [E]; when it leaves the function it is with [return err] for an
    [err] that satisfies [R]; when it panics, [P] holds. *)
Definition behaves (E R : error -> Prop) (P : Prop) {A} (m : M A) : Prop :=
  forall s,
    (exists l, errs (gst (m s)) = errs s ++ l /\ Forall E l) /\
    match res (m s) with
    | Val _ => True
    | Return None => False
    | Return (Some e) => R e
    | Panic _ => P
    end.

(** The errors that trial [i] can log: the failure of one of its own steps,
    wrapped at the place where it is logged. *)
Definition trial_error (W : World) (i : nat) (e : error) : Prop :=
  (exists c, RunScript_prepare W i = Some c /\
             e = ErrWrap "running prepare script: " c) \/
  (exists c, snd (xtool_WaitForWindow W i) = Some c /\
             e = ErrWrap "waiting for window appearance: " c) \/
  (exists k wid c, snd (xtool_PidForWindowID W i k) = Some c /\
                   e = ErrWrap ("getting pid for wid " ++ wid ++ ": ")%string c) \/
  (exists k c, xtool_CloseWindowID W i k = Some c /\
               e = ErrWrap "closing window: " c) \/
  (exists k pid c, proc_Signal W i k = Some c /\
                   strings_Contains (Error c) "process already finished" = false /\
                   e = ErrWrap ("killing window process pid " ++ itoa pid ++ ": ")%string c) \/
  (exists c, snd (wmctrl_CombinedOutput W i) = Some c /\
             e = ErrWrap "closing window with wmctrl: " c) \/
  (exists c, snd (strace_TraceExecveTimings W i) = Some c /\
             e = ErrWrap "cannot extract runtime data: " c) \/
  (exists c, RunScript_restore W i = Some c /\
             e = ErrWrap "running restore script: " c).

(** The errors that trial [i] can return: the configuration error, or the
    error of a collaborator of its set-up, as it came. *)
Definition fatal_error (W : World) (i : nat) (e : error) : Prop :=
  e = ErrDiscardWithoutSnap \/
  snd (ioutil_TempDir W i) = Some e \/
  syscall_Mkfifo W i = Some e \/
  os_OpenFile W i = Some e \/
  strace_TraceExecCommand W i = Some e \/
  open_ProgramStdoutLog W i = Some e \/
  open_ProgramStderrLog W i = Some e \/
  snaps_DiscardSnapNs W i = Some e \/
  profiling_FreeCaches W i = Some e.

(** What makes trial [i] panic: no command at all, or no timing to read the
    total from. *)
Definition panic_cause (currentCmd : Command) (W : World) (i : nat) : Prop :=
  Args_Cmd (Run currentCmd) = [] \/
  (NoTrace (Run currentCmd) = false /\ fst (strace_TraceExecveTimings W i) = None).

(** The actions of the trace channel: its directory, its fifo, the reader
    goroutine, the traced command and the display of the timing. *)
Definition tracing (a : action) : Prop :=
  match a with
  | TempDir | Mkfifo _ | OpenFile _ | GoTraceExecveTimings _
  | TraceExecCommand _ _ | FifoClose | RecvDone | Display _ | RemoveAll _ => True
  | _ => False
  end.

(** The actions on windows: the wait, and the cascade with its fallback. *)
Definition on_windows (a : action) : Prop :=
  match a with
  | WaitForWindow _ | PidForWindowID _ | CloseWindowID _ | SignalKill _
  | Wmctrl _ => True
  | _ => False
  end.

(** What the set-up of trial [i] may name: the command as configured, with
    [snap run] in front when asked, built directly or handed to the tracer
    according to [NoTrace]; the fifo of the directory that [ioutil.TempDir]
    returned in this trial; and that directory, to be removed. *)
Definition names_its_own (currentCmd : Command) (W : World) (i : nat) (a : action)
  : Prop :=
  let command := if RunThroughSnap (Run currentCmd)
                 then "snap" :: "run" :: Args_Cmd (Run currentCmd)
                 else Args_Cmd (Run currentCmd) in
  let dir := fst (ioutil_TempDir W i) in
  let fifo := (dir ++ "/strace.fifo")%string in
  match a with
  | ExecCommand prog args =>
      NoTrace (Run currentCmd) = true /\ prog :: args = command
  | TraceExecCommand path cmd =>
      NoTrace (Run currentCmd) = false /\ cmd = command /\ path = fifo
  | Mkfifo path | OpenFile path | GoTraceExecveTimings path => path = fifo
  | RemoveAll path => path = dir
  | FileClose path =>
      path = ProgramStdoutLog (Run currentCmd) \/
      path = ProgramStderrLog (Run currentCmd)
  | EnsureExistsAndOpen path delete =>
      delete = false /\
      (path = ProgramStdoutLog (Run currentCmd) \/
       path = ProgramStderrLog (Run currentCmd))
  | RunScript path args =>
      (path = PrepareScript (Run currentCmd) /\
       args = PrepareScriptArgs (Run currentCmd)) \/
      (path = RestoreScript (Run currentCmd) /\
       args = RestoreScriptArgs (Run currentCmd))
  | Wmctrl name => name = WindowName (Run currentCmd)
  | _ => True
  end.

(** ** The loop body in three parts

    Lines 144-261, what comes before the caches are dropped: the prepare
    script, the command, its streams, the snap namespace and the window
    selector, which is the result. *)
Definition preparations (currentCmd : Command) (W : World) (i : nat)
  : M xdotool_Window :=
  prepare_script currentCmd W i;;
  setup_command currentCmd W i;;
  setup_stdio currentCmd W i;;
  discard_snap_ns currentCmd W i;;
  lift (windowspec currentCmd).

(** Lines 270-372, from the start of the command to the record. *)
Definition timed_run (currentCmd : Command) (W : World) (i : nat)
    (ws : xdotool_Window) : M (Execution * Duration) :=
  '(wids, _, tryXToolClose, startup) ← start_and_wait currentCmd W i ws;
  tryWmctrl ← close_and_kill currentCmd W i tryXToolClose wids;
  fallback_close currentCmd W i tryWmctrl;;
  slg ← collect_trace currentCmd W i;
  restore_script currentCmd W i;;
  run ← build_run currentCmd slg startup;
  mret (run, startup).

(** ** Statements that always fall through *)
Definition total {A} (m : M A) : Prop := forall s, exists a, res (m s) = Val a.

(** The trials that started their command, in the order of the calls. *)
Definition starts (l : list event) : list nat :=
  omap (fun e => match e with
                 | InTrial i Start => Some i
                 | _ => None
                 end) l.

(** ** What is made against what is deferred

    [keeps P m]: [P] relates the actions that [m] makes and the actions that
    it defers. *)
Definition keeps (P : list event -> list event -> Prop) {A} (m : M A) : Prop :=
  forall s, P (calls (m s)) (deferred (m s)).

(** The directories that are removed, each with the trial that removes it,
    in the order of the calls. *)
Definition removals (l : list event) : list (nat * string) :=
  omap (fun e => match e with
                 | InTrial i (RemoveAll dir) => Some (i, dir)
                 | _ => None
                 end) l.

(** The directories that [ioutil.TempDir] created, each with the trial that
    asked for it, in the order of the calls. *)
Definition creations (W : World) (l : list event) : list (nat * string) :=
  omap (fun e => match e with
                 | InTrial i TempDir =>
                     match ioutil_TempDir W i with
                     | (dir, None) => Some (i, dir)
                     | (_, Some _) => None
                     end
                 | _ => None
                 end) l.

(** What is deferred removes what was created, and nothing else removes or
    creates. *)
Definition removes_its_own (W : World) (made registered : list event) : Prop :=
  removals registered = creations W made /\
  removals made = [] /\ creations W registered = [].

(** The stages of the timed run. *)
Definition late (st : stage) : Prop :=
  match st with
  | Launch | Cascade | Fallback | Collect | Restore => True
  | _ => False
  end.

(** The startup times printed by line 378, in the order of the calls. *)
Definition startup_lines (l : list event) : list Duration :=
  omap (fun e => match e with
                 | InTrial _ (PrintStartup startup) => Some startup
                 | _ => None
                 end) l.

(** The action of an event. *)
Definition action_of (e : event) : action :=
  match e with InTrial _ a | Outside a => a end.

(** The actions that write to [w], the output file or the standard output:
    the table of the timing, the total line and the JSON encoding. *)
Definition writes_output (a : action) : Prop :=
  match a with
  | Display _ | PrintStartup _ | Encode _ => True
  | _ => False
  end.

(** [etrace run --json sample-app] *)
Definition sample_json : Command :=
  {| Run := {| WindowName := ""; PrepareScript := ""; PrepareScriptArgs := [];
               RestoreScript := ""; RestoreScriptArgs := []; WindowClass := "";
               NoTrace := false; RunThroughSnap := false; DiscardSnapNs := false;
               ProgramStdoutLog := ""; ProgramStderrLog := ""; JSONOutput := true;
               OutputFile := ""; NoWindowWait := false; Args_Cmd := ["sample-app"%string] |};
     ShowErrors := false; AdditionalIterations := 0 |}.

(** [preceded a b l]: in [l], every [b] comes immediately after an [a] of the
    same trial. *)
Definition preceded (a b : action) (l : list event) : Prop :=
  forall l1 l2 i, l = l1 ++ InTrial i b :: l2 -> exists l0, l1 = l0 ++ [InTrial i a].

(** ** The termination cascade, step by step *)

(** What the cascade does to end the command: it asks a window to close,
    kills a pid, or falls back on wmctrl. *)
Inductive cascade_step : Type :=
| Closed (wid : string)
| Killed (pid : Z)
| FellBack (name : string).

(** The steps of the cascade, in the order of the calls. *)
Definition cascade_steps (l : list event) : list cascade_step :=
  omap (fun e => match e with
                 | InTrial _ (CloseWindowID wid) => Some (Closed wid)
                 | InTrial _ (SignalKill pid) => Some (Killed pid)
                 | InTrial _ (Wmctrl name) => Some (FellBack name)
                 | _ => None
                 end) l.

(** The failures that set [tryWmctrl]: of the pid lookup, of the close and
    of the kill at index [k] of trial [i]; a kill that finds the process
    already finished is no failure. *)
Definition lookup_fails (W : World) (i k : nat) : bool :=
  match snd (xtool_PidForWindowID W i k) with Some _ => true | None => false end.

Definition close_fails (W : World) (i k : nat) : bool :=
  match xtool_CloseWindowID W i k with Some _ => true | None => false end.

Definition kill_fails (W : World) (i k : nat) : bool :=
  match proc_Signal W i k with
  | Some e => negb (strings_Contains (Error e) "process already finished")
  | None => false
  end.

(** One of the [n] windows of trial [i] could not be looked up, closed or
    killed. *)
Definition cascade_fails (W : World) (i n : nat) : bool :=
  existsb (lookup_fails W i) (seq 0 n) ||
  existsb (close_fails W i) (seq 0 n) ||
  existsb (kill_fails W i) (seq 0 n).

(** The windows the cascade of trial [i] is run on: those that the wait
    found; none when the wait failed or was not asked for. *)
Definition cascade_windows (currentCmd : Command) (W : World) (i : nat) : list string :=
  if NoWindowWait (Run currentCmd) then []
  else match snd (xtool_WaitForWindow W i) with
       | Some _ => []
       | None => fst (xtool_WaitForWindow W i)
       end.

(** ** What is logged against what is shown

    [shows i m]: [m] only appends to [errs], and every error it appends is
    printed, by an action of trial [i] that [m] makes. *)
Definition shows (i : nat) {A} (m : M A) : Prop :=
  forall s, exists l,
    errs (gst (m s)) = errs s ++ l /\
    Forall (fun e => InTrial i (LogPrintln (Error e)) ∈ calls (m s)) l.

(** [etrace -e run sample-app] *)
Definition sample_errors : Command :=
  {| Run := sample_run; ShowErrors := true; AdditionalIterations := 0 |}.

(** The pid of the window cannot be looked up, and wmctrl fails too. *)
Definition wmctrl_fails : World :=
  {| open_OutputFile := None;
     RunScript_prepare := fun _ => None;
     ioutil_TempDir := fun i => (("/tmp/exec-trace" ++ itoa (Z.of_nat i))%string, None);
     syscall_Mkfifo := fun _ => None;
     os_OpenFile := fun _ => None;
     strace_TraceExecveTimings := fun _ => (Some timing, None);
     strace_TraceExecCommand := fun _ => None;
     open_ProgramStdoutLog := fun _ => None;
     open_ProgramStderrLog := fun _ => None;
     snaps_DiscardSnapNs := fun _ => None;
     profiling_FreeCaches := fun _ => None;
     cmd_Start := fun _ => None;
     time_Since := fun _ => 900;
     xtool_WaitForWindow := fun _ => (["w1"%string], None);
     xtool_PidForWindowID := fun _ _ => (0, Some (ErrNew "xdotool: no pid for window"));
     xtool_CloseWindowID := fun _ _ => None;
     proc_Signal := fun _ _ => None;
     wmctrl_CombinedOutput :=
       fun _ => ("Cannot open display."%string, Some (ErrNew "exit status 1"));
     RunScript_restore := fun _ => None |}.

(** The scripts that are run, each with its arguments, in the order of the
    calls. *)
Definition scripts (l : list event) : list (string * list string) :=
  omap (fun e => match e with
                 | InTrial _ (RunScript path args) => Some (path, args)
                 | _ => None
                 end) l.

(** The prepare script and the restore script, when they are configured. *)
Definition prepare_part (currentCmd : Command) : list (string * list string) :=
  if nonempty (PrepareScript (Run currentCmd))
  then [(PrepareScript (Run currentCmd), PrepareScriptArgs (Run currentCmd))] else [].

Definition restore_part (currentCmd : Command) : list (string * list string) :=
  if nonempty (RestoreScript (Run currentCmd))
  then [(RestoreScript (Run currentCmd), RestoreScriptArgs (Run currentCmd))] else [].

(** [etrace run --prepare-script prepare.sh --restore-script restore.sh
    sample-app] *)
Definition sample_scripts : Command :=
  {| Run := {| WindowName := ""; PrepareScript := "prepare.sh"; PrepareScriptArgs := [];
               RestoreScript := "restore.sh"; RestoreScriptArgs := []; WindowClass := "";
               NoTrace := false; RunThroughSnap := false; DiscardSnapNs := false;
               ProgramStdoutLog := ""; ProgramStderrLog := ""; JSONOutput := false;
               OutputFile := ""; NoWindowWait := false; Args_Cmd := ["sample-app"%string] |};
     ShowErrors := false; AdditionalIterations := 0 |}.

(** The pids that the cascade of trial [i] kills when it is run on [n]
    windows: [pids] of line 294 after the loop of lines 295-303, which holds
    the pid that was looked up at every index before the first lookup that
    fails, and the zero of [make] from there on. *)
Definition killed_pids (W : World) (i n : nat) : list Z :=
  map (fun k => if existsb (lookup_fails W i) (seq 0 (S k)) then 0
                else fst (xtool_PidForWindowID W i k)) (seq 0 n).

(** ** What comes before the option check

    The first step of the trace set-up of trial [i] to fail (lines 165-191),
    when tracing. *)
Definition trace_failure (currentCmd : Command) (W : World) (i : nat) : option error :=
  if NoTrace (Run currentCmd) then None
  else match snd (ioutil_TempDir W i) with
       | Some e => Some e
       | None =>
           match syscall_Mkfifo W i with
           | Some e => Some e
           | None =>
               match os_OpenFile W i with
               | Some e => Some e
               | None => strace_TraceExecCommand W i
               end
           end
       end.

(** The first of the configured log files of trial [i] that cannot be
    opened (lines 211-226). *)
Definition stdio_failure (currentCmd : Command) (W : World) (i : nat) : option error :=
  match (if nonempty (ProgramStdoutLog (Run currentCmd))
         then open_ProgramStdoutLog W i else None) with
  | Some e => Some e
  | None => if nonempty (ProgramStderrLog (Run currentCmd))
            then open_ProgramStderrLog W i else None
  end.

(** The first step of a run to fail before the option check of its first
    trial: the output file, the trace set-up, the log files. *)
Definition earlier_failure (currentCmd : Command) (W : World) : option error :=
  match (if nonempty (OutputFile (Run currentCmd)) then open_OutputFile W else None) with
  | Some e => Some e
  | None =>
      match trace_failure currentCmd W 0 with
      | Some e => Some e
      | None => stdio_failure currentCmd W 0
      end
  end.

(** In [l], every start of the command comes after the discard of the
    namespace of the first token of the command as given, in the same
    trial. *)
Definition discarded_before_start (currentCmd : Command) (l : list event) : Prop :=
  forall l1 l2 i,
    l = l1 ++ InTrial i Start :: l2 ->
    exists name rest,
      Args_Cmd (Run currentCmd) = name :: rest /\ InTrial i (DiscardNs name) ∈ l1.

(** [etrace run --use-snap-run --discard-snap-ns sample-app] *)
Definition discard_with_snap : Command :=
  {| Run := {| WindowName := ""; PrepareScript := ""; PrepareScriptArgs := [];
               RestoreScript := ""; RestoreScriptArgs := []; WindowClass := "";
               NoTrace := false; RunThroughSnap := true; DiscardSnapNs := true;
               ProgramStdoutLog := ""; ProgramStderrLog := ""; JSONOutput := false;
               OutputFile := ""; NoWindowWait := false; Args_Cmd := ["sample-app"%string] |};
     ShowErrors := false; AdditionalIterations := 0 |}.

(** The namespace of the snap cannot be discarded. *)
Definition discard_fails : World :=
  {| open_OutputFile := None;
     RunScript_prepare := fun _ => None;
     ioutil_TempDir := fun i => (("/tmp/exec-trace" ++ itoa (Z.of_nat i))%string, None);
     syscall_Mkfifo := fun _ => None;
     os_OpenFile := fun _ => None;
     strace_TraceExecveTimings := fun _ => (Some timing, None);
     strace_TraceExecCommand := fun _ => None;
     open_ProgramStdoutLog := fun _ => None;
     open_ProgramStderrLog := fun _ => None;
     snaps_DiscardSnapNs := fun _ => Some (ErrNew "snap-discard-ns: permission denied");
     profiling_FreeCaches := fun _ => None;
     cmd_Start := fun _ => None;
     time_Since := fun _ => 900;
     xtool_WaitForWindow := fun _ => (["w1"%string], None);
     xtool_PidForWindowID := fun _ _ => (4242, None);
     xtool_CloseWindowID := fun _ _ => None;
     proc_Signal := fun _ _ => None;
     wmctrl_CombinedOutput := fun _ => (""%string, None);
     RunScript_restore := fun _ => None |}.

(** * Properties *)

(** ** The monad *)

Section Laws.

Context {A B : Type} (m : M A) (k : A -> M B) (s : GState).

Lemma bind_Val a :
  res (m s) = Val a ->
  (m ≫= k) s =
    {| res := res (k a (gst (m s))); gst := gst (k a (gst (m s)));
       calls := calls (m s) ++ calls (k a (gst (m s)));
       deferred := deferred (m s) ++ deferred (k a (gst (m s))) |}.
Proof. intros E. unfold mbind, M_bind, bind. now rewrite E. Qed.

Lemma bind_Return err :
  res (m s) = Return err ->
  (m ≫= k) s =
    {| res := Return err; gst := gst (m s);
       calls := calls (m s); deferred := deferred (m s) |}.
Proof. intros E. unfold mbind, M_bind, bind. now rewrite E. Qed.

Lemma bind_Panic msg :
  res (m s) = Panic msg ->
  (m ≫= k) s =
    {| res := Panic msg; gst := gst (m s);
       calls := calls (m s); deferred := deferred (m s) |}.
Proof. intros E. unfold mbind, M_bind, bind. now rewrite E. Qed.

(** A sequence falls through only when both halves do. *)
Lemma res_bind_Val b :
  res ((m ≫= k) s) = Val b ->
  exists a, res (m s) = Val a /\ res (k a (gst (m s))) = Val b.
Proof.
  destruct (res (m s)) as [a| |] eqn:E.
  - rewrite (bind_Val a E). eauto.
  - rewrite (bind_Return _ E). discriminate.
  - rewrite (bind_Panic _ E). discriminate.
Qed.

End Laws.

Section Sound.

Variables Q D : event -> Prop.

Lemma sound_pure {A} (a : A) : sound Q D (mret a).
Proof. intros s. cbn. repeat split; auto. exists []. now rewrite app_nil_r. Qed.

Lemma sound_return {A} e : sound Q D (@return_ A (Some e)).
Proof. intros s. cbn. repeat split; auto. exists []. now rewrite app_nil_r. Qed.

Lemma sound_panic {A} msg : sound Q D (@panic A msg).
Proof. intros s. cbn. repeat split; auto. exists []. now rewrite app_nil_r. Qed.

Lemma sound_lift {A} (o : outcome A) : o <> Return None -> sound Q D (lift o).
Proof. intros H s. cbn. repeat split; auto. exists []. now rewrite app_nil_r. Qed.

Lemma sound_call {A} ev (r : A) : Q ev -> sound Q D (call ev r).
Proof. intros H s. cbn. repeat split; auto. exists []. now rewrite app_nil_r. Qed.

Lemma sound_defer ev : D ev -> sound Q D (defer ev).
Proof. intros H s. cbn. repeat split; auto. exists []. now rewrite app_nil_r. Qed.

(** The second half need only be sound at the values the first half can
    fall through with. *)
Lemma sound_bind {A B} (m : M A) (k : A -> M B) :
  sound Q D m ->
  (forall a, (exists s, res (m s) = Val a) -> sound Q D (k a)) ->
  sound Q D (m ≫= k).
Proof.
  intros Hm Hk s. destruct (Hm s) as (Ho & [l Hl] & Hc & Hd & Hr).
  destruct (res (m s)) as [a| |] eqn:E.
  - rewrite (bind_Val _ _ _ a E). cbn.
    destruct (Hk a (ex_intro _ s E) (gst (m s))) as (Ho' & [l' Hl'] & Hc' & Hd' & Hr').
    repeat split.
    + congruence.
    + exists (l ++ l'). rewrite Hl', Hl. now rewrite app_assoc.
    + now apply Forall_app.
    + now apply Forall_app.
    + exact Hr'.
  - rewrite (bind_Return _ _ _ _ E). cbn. repeat split; eauto; congruence.
  - rewrite (bind_Panic _ _ _ _ E). cbn. repeat split; eauto; congruence.
Qed.

Lemma sound_when b (m : M unit) : sound Q D m -> sound Q D (when b m).
Proof. destruct b; cbn; auto using sound_pure. Qed.

Lemma sound_logError c i err :
  (forall text, Q (InTrial i (LogPrintln text))) -> sound Q D (logError c i err).
Proof.
  intros H s. cbn. repeat split; eauto.
  destruct (ShowErrors c); auto.
Qed.

End Sound.

(** One step through the syntax of a statement; what is left are the
    conditions on its actions. *)
Ltac sound_step :=
  lazymatch goal with
  | |- sound _ _ (_ ≫= _) => apply sound_bind; [|intros ? ?]
  | |- sound _ _ (mret _) => apply sound_pure
  | |- sound _ _ (return_ _) => apply sound_return
  | |- sound _ _ (panic _) => apply sound_panic
  | |- sound _ _ (lift _) => apply sound_lift
  | |- sound _ _ (call _ _) => apply sound_call
  | |- sound _ _ (defer _) => apply sound_defer
  | |- sound _ _ (when _ _) => apply sound_when
  | |- sound _ _ (logError _ _ _) => apply sound_logError; intros ?
  | |- sound _ _ (match ?x with _ => _ end) => destruct x
  end.

Ltac sound_steps := repeat sound_step.

(** ** The statements of the loop body, one by one *)

Section Statements.

Variable currentCmd : Command.
Variable W : World.
Variable i : nat.
Variables Q D : event -> Prop.

Local Ltac side H := solve [apply H; exact I].

Lemma sound_wmctrlCloseWindow name :
  (forall a, made_in Fallback a -> Q (InTrial i a)) ->
  sound Q D (wmctrlCloseWindow W i name).
Proof. intros H. unfold wmctrlCloseWindow. sound_steps; side H. Qed.

Lemma sound_prepare_script :
  (forall a, made_in Prepare a -> Q (InTrial i a)) ->
  sound Q D (prepare_script currentCmd W i).
Proof. intros H. unfold prepare_script. sound_steps; side H. Qed.

Lemma sound_setup_command :
  (forall a, made_in Setup a -> Q (InTrial i a)) ->
  (forall a, deferred_by_trial a -> D (InTrial i a)) ->
  sound Q D (setup_command currentCmd W i).
Proof. intros H H'. unfold setup_command. sound_steps; try side H; side H'. Qed.

Lemma sound_setup_stdio :
  (forall a, made_in Stdio a -> Q (InTrial i a)) ->
  (forall a, deferred_by_trial a -> D (InTrial i a)) ->
  sound Q D (setup_stdio currentCmd W i).
Proof. intros H H'. unfold setup_stdio, open_log. sound_steps; try side H; side H'. Qed.

Lemma sound_discard_snap_ns :
  (forall a, made_in Discard a -> Q (InTrial i a)) ->
  sound Q D (discard_snap_ns currentCmd W i).
Proof. intros H. unfold discard_snap_ns. sound_steps; side H. Qed.

Lemma sound_free_caches :
  (forall a, made_in Caches a -> Q (InTrial i a)) ->
  sound Q D (free_caches W i).
Proof. intros H. unfold free_caches. sound_steps; side H. Qed.

Lemma sound_start_and_wait ws :
  (forall a, made_in Launch a -> Q (InTrial i a)) ->
  sound Q D (start_and_wait currentCmd W i ws).
Proof. intros H. unfold start_and_wait. sound_steps; side H. Qed.

Lemma sound_resolve_pids wids :
  (forall a, made_in Cascade a -> Q (InTrial i a)) ->
  forall k pids, sound Q D (resolve_pids currentCmd W i k wids pids).
Proof.
  intros H. induction wids as [|wid rest IH]; intros k pids; cbn;
    sound_steps; auto; side H.
Qed.

Lemma sound_close_windows wids :
  (forall a, made_in Cascade a -> Q (InTrial i a)) ->
  forall k b, sound Q D (close_windows currentCmd W i k wids b).
Proof.
  intros H. induction wids as [|wid rest IH]; intros k b; cbn;
    sound_steps; auto; side H.
Qed.

Lemma sound_kill_pids pids :
  (forall a, made_in Cascade a -> Q (InTrial i a)) ->
  forall k b, sound Q D (kill_pids currentCmd W i k pids b).
Proof.
  intros H. induction pids as [|pid rest IH]; intros k b; cbn;
    sound_steps; auto; side H.
Qed.

Lemma sound_close_and_kill b wids :
  (forall a, made_in Cascade a -> Q (InTrial i a)) ->
  sound Q D (close_and_kill currentCmd W i b wids).
Proof.
  intros H. unfold close_and_kill. sound_steps;
    auto using sound_resolve_pids, sound_close_windows, sound_kill_pids.
Qed.

Lemma sound_fallback_close b :
  (forall a, made_in Fallback a -> Q (InTrial i a)) ->
  sound Q D (fallback_close currentCmd W i b).
Proof.
  intros H. unfold fallback_close. sound_steps; try side H.
  now apply sound_wmctrlCloseWindow.
Qed.

Lemma sound_collect_trace :
  (forall a, made_in Collect a -> Q (InTrial i a)) ->
  sound Q D (collect_trace currentCmd W i).
Proof. intros H. unfold collect_trace. sound_steps; side H. Qed.

Lemma sound_restore_script :
  (forall a, made_in Restore a -> Q (InTrial i a)) ->
  sound Q D (restore_script currentCmd W i).
Proof. intros H. unfold restore_script. sound_steps; side H. Qed.

Lemma sound_build_run slg startup : sound Q D (build_run currentCmd slg startup).
Proof.
  intros s. unfold build_run.
  destruct (NoTrace (Run currentCmd)); [|destruct slg]; cbn;
    repeat split; auto; exists []; now rewrite app_nil_r.
Qed.

Lemma windowspec_no_return err : windowspec currentCmd <> Return err.
Proof.
  unfold windowspec.
  destruct (nonempty (WindowClass _)); [discriminate|].
  destruct (nonempty (WindowName _)); [discriminate|].
  destruct (Args_Cmd _); discriminate.
Qed.

Lemma sound_measure :
  (forall st a, made_in st a -> Q (InTrial i a)) ->
  (forall a, deferred_by_trial a -> D (InTrial i a)) ->
  sound Q D (measure currentCmd W i).
Proof.
  intros H H'. unfold measure. sound_steps;
    eauto using sound_prepare_script, sound_setup_command, sound_setup_stdio,
      sound_discard_snap_ns, sound_free_caches, sound_start_and_wait,
      sound_close_and_kill, sound_fallback_close, sound_collect_trace,
      sound_restore_script, sound_build_run, windowspec_no_return.
Qed.

End Statements.

Lemma made_in_by_trial st a : made_in st a -> made_by_trial a.
Proof. destruct st, a; cbn; auto; destruct delete; auto. Qed.

(** ** The loop *)

Section Loop.

Variable currentCmd : Command.
Variable W : World.

Local Abbreviation measure_ := (measure currentCmd W).
Local Abbreviation trial_ := (trial currentCmd W).
Local Abbreviation trials_ := (trials currentCmd W).

Lemma measure_outRes i s : outRes (gst (measure_ i s)) = outRes s.
Proof.
  now destruct (sound_measure currentCmd W i (fun _ => True) (fun _ => True)
                  (fun _ _ _ => I) (fun _ _ => I) s).
Qed.

(** Every action of trial [i] carries the tag [i]; the deferred ones are the
    three clean-ups, and no clean-up is made before the function is left. *)
Lemma measure_events i s :
  Forall (fun e => exists a, e = InTrial i a /\ made_by_trial a) (calls (measure_ i s)) /\
  Forall (fun e => exists a, e = InTrial i a /\ deferred_by_trial a) (deferred (measure_ i s)).
Proof.
  now destruct (sound_measure currentCmd W i
    (fun e => exists a, e = InTrial i a /\ made_by_trial a)
    (fun e => exists a, e = InTrial i a /\ deferred_by_trial a)
    (fun st a H => ex_intro _ a (conj eq_refl (made_in_by_trial st a H)))
    (fun a H => ex_intro _ a (conj eq_refl H)) s) as (_ & _ & ? & ? & _).
Qed.

Lemma measure_no_return_nil i s : res (measure_ i s) <> Return None.
Proof.
  now destruct (sound_measure currentCmd W i (fun _ => True) (fun _ => True)
                  (fun _ _ _ => I) (fun _ _ => I) s) as (_ & _ & _ & _ & ?).
Qed.

(** A trial is its measurement followed, when that falls through, by the
    append to [outRes.Runs], the total line and [resetErrors]. *)
Lemma trial_Val i s run startup :
  res (measure_ i s) = Val (run, startup) ->
  trial_ i s =
    {| res := Val tt;
       gst := {| errs := []; outRes := {| Runs := Runs (outRes s) ++ [run] |} |};
       calls := calls (measure_ i s) ++
                (if JSONOutput (Run currentCmd) then []
                 else [InTrial i (PrintStartup startup)]);
       deferred := deferred (measure_ i s) |}.
Proof.
  intros E. unfold trial. rewrite (bind_Val _ _ _ _ E).
  rewrite <- (measure_outRes i s).
  unfold record_run. destruct (JSONOutput (Run currentCmd)); cbn;
    now rewrite ?app_nil_r.
Qed.

Lemma trial_Return i s err :
  res (measure_ i s) = Return err ->
  trial_ i s =
    {| res := Return err; gst := gst (measure_ i s);
       calls := calls (measure_ i s); deferred := deferred (measure_ i s) |}.
Proof. intros E. unfold trial. now rewrite (bind_Return _ _ _ _ E). Qed.

Lemma trial_Panic i s msg :
  res (measure_ i s) = Panic msg ->
  trial_ i s =
    {| res := Panic msg; gst := gst (measure_ i s);
       calls := calls (measure_ i s); deferred := deferred (measure_ i s) |}.
Proof. intros E. unfold trial. now rewrite (bind_Panic _ _ _ _ E). Qed.

(** The three ways a trial ends. *)
Lemma trial_cases i s :
  (exists run startup, res (measure_ i s) = Val (run, startup)) \/
  (exists err, res (measure_ i s) = Return err) \/
  (exists msg, res (measure_ i s) = Panic msg).
Proof. destruct (res (measure_ i s)) as [[run startup]| |]; eauto. Qed.

Lemma trial_events i s :
  Forall (fun e => exists a, e = InTrial i a /\ made_by_trial a) (calls (trial_ i s)) /\
  Forall (fun e => exists a, e = InTrial i a /\ deferred_by_trial a) (deferred (trial_ i s)).
Proof.
  destruct (measure_events i s) as [Hc Hd].
  destruct (trial_cases i s) as [(run & startup & E)|[[err E]|[msg E]]].
  - rewrite (trial_Val _ _ _ _ E). cbn. split; auto.
    apply Forall_app. split; auto.
    destruct (JSONOutput _); repeat constructor. eexists. split; [reflexivity|exact I].
  - rewrite (trial_Return _ _ _ E). now cbn.
  - rewrite (trial_Panic _ _ _ E). now cbn.
Qed.

(** The records of the loop: the ones it found, then one per round, each the
    value of the measurement of its trial, started with no error logged. *)
Lemma trials_Runs n : forall i s j r,
  errs s = [] ->
  length (Runs (outRes s)) = i ->
  Runs (outRes (gst (trials_ n i s))) !! j = Some r ->
  Runs (outRes s) !! j = Some r \/
  (i <= j < i + n)%nat /\
  exists s' startup, errs s' = [] /\ res (measure_ j s') = Val (r, startup).
Proof.
  induction n as [|n IH]; intros i s j r He Hl Hj; cbn in Hj; [now left|].
  destruct (trial_cases i s) as [(run & startup & E)|[[err E]|[msg E]]].
  - rewrite (bind_Val _ _ _ tt) in Hj by now rewrite (trial_Val _ _ _ _ E).
    cbn in Hj. rewrite (trial_Val _ _ _ _ E) in Hj. cbn in Hj.
    apply IH in Hj; cbn; [|reflexivity|rewrite length_app; cbn; lia].
    destruct Hj as [Hj|[Hr Hj]].
    + cbn in Hj. apply lookup_app_Some in Hj as [Hj|[Hge Hj]]; [now left|].
      right. rewrite Hl in Hj, Hge.
      destruct (j - i)%nat as [|d] eqn:Ed; [|destruct d; discriminate].
      cbn in Hj. injection Hj as <-. assert (j = i) as -> by lia.
      split; [lia|]. eauto.
    + right. split; [lia|exact Hj].
  - rewrite (bind_Return _ _ _ err) in Hj by now rewrite (trial_Return _ _ _ E).
    cbn in Hj. rewrite (trial_Return _ _ _ E) in Hj. cbn in Hj.
    rewrite measure_outRes in Hj. now left.
  - rewrite (bind_Panic _ _ _ msg) in Hj by now rewrite (trial_Panic _ _ _ E).
    cbn in Hj. rewrite (trial_Panic _ _ _ E) in Hj. cbn in Hj.
    rewrite measure_outRes in Hj. now left.
Qed.

(** A loop that runs to its end has appended one record per round. *)
Lemma trials_count n : forall i s,
  res (trials_ n i s) = Val tt ->
  length (Runs (outRes (gst (trials_ n i s)))) = (length (Runs (outRes s)) + n)%nat.
Proof.
  induction n as [|n IH]; intros i s Hv; cbn in *; [lia|].
  apply res_bind_Val in Hv as Hv'. destruct Hv' as ([] & Ht & Hn).
  rewrite (bind_Val _ _ _ tt Ht). cbn. rewrite (IH _ _ Hn).
  destruct (trial_cases i s) as [(run & startup & E)|[[err E]|[msg E]]].
  - rewrite (trial_Val _ _ _ _ E). cbn. rewrite length_app. cbn. lia.
  - rewrite (trial_Return _ _ _ E) in Ht. discriminate.
  - rewrite (trial_Panic _ _ _ E) in Ht. discriminate.
Qed.

(** Every action the loop makes is made by one of its trials, started with
    no error logged; and so is every action it defers. *)
Lemma trials_part (part : Out unit -> list event) n :
  (forall (m : M unit) (k : unit -> M unit) s a,
     res (m s) = Val a -> part ((m ≫= k) s) = part (m s) ++ part (k a (gst (m s)))) ->
  (forall (m : M unit) (k : unit -> M unit) s,
     (forall a, res (m s) <> Val a) -> part ((m ≫= k) s) = part (m s)) ->
  (forall s, part ((mret tt : M unit) s) = []) ->
  forall i s e,
  errs s = [] ->
  e ∈ part (trials_ n i s) ->
  exists j s', (i <= j < i + n)%nat /\ errs s' = [] /\ e ∈ part (trial_ j s').
Proof.
  intros Hval Hstop Hret.
  induction n as [|n IH]; intros i s e He Hin; cbn in Hin.
  { rewrite Hret in Hin. now apply elem_of_nil in Hin. }
  assert (Hhere : e ∈ part (trial_ i s) ->
                  exists j s', (i <= j < i + S n)%nat /\ errs s' = [] /\
                               e ∈ part (trial_ j s')).
  { intros H. exists i, s. split; [lia|]. now split. }
  destruct (res (trial_ i s)) as [[]| |] eqn:Ht.
  - rewrite (Hval _ _ _ tt Ht) in Hin.
    assert (Hs : errs (gst (trial_ i s)) = []).
    { destruct (trial_cases i s) as [(run & startup & E)|[[err E]|[msg E]]].
      - now rewrite (trial_Val _ _ _ _ E).
      - rewrite (trial_Return _ _ _ E) in Ht. discriminate.
      - rewrite (trial_Panic _ _ _ E) in Ht. discriminate. }
    apply elem_of_app in Hin as [H|H]; [now apply Hhere|].
    apply IH in H as (j & s' & Hr & Hr'); [|exact Hs].
    exists j, s'. split; [lia|exact Hr'].
  - rewrite Hstop in Hin by (intros a; rewrite Ht; discriminate). auto.
  - rewrite Hstop in Hin by (intros a; rewrite Ht; discriminate). auto.
Qed.

Lemma trials_calls n i s e :
  errs s = [] ->
  e ∈ calls (trials_ n i s) ->
  exists j s', (i <= j < i + n)%nat /\ errs s' = [] /\ e ∈ calls (trial_ j s').
Proof.
  apply (trials_part calls); auto.
  - intros m k s0 a E. now rewrite (bind_Val _ _ _ a E).
  - intros m k s0 E. destruct (res (m s0)) as [a| |] eqn:E'.
    + now destruct (E a).
    + now rewrite (bind_Return _ _ _ _ E').
    + now rewrite (bind_Panic _ _ _ _ E').
Qed.

Lemma trials_deferred n i s e :
  errs s = [] ->
  e ∈ deferred (trials_ n i s) ->
  exists j s', (i <= j < i + n)%nat /\ errs s' = [] /\ e ∈ deferred (trial_ j s').
Proof.
  apply (trials_part deferred); auto.
  - intros m k s0 a E. now rewrite (bind_Val _ _ _ a E).
  - intros m k s0 E. destruct (res (m s0)) as [a| |] eqn:E'.
    + now destruct (E a).
    + now rewrite (bind_Return _ _ _ _ E').
    + now rewrite (bind_Panic _ _ _ _ E').
Qed.

Lemma trials_event n i s e :
  errs s = [] ->
  e ∈ calls (trials_ n i s) ++ deferred (trials_ n i s) ->
  exists j s', (i <= j < i + n)%nat /\ errs s' = [] /\
               e ∈ calls (trial_ j s') ++ deferred (trial_ j s').
Proof.
  intros Hs He. apply elem_of_app in He as [He|He].
  - apply trials_calls in He as (j & s' & ? & ? & ?); [|exact Hs].
    exists j, s'. rewrite elem_of_app. auto.
  - apply trials_deferred in He as (j & s' & ? & ? & ?); [|exact Hs].
    exists j, s'. rewrite elem_of_app. auto.
Qed.

End Loop.

(** ** The whole call *)

Section Run.

Variable currentCmd : Command.
Variable W : World.

Local Abbreviation measure_ := (measure currentCmd W).
Local Abbreviation trial_ := (trial currentCmd W).
Local Abbreviation trials_ := (trials currentCmd W).
Local Abbreviation iterations_ := (iterations currentCmd).
Local Abbreviation Execute_ := (Execute currentCmd W).

(** [Execute] stops at the output file, or runs the loop from [entry] and
    leaves with what the loop left. *)
Lemma Execute_cases :
  (exists e,
     nonempty (OutputFile (Run currentCmd)) = true /\ open_OutputFile W = Some e /\
     Execute_ =
     {| ended := Returned (Some e); result := {| Runs := [] |};
        trace := [Outside (EnsureExistsAndOpen (OutputFile (Run currentCmd)) true)] |}) \/
  (exists pre post,
     let o := trials_ iterations_ 0 entry in
     Forall is_outside pre /\ Forall is_outside post /\
     Execute_ =
       {| ended := match res o with
                   | Val _ => Returned None
                   | Return err => Returned err
                   | Panic msg => Panicked msg
                   end;
          result := outRes (gst o);
          trace := pre ++ calls o ++ post ++ rev (deferred o) |}).
Proof.
  unfold Execute, Execute_body, open_output, encode, when.
  unfold mbind, M_bind, bind. fold entry.
  assert (Hfin : forall pre post o (l d : list event),
             Forall is_outside pre -> Forall is_outside post ->
             Forall is_outside pre /\ Forall is_outside post /\
             {| ended := o; result := outRes (gst (trials_ iterations_ 0 entry));
                trace := pre ++ (l ++ post) ++ rev (d ++ []) |} =
             {| ended := o; result := outRes (gst (trials_ iterations_ 0 entry));
                trace := pre ++ l ++ post ++ rev d |}).
  { intros. repeat split; auto. now rewrite app_nil_r, <- !app_assoc. }
  assert (Hstop : forall pre o (l d : list event),
             Forall is_outside pre ->
             Forall is_outside pre /\ Forall is_outside [] /\
             {| ended := o; result := outRes (gst (trials_ iterations_ 0 entry));
                trace := pre ++ l ++ rev d |} =
             {| ended := o; result := outRes (gst (trials_ iterations_ 0 entry));
                trace := pre ++ l ++ [] ++ rev d |}).
  { intros. repeat split; auto. }
  destruct (nonempty (OutputFile (Run currentCmd))); cbn.
  - destruct (open_OutputFile W) as [e|]; cbn; [left; eauto|].
    right. exists [Outside (EnsureExistsAndOpen (OutputFile (Run currentCmd)) true)].
    destruct (res (trials_ iterations_ 0 entry)) as [[]| |]; cbn.
    + destruct (JSONOutput (Run currentCmd)); cbn.
      * eexists [_]. apply (Hfin [_]); repeat constructor.
      * exists []. apply (Hfin [_]); repeat constructor.
    + exists []. apply (Hstop [_]); repeat constructor.
    + exists []. apply (Hstop [_]); repeat constructor.
  - right. exists [].
    destruct (res (trials_ iterations_ 0 entry)) as [[]| |]; cbn.
    + destruct (JSONOutput (Run currentCmd)); cbn.
      * eexists [_]. apply (Hfin []); repeat constructor.
      * exists []. apply (Hfin []); repeat constructor.
    + exists []. apply (Hstop []); repeat constructor.
    + exists []. apply (Hstop []); repeat constructor.
Qed.

(** The [j]-th record of the result is the value of the measurement of trial
    [j], started with no error logged. *)
Lemma Execute_Runs j r :
  Runs (result Execute_) !! j = Some r ->
  (j < iterations_)%nat /\
  exists s startup, errs s = [] /\ res (measure_ j s) = Val (r, startup).
Proof.
  destruct Execute_cases as [(e & _ & _ & ->)|(pre & post & _ & _ & ->)]; cbn.
  - intros H. now rewrite lookup_nil in H.
  - intros H. apply trials_Runs in H as [H|[Hr H]]; cbn in *; auto.
    + now rewrite lookup_nil in H.
    + split; [lia|exact H].
Qed.

Lemma trials_no_return_nil n : forall i s, res (trials_ n i s) <> Return None.
Proof.
  induction n as [|n IH]; intros i s; cbn; [discriminate|].
  destruct (trial_cases currentCmd W i s) as [(run & startup & E)|[[err E]|[msg E]]].
  - rewrite (bind_Val _ _ _ tt) by now rewrite (trial_Val _ _ _ _ _ _ E).
    cbn. apply IH.
  - rewrite (bind_Return _ _ _ err) by now rewrite (trial_Return _ _ _ _ _ E).
    cbn. intros [= ->]. now apply (measure_no_return_nil currentCmd W i s).
  - rewrite (bind_Panic _ _ _ msg) by now rewrite (trial_Panic _ _ _ _ _ E).
    discriminate.
Qed.

(** A call that returns nil has run the loop to its end. *)
Lemma Execute_count :
  ended Execute_ = Returned None -> length (Runs (result Execute_)) = iterations_.
Proof.
  destruct Execute_cases as [(e & _ & _ & ->)|(pre & post & _ & _ & ->)]; cbn.
  - discriminate.
  - destruct (res (trials_ iterations_ 0 entry)) as [[]|err|] eqn:E.
    + intros _. now rewrite trials_count.
    + intros [= ->]. now apply trials_no_return_nil in E.
    + discriminate.
Qed.

(** An action tagged [i] in the trace was made or deferred by trial [i]. *)
Lemma Execute_event i a :
  InTrial i a ∈ trace Execute_ ->
  (i < iterations_)%nat /\
  exists s, errs s = [] /\
            InTrial i a ∈ calls (trial_ i s) ++ deferred (trial_ i s).
Proof.
  destruct Execute_cases as [(e & _ & _ & ->)|(pre & post & Hpre & Hpost & ->)]; cbn.
  - intros H. apply list_elem_of_singleton in H. discriminate.
  - intros H.
    assert (Hin : InTrial i a ∈ calls (trials_ iterations_ 0 entry) ++
                               deferred (trials_ iterations_ 0 entry)).
    { rewrite !elem_of_app in H. rewrite elem_of_app.
      destruct H as [H|[H|[H|H]]]; auto.
      - rewrite Forall_forall in Hpre. exfalso. exact (Hpre _ H).
      - rewrite Forall_forall in Hpost. exfalso. exact (Hpost _ H).
      - right. apply list_elem_of_In, in_rev. now apply list_elem_of_In. }
    apply trials_event in Hin as (j & s & Hr & Hs & Hin); [|reflexivity].
    destruct (trial_events currentCmd W j s) as [Hc Hd].
    assert (j = i) as ->.
    { rewrite elem_of_app in Hin. rewrite Forall_forall in Hc, Hd.
      destruct Hin as [Hin|Hin]; [apply Hc in Hin|apply Hd in Hin];
        destruct Hin as (b & [= -> _] & _); reflexivity. }
    split; [lia|]. eauto.
Qed.

(** What holds of every action of the measurement of trial [i], and of its
    total line, holds of every action tagged [i] in the trace. *)
Lemma Execute_trace_sound (Q : event -> Prop) i :
  (forall s, errs s = [] ->
             Forall Q (calls (measure_ i s)) /\ Forall Q (deferred (measure_ i s))) ->
  (forall startup, Q (InTrial i (PrintStartup startup))) ->
  forall a, InTrial i a ∈ trace Execute_ -> Q (InTrial i a).
Proof.
  intros Hm Hp a Ha. apply Execute_event in Ha as (_ & s & Hs & Ha).
  destruct (Hm s Hs) as [Hc Hd]. rewrite Forall_forall in Hc, Hd.
  destruct (trial_cases currentCmd W i s) as [(run & startup & E)|[[err E]|[msg E]]].
  - rewrite (trial_Val _ _ _ _ _ _ E) in Ha. cbn in Ha.
    rewrite !elem_of_app in Ha. destruct Ha as [[Ha|Ha]|Ha]; auto.
    destruct (JSONOutput _).
    + now apply elem_of_nil in Ha.
    + apply list_elem_of_singleton in Ha as ->. apply Hp.
  - rewrite (trial_Return _ _ _ _ _ E) in Ha. cbn in Ha.
    rewrite elem_of_app in Ha. destruct Ha; auto.
  - rewrite (trial_Panic _ _ _ _ _ E) in Ha. cbn in Ha.
    rewrite elem_of_app in Ha. destruct Ha; auto.
Qed.

(** X21: the clean-ups registered with [defer] all run after the last action of
    the last trial: the trace is what the trials and the code around the loop
    did, followed by the deferred actions. *)
Lemma Execute_cleanups_last :
  exists body cleanups,
    trace Execute_ = body ++ cleanups /\
    Forall (fun e => is_outside e \/ exists i a, e = InTrial i a /\ made_by_trial a) body /\
    Forall (fun e => exists i a, e = InTrial i a /\ deferred_by_trial a) cleanups.
Proof.
  destruct Execute_cases as [(e & _ & _ & ->)|(pre & post & Hpre & Hpost & ->)]; cbn.
  - exists [Outside (EnsureExistsAndOpen (OutputFile (Run currentCmd)) true)], [].
    repeat split; repeat constructor.
  - exists (pre ++ calls (trials_ iterations_ 0 entry) ++ post),
           (rev (deferred (trials_ iterations_ 0 entry))).
    split; [now rewrite <- !app_assoc|]. split.
    + rewrite !Forall_app. repeat split.
      * eapply Forall_impl; [exact Hpre|]. cbn. auto.
      * apply Forall_forall. intros e He.
        apply trials_calls in He as (j & s & _ & _ & He); [|reflexivity].
        destruct (trial_events currentCmd W j s) as [Hc _].
        rewrite Forall_forall in Hc. right. exists j. now apply Hc.
      * eapply Forall_impl; [exact Hpost|]. cbn. auto.
    + apply Forall_forall. intros e He.
      apply list_elem_of_In, in_rev, list_elem_of_In in He.
      apply trials_deferred in He as (j & s & _ & _ & He); [|reflexivity].
      destruct (trial_events currentCmd W j s) as [_ Hd].
      rewrite Forall_forall in Hd. exists j. now apply Hd.
Qed.

End Run.

(** * The claims *)

(** ** The window selector *)

Lemma filepath_Base_nonempty path : filepath_Base path <> ""%string.
Proof.
  unfold filepath_Base. destruct (String.eqb path ""); [discriminate|].
  destruct (String.eqb (last_element (strip_trailing path)) "") eqn:E;
    [discriminate|]. now apply String.eqb_neq in E.
Qed.

Lemma nonempty_true s : nonempty s = true <-> s <> ""%string.
Proof. unfold nonempty. rewrite negb_true_iff. apply String.eqb_neq. Qed.

Lemma nonempty_false s : nonempty s = false <-> s = ""%string.
Proof. unfold nonempty. rewrite negb_false_iff. apply String.eqb_eq. Qed.

(** The selector a trial waits with is the one [windowspec] resolves. *)
Lemma WaitForWindow_windowspec currentCmd W i w :
  InTrial i (WaitForWindow w) ∈ trace (Execute currentCmd W) ->
  windowspec currentCmd = Val w.
Proof.
  intros H.
  pose (Q := fun e => forall w, e = InTrial i (WaitForWindow w) ->
                                windowspec currentCmd = Val w).
  assert (HQ : forall st a, st <> Launch -> made_in st a -> Q (InTrial i a)).
  { intros st a Hst Ha w' [= ->]. now destruct st. }
  apply (Execute_trace_sound currentCmd W Q i) with (a := WaitForWindow w) (w := w);
    [|discriminate|exact H|reflexivity].
  intros s _.
  assert (HD : forall a, deferred_by_trial a -> Q (InTrial i a)).
  { intros a Ha w' [= ->]. destruct Ha. }
  assert (Hs : sound Q Q (measure currentCmd W i));
    [|now destruct (Hs s) as (_ & _ & ? & ? & _)].
  unfold measure. sound_steps;
    try (first [apply sound_prepare_script | apply sound_setup_command
               | apply sound_setup_stdio | apply sound_discard_snap_ns
               | apply sound_free_caches | apply sound_close_and_kill
               | apply sound_fallback_close | apply sound_collect_trace
               | apply sound_restore_script | apply sound_build_run
               | apply windowspec_no_return ];
         first [ exact HD | intros ? ?; eapply HQ; [|eassumption]; discriminate ]).
  match goal with
  | Hw : exists _, res (lift (windowspec _) _) = Val ?a |- _ =>
      destruct Hw as [? Hw]; cbn in Hw
  end.
  unfold start_and_wait. sound_steps;
    try (intros ? [=]). now subst.
Qed.

(** C8: for every configuration with a non-empty command, the resolver of
    the window selector succeeds and sets exactly one of class and name: the
    class option when given, else the name option when given, else the base
    name of the first token of the original command [Args_Cmd], whatever
    [RunThroughSnap] makes of [targetCmd]; and that selector is the one every
    trial waits with. *)
Theorem windowspec_always_resolves currentCmd :
  Args_Cmd (Run currentCmd) <> [] ->
  exists ws,
    windowspec currentCmd = Val ws /\
    ((Class ws <> "" /\ Name ws = "") \/ (Class ws = "" /\ Name ws <> ""))%string /\
    (WindowClass (Run currentCmd) <> ""%string ->
     ws = {| Class := WindowClass (Run currentCmd); Name := "" |}) /\
    (WindowClass (Run currentCmd) = ""%string ->
     WindowName (Run currentCmd) <> ""%string ->
     ws = {| Class := ""; Name := WindowName (Run currentCmd) |}) /\
    (WindowClass (Run currentCmd) = ""%string ->
     WindowName (Run currentCmd) = ""%string ->
     ws = {| Class := filepath_Base (hd ""%string (Args_Cmd (Run currentCmd)));
             Name := "" |}) /\
    (forall W i w, InTrial i (WaitForWindow w) ∈ trace (Execute currentCmd W) -> w = ws).
Proof.
  intros Hcmd.
  assert (Hlink : forall ws, windowspec currentCmd = Val ws ->
            forall W i w, InTrial i (WaitForWindow w) ∈ trace (Execute currentCmd W) ->
                          w = ws).
  { intros ws Hws W i w Hw. apply WaitForWindow_windowspec in Hw. congruence. }
  unfold windowspec in *.
  destruct (nonempty (WindowClass (Run currentCmd))) eqn:Ec.
  - apply nonempty_true in Ec. eexists. split; [reflexivity|]. cbn.
    repeat split; auto; try congruence. now apply Hlink.
  - apply nonempty_false in Ec.
    destruct (nonempty (WindowName (Run currentCmd))) eqn:En.
    + apply nonempty_true in En. eexists. split; [reflexivity|]. cbn.
      repeat split; auto; try congruence. now apply Hlink.
    + apply nonempty_false in En.
      destruct (Args_Cmd (Run currentCmd)) as [|cmd0 rest]; [congruence|].
      eexists. split; [reflexivity|]. cbn.
      pose proof (filepath_Base_nonempty cmd0).
      repeat split; auto; try congruence. now apply Hlink.
Qed.

Lemma windowspec_always_resolves_witness :
  Args_Cmd (Run (sample 0)) <> [] /\
  exists ws,
    windowspec (sample 0) = Val ws /\
    ((Class ws <> "" /\ Name ws = "") \/ (Class ws = "" /\ Name ws <> ""))%string /\
    (WindowClass (Run (sample 0)) <> ""%string ->
     ws = {| Class := WindowClass (Run (sample 0)); Name := "" |}) /\
    (WindowClass (Run (sample 0)) = ""%string ->
     WindowName (Run (sample 0)) <> ""%string ->
     ws = {| Class := ""; Name := WindowName (Run (sample 0)) |}) /\
    (WindowClass (Run (sample 0)) = ""%string ->
     WindowName (Run (sample 0)) = ""%string ->
     ws = {| Class := filepath_Base (hd ""%string (Args_Cmd (Run (sample 0))));
             Name := "" |}) /\
    (forall W i w, InTrial i (WaitForWindow w) ∈ trace (Execute (sample 0) W) -> w = ws).
Proof.
  split; [discriminate|]. apply (windowspec_always_resolves (sample 0)). discriminate.
Defined.

(** ** What a completed trial has gone through *)

Section Trial.

Variable currentCmd : Command.
Variable W : World.
Variable i : nat.

Local Abbreviation x := (Run currentCmd).

(** The launch stage always falls through, with these values of [wids],
    [err], [tryXToolClose] and [startup]. *)
Lemma start_and_wait_res ws s :
  res (start_and_wait currentCmd W i ws s) =
    Val (if NoWindowWait x then [] else fst (xtool_WaitForWindow W i),
         if NoWindowWait x then cmd_Start W i else snd (xtool_WaitForWindow W i),
         if NoWindowWait x then true
         else match snd (xtool_WaitForWindow W i) with
              | Some _ => false
              | None => true
              end,
         time_Since W i).
Proof.
  unfold start_and_wait, mbind, M_bind, bind; cbn.
  destruct (NoWindowWait x); cbn; [reflexivity|].
  destruct (xtool_WaitForWindow W i) as [wids [e|]]; reflexivity.
Qed.

Lemma start_and_wait_errs ws s :
  errs (gst (start_and_wait currentCmd W i ws s)) =
    errs s ++
    (if NoWindowWait x then []
     else match snd (xtool_WaitForWindow W i) with
          | Some e => [ErrWrap "waiting for window appearance: " e]
          | None => []
          end).
Proof.
  unfold start_and_wait, mbind, M_bind, bind; cbn.
  destruct (NoWindowWait x); cbn; [now rewrite app_nil_r|].
  destruct (xtool_WaitForWindow W i) as [wids [e|]]; cbn; now rewrite ?app_nil_r.
Qed.

(** The value of [slg] after the collection stage. *)
Lemma collect_trace_res s :
  res (collect_trace currentCmd W i s) =
    Val (if NoTrace x then None else fst (strace_TraceExecveTimings W i)).
Proof.
  unfold collect_trace, mbind, M_bind, bind; cbn.
  destruct (NoTrace x); cbn; [reflexivity|].
  destruct (strace_TraceExecveTimings W i) as [slg [e|]]; cbn; [reflexivity|].
  destruct (JSONOutput x); reflexivity.
Qed.

(** The [Execution] that is built, when one is. *)
Lemma build_run_Val slg startup s run :
  res (build_run currentCmd slg startup s) = Val run ->
  ExecveTiming run = slg /\ TimeToDisplay run = startup /\ Errors run = errs s /\
  if NoTrace x then TimeToRun run = startup
  else exists t, slg = Some t /\ TimeToRun run = TotalTime t.
Proof.
  unfold build_run. destruct (NoTrace x); [|destruct slg as [t|]]; cbn.
  - intros [= <-]. now cbn.
  - intros [= <-]. cbn. eauto 6.
  - discriminate.
Qed.

Lemma errs_grow {A} (m : M A) Q D :
  sound Q D m -> forall s, exists l, errs (gst (m s)) = errs s ++ l.
Proof. intros H s. now destruct (H s) as (_ & ? & _). Qed.

Local Abbreviation any := (fun _ : event => True).

(** Invert the first statement of the sequence [H], name the state it
    leaves, and keep what it logged. *)
Local Ltac step H lem :=
  let v := fresh "v" in
  let Hv := fresh "Hv" in
  apply res_bind_Val in H as (v & Hv & H);
  match type of Hv with
  | res (?m ?s0) = _ =>
      let l := fresh "l" in
      let E := fresh "E" in
      let s' := fresh "s" in
      destruct (errs_grow m any any lem s0) as [l E];
      set (s' := gst (m s0)) in *; clearbody s'
  end.

(** A measurement that fell through went through the launch, the collection
    and the construction of the record, and no error logged on the way was
    lost. *)
Lemma measure_Val_inv s run startup :
  res (measure currentCmd W i s) = Val (run, startup) ->
  exists ws s1 s2 l1 l2,
    windowspec currentCmd = Val ws /\
    errs s1 = errs s ++ l1 /\
    errs s2 = errs (gst (start_and_wait currentCmd W i ws s1)) ++ l2 /\
    startup = time_Since W i /\
    res (build_run currentCmd
           (if NoTrace x then None else fst (strace_TraceExecveTimings W i))
           startup s2) = Val run.
Proof.
  intros H. unfold measure in H.
  step H (sound_prepare_script currentCmd W i any any (fun _ _ => I)).
  step H (sound_setup_command currentCmd W i any any
            (fun _ _ => I) (fun _ _ => I)).
  step H (sound_setup_stdio currentCmd W i any any
            (fun _ _ => I) (fun _ _ => I)).
  step H (sound_discard_snap_ns currentCmd W i any any (fun _ _ => I)).
  apply res_bind_Val in H as (ws & Hws & H). cbn in Hws, H.
  step H (sound_free_caches W i any any (fun _ _ => I)).
  apply res_bind_Val in H as ([[[wids err] b] d] & Hw & H).
  rewrite start_and_wait_res in Hw. injection Hw as <- <- <- <-.
  step H (sound_close_and_kill currentCmd W i any any
            (if NoWindowWait x then true
             else match snd (xtool_WaitForWindow W i) with
                  | Some _ => false
                  | None => true
                  end)
            (if NoWindowWait x then [] else fst (xtool_WaitForWindow W i))
            (fun _ _ => I)).
  step H (sound_fallback_close currentCmd W i any any v4 (fun _ _ => I)).
  step H (sound_collect_trace currentCmd W i any any (fun _ _ => I)).
  rewrite collect_trace_res in Hv6. injection Hv6 as <-.
  step H (sound_restore_script currentCmd W i any any (fun _ _ => I)).
  apply res_bind_Val in H as (r & Hr & H). cbn in H. injection H as <- <-.
  exists ws, s4, s8. eexists. eexists.
  split; [exact Hws|]. split; [|split; [|split; [reflexivity|exact Hr]]].
  - rewrite E3, E2, E1, E0, E. rewrite <- !app_assoc. reflexivity.
  - rewrite E7, E6, E5, E4. rewrite <- !app_assoc. reflexivity.
Qed.

End Trial.

(** ** The times of a record *)

(** The record of trial [j]: its display time is the startup measured in
    that trial, and its run time is taken as line 367 has it. *)
Lemma record_times currentCmd W j r :
  Runs (result (Execute currentCmd W)) !! j = Some r ->
  TimeToDisplay r = time_Since W j /\
  if NoTrace (Run currentCmd) then TimeToRun r = time_Since W j
  else exists t, fst (strace_TraceExecveTimings W j) = Some t /\
                 TimeToRun r = TotalTime t.
Proof.
  intros H. apply Execute_Runs in H as (_ & s & startup & _ & H).
  apply measure_Val_inv in H as (ws & s1 & s2 & l1 & l2 & _ & _ & _ & -> & H).
  apply build_run_Val in H as (_ & Hd & _ & Hr). split; [exact Hd|].
  destruct (NoTrace (Run currentCmd)); exact Hr.
Qed.

(** C4: every record of the result, the [j]-th being that of trial [j], has
    the measured startup as its display time; without tracing its run time is
    that display time, with tracing it is the [TotalTime] of the timing the
    trace parser left for that trial, whatever the display time. *)
Theorem run_time_source currentCmd W j r :
  Runs (result (Execute currentCmd W)) !! j = Some r ->
  TimeToDisplay r = time_Since W j /\
  (NoTrace (Run currentCmd) = true -> TimeToRun r = TimeToDisplay r) /\
  (NoTrace (Run currentCmd) = false ->
   exists t, fst (strace_TraceExecveTimings W j) = Some t /\
             TimeToRun r = TotalTime t).
Proof.
  intros H. apply record_times in H as [Hd Hr]. split; [exact Hd|].
  destruct (NoTrace (Run currentCmd)); split; intros [=]; [congruence|exact Hr].
Qed.

Lemma run_time_source_witness :
  Runs (result (Execute (sample 0) calm)) !! 0%nat =
    Some {| ExecveTiming := Some timing; TimeToDisplay := 900;
            TimeToRun := 1500; Errors := [] |} /\
  (TimeToDisplay {| ExecveTiming := Some timing; TimeToDisplay := 900;
                    TimeToRun := 1500; Errors := [] |} = time_Since calm 0 /\
   (NoTrace (Run (sample 0)) = true -> 1500 = 900) /\
   (NoTrace (Run (sample 0)) = false ->
    exists t, fst (strace_TraceExecveTimings calm 0) = Some t /\
              1500 = TotalTime t)).
Proof.
  split; [reflexivity|].
  apply (run_time_source (sample 0) calm 0%nat
           {| ExecveTiming := Some timing; TimeToDisplay := 900;
              TimeToRun := 1500; Errors := [] |}).
  reflexivity.
Defined.

(** ** A trace parser that fails *)

(** With tracing, a record is only ever built from a timing that is there:
    the parser's [slg] is dereferenced for its [TotalTime]. *)
Lemma traced_record_has_timing currentCmd W j r :
  NoTrace (Run currentCmd) = false ->
  Runs (result (Execute currentCmd W)) !! j = Some r ->
  exists t, fst (strace_TraceExecveTimings W j) = Some t /\
            ExecveTiming r = Some t.
Proof.
  intros Ht H. apply Execute_Runs in H as (_ & s & startup & _ & H).
  apply measure_Val_inv in H as (ws & s1 & s2 & l1 & l2 & _ & _ & _ & -> & H).
  apply build_run_Val in H as (He & _ & _ & Hr). rewrite Ht in *.
  destruct Hr as (t & Hr & _). exists t. split; congruence.
Qed.

(** So a traced trial whose parser leaves a nil [slg] leaves no record. *)
Lemma traced_nil_timing_no_record currentCmd W j :
  NoTrace (Run currentCmd) = false ->
  fst (strace_TraceExecveTimings W j) = None ->
  Runs (result (Execute currentCmd W)) !! j = None.
Proof.
  intros Ht Hn. destruct (Runs _ !! j) as [r|] eqn:E; [|reflexivity].
  apply traced_record_has_timing in E as (t & E & _); congruence.
Qed.

(** C1, at the input where it fails: tracing on, one trial, the parser fails.
    The failure is logged, the fifo closed and the reader awaited, and then
    line 371 dereferences the nil [slg]: the call panics, no record is
    appended, and only the deferred clean-ups still run. *)
Theorem parse_failure_panics :
  ended (Execute (sample 0) parse_fails) =
    Panicked "invalid memory address or nil pointer dereference" /\
  Runs (result (Execute (sample 0) parse_fails)) = [] /\
  trace (Execute (sample 0) parse_fails) =
    [InTrial 0 TempDir;
     InTrial 0 (Mkfifo "/tmp/exec-trace0/strace.fifo");
     InTrial 0 (OpenFile "/tmp/exec-trace0/strace.fifo");
     InTrial 0 (GoTraceExecveTimings "/tmp/exec-trace0/strace.fifo");
     InTrial 0 (TraceExecCommand "/tmp/exec-trace0/strace.fifo" ["sample-app"%string]);
     InTrial 0 FreeCaches; InTrial 0 Start;
     InTrial 0 (WaitForWindow {| Class := "sample-app"; Name := "" |});
     InTrial 0 (PidForWindowID "w1"); InTrial 0 (CloseWindowID "w1");
     InTrial 0 (SignalKill 4242);
     InTrial 0 FifoClose; InTrial 0 RecvDone;
     InTrial 0 FifoClose; InTrial 0 (RemoveAll "/tmp/exec-trace0")].
Proof. repeat split. Qed.

(** ** A window that does not appear *)

(** When the wait for the window fails in trial [i], that trial neither
    looks up a pid, nor closes a window, nor kills, nor calls wmctrl. *)
Lemma wait_failure_closes_nothing currentCmd W i e a :
  NoWindowWait (Run currentCmd) = false ->
  snd (xtool_WaitForWindow W i) = Some e ->
  InTrial i a ∈ trace (Execute currentCmd W) ->
  ~ closing a.
Proof.
  intros Hn He Ha.
  pose (Q := fun ev => forall b, ev = InTrial i b -> ~ closing b).
  assert (HQ : forall st b, st <> Cascade -> st <> Fallback -> made_in st b ->
                            Q (InTrial i b)).
  { intros st b H1 H2 Hb b' [= <-]. destruct st, b; cbn in *; tauto. }
  assert (HD : forall b, deferred_by_trial b -> Q (InTrial i b)).
  { intros b Hb b' [= <-]. destruct b; cbn in *; tauto. }
  apply (Execute_trace_sound currentCmd W Q i) with (a := a) (b := a);
    [|intros ? ? [= <-]; cbn; tauto|exact Ha|reflexivity].
  intros s _.
  assert (Hs : sound Q Q (measure currentCmd W i));
    [|now destruct (Hs s) as (_ & _ & ? & ? & _)].
  unfold measure. sound_steps;
    try (first [apply sound_prepare_script | apply sound_setup_command
               | apply sound_setup_stdio | apply sound_discard_snap_ns
               | apply sound_free_caches | apply sound_start_and_wait
               | apply sound_collect_trace
               | apply sound_restore_script | apply sound_build_run
               | apply windowspec_no_return ];
         first [ exact HD | intros ? ?; eapply HQ; [| |eassumption]; discriminate ]).
  - (* the cascade is skipped: [tryXToolClose] is false *)
    match goal with
    | Hw : exists _, res (start_and_wait _ _ _ _ _) = _ |- _ =>
        destruct Hw as [s' Hw]; rewrite start_and_wait_res, Hn, He in Hw;
        injection Hw as <- <- <- <-
    end.
    unfold close_and_kill. apply sound_pure.
  - (* and so is the fallback: [tryWmctrl] is still false *)
    match goal with
    | Hw : exists _, res (start_and_wait _ _ _ _ _) = _ |- _ =>
        destruct Hw as [s' Hw]; rewrite start_and_wait_res, Hn, He in Hw;
        injection Hw as <- <- <- <-
    end.
    match goal with
    | Hc : exists _, res (close_and_kill _ _ _ _ _ _) = _ |- _ =>
        destruct Hc as [s'' Hc]; cbn in Hc; injection Hc as <-
    end.
    unfold fallback_close, when. apply sound_pure.
Qed.

(** And the failure is among the errors of the record of that trial. *)
Lemma wait_failure_recorded currentCmd W i e r :
  NoWindowWait (Run currentCmd) = false ->
  snd (xtool_WaitForWindow W i) = Some e ->
  Runs (result (Execute currentCmd W)) !! i = Some r ->
  ErrWrap "waiting for window appearance: " e ∈ Errors r.
Proof.
  intros Hn He H. apply Execute_Runs in H as (_ & s & startup & _ & H).
  apply measure_Val_inv in H as (ws & s1 & s2 & l1 & l2 & _ & _ & E & _ & H).
  apply build_run_Val in H as (_ & _ & -> & _).
  rewrite E, start_and_wait_errs, Hn, He.
  rewrite !elem_of_app. left. right. apply list_elem_of_singleton. reflexivity.
Qed.

(** C2, as the code has it: when the wait for the window fails in a trial
    (timeout or lookup error), the error is recorded in the errors of that
    trial's record, and neither pid resolution, nor window closing, nor the
    kill, nor the close-by-name fallback of wmctrl is attempted in that
    trial. *)
Theorem window_wait_failure currentCmd W i e :
  NoWindowWait (Run currentCmd) = false ->
  snd (xtool_WaitForWindow W i) = Some e ->
  (forall r, Runs (result (Execute currentCmd W)) !! i = Some r ->
             ErrWrap "waiting for window appearance: " e ∈ Errors r) /\
  (forall a, InTrial i a ∈ trace (Execute currentCmd W) -> ~ closing a).
Proof.
  intros Hn He. split.
  - intros r. now apply wait_failure_recorded.
  - intros a. now apply wait_failure_closes_nothing with (e := e).
Qed.

Lemma window_wait_failure_witness :
  NoWindowWait (Run (sample 0)) = false /\
  snd (xtool_WaitForWindow no_window 0) = Some (ErrNew "timed out") /\
  (forall r, Runs (result (Execute (sample 0) no_window)) !! 0%nat = Some r ->
             ErrWrap "waiting for window appearance: " (ErrNew "timed out") ∈ Errors r) /\
  (forall a, InTrial 0 a ∈ trace (Execute (sample 0) no_window) -> ~ closing a).
Proof.
  split; [reflexivity|]. split; [reflexivity|].
  apply (window_wait_failure (sample 0) no_window 0%nat (ErrNew "timed out"));
    reflexivity.
Defined.

(** C2 as stated fails: [WaitForWindow] times out in the only trial of
    [etrace run sample-app], the error is recorded and a record is built, but
    wmctrl is never called: [tryWmctrl] is still false at line 328. *)
Lemma window_wait_failure_no_fallback :
  snd (xtool_WaitForWindow no_window 0) = Some (ErrNew "timed out") /\
  Runs (result (Execute (sample 0) no_window)) =
    [{| ExecveTiming := Some timing; TimeToDisplay := 900; TimeToRun := 1500;
        Errors := [ErrWrap "waiting for window appearance: " (ErrNew "timed out")] |}] /\
  ~ exists name, InTrial 0 (Wmctrl name) ∈ trace (Execute (sample 0) no_window).
Proof.
  split; [reflexivity|]. split; [reflexivity|].
  intros [name H]. vm_compute in H.
  repeat (apply elem_of_cons in H as [H|H]; [discriminate|]).
  now apply elem_of_nil in H.
Qed.

(** ** The number of records *)

Lemma iterations_in_range currentCmd :
  0 <= AdditionalIterations currentCmd < MaxUint ->
  iterations currentCmd = S (Z.to_nat (AdditionalIterations currentCmd)).
Proof.
  intros H. unfold iterations, uint_wrap, MaxUint, uint_bits in *.
  rewrite Z.mod_small by lia. rewrite Z2Nat.inj_add by lia. reflexivity.
Qed.

(** Short of the largest [uint], a call that returns nil leaves one record per
    trial, [1 + AdditionalIterations] of them, the [j]-th that of trial [j]. *)
Lemma Execute_records_in_range currentCmd W :
  0 <= AdditionalIterations currentCmd < MaxUint ->
  ended (Execute currentCmd W) = Returned None ->
  Z.of_nat (length (Runs (result (Execute currentCmd W)))) =
    1 + AdditionalIterations currentCmd /\
  forall j r, Runs (result (Execute currentCmd W)) !! j = Some r ->
              TimeToDisplay r = time_Since W j.
Proof.
  intros Hn He. split.
  - rewrite (Execute_count _ _ He), (iterations_in_range _ Hn). lia.
  - intros j r Hr. now apply record_times in Hr.
Qed.

(** C5, at the input where it fails: [etrace -n 18446744073709551615 run
    sample-app] with every collaborator succeeding.  [1 + AdditionalIterations]
    wraps to 0 in [uint], the loop body is never entered, and the call returns
    nil with no record at all, where the claim has [2^64] of them and the
    help text of the option says that one iteration is always run. *)
Theorem no_trial_at_MaxUint :
  AdditionalIterations (sample MaxUint) = 18446744073709551615 /\
  iterations (sample MaxUint) = 0%nat /\
  ended (Execute (sample MaxUint) calm) = Returned None /\
  Runs (result (Execute (sample MaxUint) calm)) = [] /\
  trace (Execute (sample MaxUint) calm) = [].
Proof. repeat split. Qed.

(** ** The clean-up of the trace directory *)

(** C3, at the input where it fails: [etrace -n 1 run sample-app], tracing on,
    every collaborator succeeding.  The first trial closes its fifo writer at
    line 339, but its [os.RemoveAll] was registered with [defer] inside the
    loop: when the second trial makes its first action, the directory of the
    first is still there, and it is removed only when [Execute] returns, after
    the directory of the second. *)
Theorem temp_dir_outlives_trial :
  exists first_trial second_trial,
    trace (Execute (sample 1) calm) =
      first_trial ++ InTrial 1 TempDir :: second_trial ++
      [InTrial 1 FifoClose; InTrial 1 (RemoveAll "/tmp/exec-trace1");
       InTrial 0 FifoClose; InTrial 0 (RemoveAll "/tmp/exec-trace0")] /\
    InTrial 0 TempDir ∈ first_trial /\
    InTrial 0 FifoClose ∈ first_trial /\
    Forall (fun e => exists a, e = InTrial 0 a /\ made_by_trial a) first_trial /\
    Forall (fun e => exists a, e = InTrial 1 a /\ made_by_trial a) second_trial /\
    ended (Execute (sample 1) calm) = Returned None.
Proof.
  eexists (take 15 (trace (Execute (sample 1) calm))),
          (take 14 (drop 16 (trace (Execute (sample 1) calm)))).
  vm_compute. split; [reflexivity|].
  split; [repeat constructor|]. split; [do 11 constructor; constructor 1|].
  split; [|split; [|reflexivity]];
    repeat (constructor; [eexists; split; [reflexivity|exact I]|]); constructor.
Qed.

(** C7, at the input where it fails: tracing on, [strace.TraceExecCommand]
    fails in the first trial.  [Execute] returns the error at line 190; the
    reader goroutine was started at line 183, nothing has been received from
    [doneCh], and the deferred calls close the fifo and remove the directory. *)
Theorem early_return_removes_unawaited :
  ended (Execute (sample 0) tracer_missing) =
    Returned (Some (ErrNew "cannot find strace")) /\
  trace (Execute (sample 0) tracer_missing) =
    [InTrial 0 TempDir;
     InTrial 0 (Mkfifo "/tmp/exec-trace0/strace.fifo");
     InTrial 0 (OpenFile "/tmp/exec-trace0/strace.fifo");
     InTrial 0 (GoTraceExecveTimings "/tmp/exec-trace0/strace.fifo");
     InTrial 0 (TraceExecCommand "/tmp/exec-trace0/strace.fifo" ["sample-app"%string]);
     InTrial 0 FifoClose;
     InTrial 0 (RemoveAll "/tmp/exec-trace0")] /\
  InTrial 0 RecvDone ∉ trace (Execute (sample 0) tracer_missing).
Proof.
  split; [reflexivity|]. split; [reflexivity|].
  intros H. vm_compute in H.
  repeat (apply elem_of_cons in H as [H|H]; [discriminate|]).
  now apply elem_of_nil in H.
Qed.

(** ** The snap namespace option *)

Section Discard.

Variable currentCmd : Command.
Variable W : World.

Local Abbreviation x := (Run currentCmd).

Lemma prepare_script_res i s : res (prepare_script currentCmd W i s) = Val tt.
Proof.
  unfold prepare_script, when, mbind, M_bind, bind.
  destruct (nonempty (PrepareScript x)); cbn; [|reflexivity].
  destruct (RunScript_prepare W i); reflexivity.
Qed.

Lemma setup_command_res i s :
  setup_succeeds currentCmd W i -> res (setup_command currentCmd W i s) = Val tt.
Proof.
  intros (Ht & Hu & _). unfold setup_command.
  destruct (NoTrace x); cbn [negb].
  - destruct (targetCmd currentCmd); [now destruct Hu|reflexivity].
  - destruct Ht as (H1 & H2 & H3 & H4); [reflexivity|].
    destruct (ioutil_TempDir W i) as [tmp err]. cbn in H1. subst err.
    rewrite H2, H3, H4. reflexivity.
Qed.

Lemma setup_stdio_res i s :
  setup_succeeds currentCmd W i -> res (setup_stdio currentCmd W i s) = Val tt.
Proof.
  intros (_ & _ & Ho & He).
  unfold setup_stdio, open_log, when, mbind, M_bind, bind.
  destruct (nonempty (ProgramStdoutLog x)) eqn:E1; cbn.
  - apply nonempty_true in E1. rewrite (Ho E1). cbn.
    destruct (nonempty (ProgramStderrLog x)) eqn:E2; cbn; [|reflexivity].
    apply nonempty_true in E2. rewrite (He E2). reflexivity.
  - destruct (nonempty (ProgramStderrLog x)) eqn:E2; cbn; [|reflexivity].
    apply nonempty_true in E2. rewrite (He E2). reflexivity.
Qed.

Section WithoutSnapRun.

Hypothesis Hd : DiscardSnapNs x = true.
Hypothesis Hs : RunThroughSnap x = false.

(** The check of line 229 returns the error, whatever the world. *)
Lemma discard_snap_ns_rejects i s :
  discard_snap_ns currentCmd W i s =
    {| res := Return (Some ErrDiscardWithoutSnap); gst := s;
       calls := []; deferred := [] |}.
Proof. unfold discard_snap_ns. now rewrite Hd, Hs. Qed.

(** A trial that reaches the check returns the error. *)
Lemma measure_rejects i s :
  setup_succeeds currentCmd W i ->
  res (measure currentCmd W i s) = Return (Some ErrDiscardWithoutSnap).
Proof.
  intros Hok. unfold measure.
  rewrite (bind_Val _ _ _ tt (prepare_script_res i s)). cbn.
  rewrite (bind_Val _ _ _ tt (setup_command_res i _ Hok)). cbn.
  rewrite (bind_Val _ _ _ tt (setup_stdio_res i _ Hok)). cbn.
  rewrite (bind_Return _ _ _ (Some ErrDiscardWithoutSnap))
    by now rewrite discard_snap_ns_rejects.
  reflexivity.
Qed.

(** No trial starts the command. *)
Lemma no_Start_without_snap_run i :
  InTrial i Start ∉ trace (Execute currentCmd W).
Proof.
  intros H.
  pose (Q := fun ev => ev <> InTrial i Start).
  assert (HQ : forall st a, st <> Launch -> made_in st a -> Q (InTrial i a)).
  { intros st a Hst Ha [= ->]. now destruct st. }
  assert (HD : forall a, deferred_by_trial a -> Q (InTrial i a)).
  { intros a Ha [= ->]. destruct Ha. }
  apply (Execute_trace_sound currentCmd W Q i) with (a := Start);
    [|discriminate|exact H|reflexivity].
  intros s _.
  assert (Hsound : sound Q Q (measure currentCmd W i));
    [|now destruct (Hsound s) as (_ & _ & ? & ? & _)].
  unfold measure.
  apply sound_bind; [|intros ? _; apply sound_bind; [|intros ? _;
    apply sound_bind; [|intros ? _; apply sound_bind]]].
  - apply sound_prepare_script. intros ? ?. eapply HQ; [|eassumption]. discriminate.
  - apply sound_setup_command; [|exact HD].
    intros ? ?. eapply HQ; [|eassumption]. discriminate.
  - apply sound_setup_stdio; [|exact HD].
    intros ? ?. eapply HQ; [|eassumption]. discriminate.
  - apply sound_discard_snap_ns. intros ? ?. eapply HQ; [|eassumption]. discriminate.
  - intros ? [s' Hv]. rewrite discard_snap_ns_rejects in Hv. discriminate.
Qed.

(** A run whose first trial reaches the check ends with the error. *)
Lemma Execute_rejects :
  0 <= AdditionalIterations currentCmd < MaxUint ->
  (OutputFile x <> ""%string -> open_OutputFile W = None) ->
  setup_succeeds currentCmd W 0 ->
  ended (Execute currentCmd W) = Returned (Some ErrDiscardWithoutSnap).
Proof.
  intros Hn Hout Hok.
  destruct (Execute_cases currentCmd W)
    as [(e & Ho & Hopen & _)|(pre & post & _ & _ & ->)]; cbn.
  - apply nonempty_true in Ho. rewrite (Hout Ho) in Hopen. discriminate.
  - rewrite (iterations_in_range _ Hn). cbn.
    pose proof (measure_rejects 0 entry Hok) as Hm.
    rewrite (bind_Return _ _ _ (Some ErrDiscardWithoutSnap))
      by now rewrite (trial_Return _ _ _ _ _ Hm).
    reflexivity.
Qed.

End WithoutSnapRun.

(** With [--use-snap-run], the namespace that is discarded is that of the
    first token of the command as it was given. *)
Lemma DiscardNs_first_token i name :
  InTrial i (DiscardNs name) ∈ trace (Execute currentCmd W) ->
  exists rest, Args_Cmd x = name :: rest.
Proof.
  intros H.
  pose (Q := fun ev => forall n, ev = InTrial i (DiscardNs n) ->
                                 exists rest, Args_Cmd x = n :: rest).
  assert (HQ : forall st a, st <> Discard -> made_in st a -> Q (InTrial i a)).
  { intros st a Hst Ha n [= ->]. now destruct st. }
  assert (HD : forall a, deferred_by_trial a -> Q (InTrial i a)).
  { intros a Ha n [= ->]. destruct Ha. }
  apply (Execute_trace_sound currentCmd W Q i) with (a := DiscardNs name) (n := name);
    [|discriminate|exact H|reflexivity].
  intros s _.
  assert (Hsound : sound Q Q (measure currentCmd W i));
    [|now destruct (Hsound s) as (_ & _ & ? & ? & _)].
  unfold measure. sound_steps;
    try (first [apply sound_prepare_script | apply sound_setup_command
               | apply sound_setup_stdio | apply sound_free_caches
               | apply sound_start_and_wait | apply sound_close_and_kill
               | apply sound_fallback_close | apply sound_collect_trace
               | apply sound_restore_script | apply sound_build_run
               | apply windowspec_no_return ];
         first [ exact HD | intros ? ?; eapply HQ; [|eassumption]; discriminate ]).
  unfold discard_snap_ns. sound_steps. intros n [= <-]. eauto.
Qed.

End Discard.

(** C6 as stated fails: with the option set and the flag unset, a run whose
    temporary directory cannot be created ends at line 167 with the error of
    [ioutil.TempDir], not with the configuration error. *)
Lemma discard_check_comes_late :
  DiscardSnapNs (Run discard_without_snap) = true /\
  RunThroughSnap (Run discard_without_snap) = false /\
  ended (Execute discard_without_snap no_tmp) =
    Returned (Some (ErrNew "no space left on device")) /\
  ended (Execute discard_without_snap no_tmp) <>
    Returned (Some ErrDiscardWithoutSnap) /\
  trace (Execute discard_without_snap no_tmp) = [InTrial 0 TempDir].
Proof. repeat split. discriminate. Qed.

(** ** A command that does not start *)

Lemma bind_ext {A B} (m m' : M A) (k k' : A -> M B) :
  (forall s, m s = m' s) -> (forall a s, k a s = k' a s) ->
  forall s, (m ≫= k) s = (m' ≫= k') s.
Proof.
  intros Hm Hk s. unfold mbind, M_bind, bind. rewrite Hm.
  destruct (res (m' s)); [now rewrite Hk|reflexivity|reflexivity].
Qed.

Section StartIgnored.

Variable currentCmd : Command.
Variable W : World.
Variable f : nat -> option error.

Local Abbreviation x := (Run currentCmd).
Local Abbreviation W' := (with_cmd_Start f W).

(** The launch stage does the same in both worlds, up to the value it leaves
    in the variable [err]. *)
Lemma start_and_wait_effects i ws s :
  gst (start_and_wait currentCmd W' i ws s) = gst (start_and_wait currentCmd W i ws s) /\
  calls (start_and_wait currentCmd W' i ws s) = calls (start_and_wait currentCmd W i ws s) /\
  deferred (start_and_wait currentCmd W' i ws s) =
    deferred (start_and_wait currentCmd W i ws s).
Proof.
  unfold start_and_wait, mbind, M_bind, bind; cbn.
  destruct (NoWindowWait x); cbn; [auto|].
  destruct (xtool_WaitForWindow W i) as [wids [e|]]; cbn; auto.
Qed.

Lemma measure_with_cmd_Start i s :
  measure currentCmd W' i s = measure currentCmd W i s.
Proof.
  unfold measure.
  do 6 (apply bind_ext; [intros; reflexivity|intros ? ?]).
  match goal with
  | |- (start_and_wait _ _ _ ?ws ≫= _) ?s' = _ =>
      destruct (start_and_wait_effects i ws s') as (Hg & Hc & Hd);
      rewrite (bind_Val _ _ _ _ (start_and_wait_res currentCmd W' i ws s'));
      rewrite (bind_Val _ _ _ _ (start_and_wait_res currentCmd W i ws s'))
  end.
  rewrite Hg, Hc, Hd. reflexivity.
Qed.

Lemma trials_with_cmd_Start n : forall i s,
  trials currentCmd W' n i s = trials currentCmd W n i s.
Proof.
  induction n as [|n IH]; intros i s; cbn; [reflexivity|].
  apply bind_ext; [|intros; apply IH].
  intros s'. unfold trial. apply bind_ext; [apply measure_with_cmd_Start|].
  intros; reflexivity.
Qed.

(** [Execute] does not depend on what [cmd.Start()] returns. *)
Lemma Execute_with_cmd_Start : Execute currentCmd W' = Execute currentCmd W.
Proof.
  unfold Execute.
  assert (H : forall s, Execute_body currentCmd W' s = Execute_body currentCmd W s).
  { unfold Execute_body. apply bind_ext; [intros; reflexivity|intros ? ?].
    apply bind_ext; [apply trials_with_cmd_Start|intros; reflexivity]. }
  now rewrite H.
Qed.

End StartIgnored.



(** ** A pid that cannot be resolved *)

Lemma pid_lookups_app l1 l2 : pid_lookups (l1 ++ l2) = pid_lookups l1 ++ pid_lookups l2.
Proof. apply omap_app. Qed.

Lemma kills_app l1 l2 : kills (l1 ++ l2) = kills l1 ++ kills l2.
Proof. apply omap_app. Qed.

Lemma pid_lookups_cons e l : pid_lookups (e :: l) = pid_lookups [e] ++ pid_lookups l.
Proof. apply (pid_lookups_app [e] l). Qed.

Lemma kills_cons e l : kills (e :: l) = kills [e] ++ kills l.
Proof. apply (kills_app [e] l). Qed.

Section Cascade.

Variable currentCmd : Command.
Variable W : World.
Variable i : nat.

Lemma logError_quiet err s :
  pid_lookups (calls (logError currentCmd i err s)) = [] /\
  kills (calls (logError currentCmd i err s)) = [].
Proof. cbn. now destruct (ShowErrors currentCmd). Qed.

(** One round of the loop of lines 295-303. *)
Lemma resolve_pids_cons k wid rest pids s :
  resolve_pids currentCmd W i k (wid :: rest) pids s =
    match xtool_PidForWindowID W i k with
    | (pid, Some e) =>
        let o := logError currentCmd i
                   (ErrWrap ("getting pid for wid " ++ wid ++ ": ")%string e) s in
        {| res := Val (pids, true); gst := gst o;
           calls := InTrial i (PidForWindowID wid) :: calls o; deferred := [] |}
    | (pid, None) =>
        let o := resolve_pids currentCmd W i (S k) rest (<[k := pid]> pids) s in
        {| res := res o; gst := gst o;
           calls := InTrial i (PidForWindowID wid) :: calls o;
           deferred := deferred o |}
    end.
Proof.
  cbn. unfold mbind, M_bind, bind. cbn.
  destruct (xtool_PidForWindowID W i k) as [pid [e|]]; cbn.
  - now rewrite app_nil_r.
  - reflexivity.
Qed.

(** The loop of lines 295-303 when the lookup at index [k0 + m] is the first
    to fail: the slots before it are filled, the loop is left, the slots
    from it on keep the zero of [make]. *)
Lemma resolve_pids_fails rest : forall k0 pre m e s,
  (m < length rest)%nat ->
  (forall j, (j < m)%nat -> snd (xtool_PidForWindowID W i (k0 + j)) = None) ->
  snd (xtool_PidForWindowID W i (k0 + m)) = Some e ->
  length pre = k0 ->
  let o := resolve_pids currentCmd W i k0 rest (pre ++ replicate (length rest) 0) s in
  res o = Val (pre ++ map (fun j => fst (xtool_PidForWindowID W i j)) (seq k0 m) ++
               replicate (length rest - m) 0, true) /\
  pid_lookups (calls o) = take (S m) rest /\
  kills (calls o) = [].
Proof.
  induction rest as [|wid rest IH]; intros k0 pre m e s Hm Hok Hfail Hpre o;
    subst o; cbn in Hm; [lia|].
  rewrite resolve_pids_cons.
  destruct m as [|m].
  - rewrite Nat.add_0_r in Hfail.
    destruct (xtool_PidForWindowID W i k0) as [pid err]. cbn in Hfail. subst err.
    cbn -[replicate]. destruct (ShowErrors currentCmd); repeat split; reflexivity.
  - pose proof (Hok 0%nat ltac:(lia)) as H0. rewrite Nat.add_0_r in H0.
    destruct (xtool_PidForWindowID W i k0) as [pid err] eqn:Ek. cbn in H0. subst err.
    assert (Hins : <[k0 := pid]> (pre ++ replicate (length (wid :: rest)) 0) =
                   (pre ++ [pid]) ++ replicate (length rest) 0).
    { rewrite insert_app_r_alt by lia. rewrite Hpre, Nat.sub_diag. cbn.
      now rewrite <- app_assoc. }
    rewrite Hins.
    destruct (IH (S k0) (pre ++ [pid]) m e s) as (Hr & Hl & Hk).
    + lia.
    + intros j Hj. replace (S k0 + j)%nat with (k0 + S j)%nat by lia.
      apply Hok. lia.
    + now replace (S k0 + m)%nat with (k0 + S m)%nat by lia.
    + rewrite length_app. cbn. lia.
    + cbn -[replicate take]. rewrite Hr. unfold pid_lookups, kills in *.
      cbn -[replicate take]. rewrite Hl, Hk. rewrite Ek. cbn -[replicate].
      repeat split; try reflexivity. now rewrite <- app_assoc.
Qed.

(** One round of the loop of lines 306-312. *)
Lemma close_windows_cons k wid rest b s :
  close_windows currentCmd W i k (wid :: rest) b s =
    match xtool_CloseWindowID W i k with
    | Some e =>
        let o := logError currentCmd i (ErrWrap "closing window: " e) s in
        let o' := close_windows currentCmd W i (S k) rest true (gst o) in
        {| res := res o'; gst := gst o';
           calls := InTrial i (CloseWindowID wid) :: calls o ++ calls o';
           deferred := deferred o' |}
    | None =>
        let o' := close_windows currentCmd W i (S k) rest b s in
        {| res := res o'; gst := gst o';
           calls := InTrial i (CloseWindowID wid) :: calls o';
           deferred := deferred o' |}
    end.
Proof.
  cbn. unfold mbind, M_bind, bind. cbn.
  destruct (xtool_CloseWindowID W i k) as [e|]; reflexivity.
Qed.

(** The loop of lines 306-312 looks up no pid and signals nothing, and never
    clears [tryWmctrl]. *)
Lemma close_windows_quiet wids : forall k b s,
  let o := close_windows currentCmd W i k wids b s in
  (exists b', res o = Val b' /\ (b = true -> b' = true)) /\
  pid_lookups (calls o) = [] /\ kills (calls o) = [].
Proof.
  induction wids as [|wid rest IH]; intros k b s o; subst o.
  { cbn. repeat split; eauto. }
  rewrite close_windows_cons.
  destruct (xtool_CloseWindowID W i k) as [e|]; cbv zeta; cbn [res calls].
  - destruct (IH (S k) true
                (gst (logError currentCmd i (ErrWrap "closing window: " e) s)))
      as ((b' & Hr & Hb) & Hl & Hk).
    destruct (logError_quiet (ErrWrap "closing window: " e) s) as [Hl0 Hk0].
    rewrite pid_lookups_cons, kills_cons, pid_lookups_app, kills_app.
    rewrite Hl, Hk, Hl0, Hk0. repeat split; eauto.
  - destruct (IH (S k) b s) as ((b' & Hr & Hb) & Hl & Hk).
    rewrite pid_lookups_cons, kills_cons, Hl, Hk. repeat split; eauto.
Qed.

(** One round of the loop of lines 315-325. *)
Lemma kill_pids_cons k pid rest b s :
  kill_pids currentCmd W i k (pid :: rest) b s =
    match proc_Signal W i k with
    | Some e =>
        if negb (strings_Contains (Error e) "process already finished") then
          let o := logError currentCmd i
                     (ErrWrap ("killing window process pid " ++ itoa pid ++ ": ")%string e) s in
          let o' := kill_pids currentCmd W i (S k) rest true (gst o) in
          {| res := res o'; gst := gst o';
             calls := InTrial i (SignalKill pid) :: calls o ++ calls o';
             deferred := deferred o' |}
        else
          let o' := kill_pids currentCmd W i (S k) rest b s in
          {| res := res o'; gst := gst o';
             calls := InTrial i (SignalKill pid) :: calls o';
             deferred := deferred o' |}
    | None =>
        let o' := kill_pids currentCmd W i (S k) rest b s in
        {| res := res o'; gst := gst o';
           calls := InTrial i (SignalKill pid) :: calls o';
           deferred := deferred o' |}
    end.
Proof.
  cbn. unfold mbind, M_bind, bind. cbn.
  destruct (proc_Signal W i k) as [e|]; [|reflexivity].
  destruct (negb (strings_Contains (Error e) "process already finished"));
    reflexivity.
Qed.

(** The loop of lines 315-325 signals every pid of the slice, in order. *)
Lemma kill_pids_all pids : forall k b s,
  let o := kill_pids currentCmd W i k pids b s in
  (exists b', res o = Val b' /\ (b = true -> b' = true)) /\
  pid_lookups (calls o) = [] /\ kills (calls o) = pids.
Proof.
  induction pids as [|pid rest IH]; intros k b s o; subst o.
  { cbn. repeat split; eauto. }
  rewrite kill_pids_cons.
  destruct (proc_Signal W i k) as [e|];
    [destruct (negb (strings_Contains (Error e) "process already finished"))|].
  - set (err := ErrWrap _ e). cbv zeta; cbn [res calls].
    destruct (IH (S k) true (gst (logError currentCmd i err s)))
      as ((b' & Hr & Hb) & Hl & Hk).
    destruct (logError_quiet err s) as [Hl0 Hk0].
    rewrite pid_lookups_cons, kills_cons, pid_lookups_app, kills_app.
    rewrite Hl, Hk, Hl0, Hk0. repeat split; eauto.
  - cbv zeta; cbn [res calls].
    destruct (IH (S k) b s) as ((b' & Hr & Hb) & Hl & Hk).
    rewrite pid_lookups_cons, kills_cons, Hl, Hk. repeat split; eauto.
  - cbv zeta; cbn [res calls].
    destruct (IH (S k) b s) as ((b' & Hr & Hb) & Hl & Hk).
    rewrite pid_lookups_cons, kills_cons, Hl, Hk. repeat split; eauto.
Qed.

End Cascade.

(** What the cascade does when the lookup at index [k] is the first to
    fail. *)
Lemma close_and_kill_after_failed_lookup currentCmd W i wids k e s :
  (k < length wids)%nat ->
  (forall j, (j < k)%nat -> snd (xtool_PidForWindowID W i j) = None) ->
  snd (xtool_PidForWindowID W i k) = Some e ->
  let o := close_and_kill currentCmd W i true wids s in
  res o = Val true /\
  pid_lookups (calls o) = take (S k) wids /\
  kills (calls o) =
    map (fun j => fst (xtool_PidForWindowID W i j)) (seq 0 k) ++
    replicate (length wids - k) 0.
Proof.
  intros Hk Hok Hfail o. subst o. unfold close_and_kill.
  destruct (resolve_pids_fails currentCmd W i wids 0 [] k e s Hk Hok Hfail eq_refl)
    as (Hr & Hl & Hn).
  cbn [app] in Hr, Hl, Hn.
  rewrite (bind_Val _ _ _ _ Hr). cbn [res calls].
  set (s1 := gst (resolve_pids currentCmd W i 0 wids (replicate (length wids) 0) s)).
  set (pids := map _ (seq 0 k) ++ replicate (length wids - k) 0).
  destruct (close_windows_quiet currentCmd W i wids 0 true s1)
    as ((b & Hb & Htrue) & Hcl & Hck).
  rewrite (bind_Val _ _ _ _ Hb). cbn [res calls].
  rewrite (Htrue eq_refl) in *.
  destruct (kill_pids_all currentCmd W i pids 0 true
              (gst (close_windows currentCmd W i 0 wids true s1)))
    as ((b' & Hb' & Htrue') & Hkl & Hkk).
  rewrite (Htrue' eq_refl) in Hb'.
  rewrite !pid_lookups_app, !kills_app, Hl, Hn, Hcl, Hck, Hkl, Hkk.
  now rewrite !app_nil_r.
Qed.

(** ** The actions of one trial within the trace *)

Lemma of_trial_app i l1 l2 : of_trial i (l1 ++ l2) = of_trial i l1 ++ of_trial i l2.
Proof. apply omap_app. Qed.

Lemma of_trial_same i l :
  Forall (fun e => exists a, e = InTrial i a) l -> of_trial i l = l.
Proof.
  induction 1 as [|e l [a ->] _ IH]; [reflexivity|].
  unfold of_trial in *. cbn. rewrite Nat.eqb_refl. cbn. now rewrite IH.
Qed.

Lemma of_trial_other i l :
  Forall (fun e => match e with InTrial j _ => j <> i | Outside _ => True end) l ->
  of_trial i l = [].
Proof.
  induction 1 as [|e l He _ IH]; [reflexivity|].
  unfold of_trial in *. cbn. destruct e as [j a|a]; [|exact IH].
  apply Nat.eqb_neq in He. rewrite He. exact IH.
Qed.

Lemma of_trial_elem i a l : InTrial i a ∈ l -> InTrial i a ∈ of_trial i l.
Proof.
  intros H. unfold of_trial. apply list_elem_of_omap.
  exists (InTrial i a). split; [exact H|]. now rewrite Nat.eqb_refl.
Qed.

Lemma pid_lookups_elem i wid l :
  InTrial i (PidForWindowID wid) ∈ l -> wid ∈ pid_lookups l.
Proof.
  intros H. unfold pid_lookups. apply list_elem_of_omap.
  now exists (InTrial i (PidForWindowID wid)).
Qed.

Lemma quiet_Forall l : Forall (fun e => quiet [e]) l -> quiet l.
Proof.
  induction 1 as [|e l [Hl Hk] _ [IHl IHk]]; [now split|].
  split; [rewrite pid_lookups_cons, Hl, IHl|rewrite kills_cons, Hk, IHk]; reflexivity.
Qed.

Lemma quiet_of_trial i l : Forall (fun e => quiet [e]) l -> quiet (of_trial i l).
Proof.
  intros H. apply quiet_Forall. apply Forall_forall. intros e He.
  unfold of_trial in He. apply list_elem_of_omap in He as (e' & He' & Heq).
  rewrite Forall_forall in H.
  destruct e' as [j a|a]; [|discriminate].
  destruct (Nat.eqb j i); [|discriminate]. injection Heq as <-. now apply H.
Qed.

Lemma quiet_stage i st a : st <> Cascade -> made_in st a -> quiet [InTrial i a].
Proof. intros Hst Ha. destruct st, a; cbn in Ha; try tauto; now split. Qed.

Lemma quiet_deferred i a : deferred_by_trial a -> quiet [InTrial i a].
Proof. intros Ha. destruct a; cbn in Ha; try tauto; now split. Qed.

Section OneTrial.

Variable currentCmd : Command.
Variable W : World.
Variable i : nat.

Local Abbreviation measure_ := (measure currentCmd W).
Local Abbreviation trial_ := (trial currentCmd W).
Local Abbreviation trials_ := (trials currentCmd W).

(** The actions of the rounds from [i0] on carry the tags from [i0] on. *)
Lemma trials_calls_tags n i0 s :
  errs s = [] ->
  Forall (fun e => match e with
                   | InTrial j _ => (i0 <= j)%nat
                   | Outside _ => True
                   end) (calls (trials_ n i0 s)).
Proof.
  intros Hs. apply Forall_forall. intros e He.
  apply trials_calls in He as (j & s' & Hj & _ & He); [|exact Hs].
  destruct (trial_events currentCmd W j s') as [Hc _].
  rewrite Forall_forall in Hc. apply Hc in He as (a & -> & _). lia.
Qed.

(** Within the actions of the loop, those of trial [i] are the actions of one
    run of the body, started with no error logged, if there are any. *)
Lemma trials_of_trial n : forall i0 s,
  errs s = [] ->
  of_trial i (calls (trials_ n i0 s)) = [] \/
  exists s', errs s' = [] /\ of_trial i (calls (trials_ n i0 s)) = calls (trial_ i s').
Proof.
  induction n as [|n IH]; intros i0 s Hs; [now left|].
  cbn [trials].
  destruct (trial_events currentCmd W i0 s) as [Hc _].
  assert (Hhere : of_trial i (calls (trial_ i0 s)) =
                  if Nat.eqb i0 i then calls (trial_ i0 s) else []).
  { destruct (Nat.eqb i0 i) eqn:E.
    - apply Nat.eqb_eq in E. subst i0. apply of_trial_same.
      eapply Forall_impl; [exact Hc|]. cbn. intros e (a & -> & _). eauto.
    - apply Nat.eqb_neq in E. apply of_trial_other.
      eapply Forall_impl; [exact Hc|]. cbn. now intros e (a & -> & _). }
  destruct (res (trial_ i0 s)) as [[]| |] eqn:Ht.
  - rewrite (bind_Val _ _ _ tt Ht). cbn [calls]. rewrite of_trial_app, Hhere.
    assert (Hs' : errs (gst (trial_ i0 s)) = []).
    { destruct (trial_cases currentCmd W i0 s) as [(run & startup & E)|[[err E]|[msg E]]].
      - now rewrite (trial_Val _ _ _ _ _ _ E).
      - rewrite (trial_Return _ _ _ _ _ E) in Ht. discriminate.
      - rewrite (trial_Panic _ _ _ _ _ E) in Ht. discriminate. }
    destruct (Nat.eqb i0 i) eqn:E.
    + apply Nat.eqb_eq in E. subst i0. right. exists s. split; [exact Hs|].
      rewrite (of_trial_other i (calls (trials_ n (S i) _))); [now rewrite app_nil_r|].
      eapply Forall_impl; [apply trials_calls_tags, Hs'|].
      cbn. intros [j a|a]; [lia|auto].
    + cbn. apply IH, Hs'.
  - rewrite (bind_Return _ _ _ _ Ht). cbn [calls]. rewrite Hhere.
    destruct (Nat.eqb i0 i) eqn:E; [|now left].
    apply Nat.eqb_eq in E. subst i0. right. eauto.
  - rewrite (bind_Panic _ _ _ _ Ht). cbn [calls]. rewrite Hhere.
    destruct (Nat.eqb i0 i) eqn:E; [|now left].
    apply Nat.eqb_eq in E. subst i0. right. eauto.
Qed.

End OneTrial.

Lemma sound_quiet {A} (m : M A) D :
  sound (fun e => quiet [e]) D m -> forall s, quiet (calls (m s)).
Proof. intros H s. apply quiet_Forall. now destruct (H s) as (_ & _ & ? & _). Qed.

(** Past a quiet statement, the lookups and kills of a sequence are those of
    what follows, if anything follows. *)
Lemma quiet_bind_head {A B} (m : M A) (k : A -> M B) s
    (P : list string -> list Z -> Prop) :
  quiet (calls (m s)) ->
  P [] [] ->
  (forall a, res (m s) = Val a ->
             P (pid_lookups (calls (k a (gst (m s)))))
               (kills (calls (k a (gst (m s)))))) ->
  P (pid_lookups (calls ((m ≫= k) s))) (kills (calls ((m ≫= k) s))).
Proof.
  intros [Hl Hk] Hnil Hval. destruct (res (m s)) as [a| |] eqn:E.
  - rewrite (bind_Val _ _ _ a E). cbn [calls].
    rewrite pid_lookups_app, kills_app, Hl, Hk. now apply Hval.
  - rewrite (bind_Return _ _ _ _ E). cbn [calls]. now rewrite Hl, Hk.
  - rewrite (bind_Panic _ _ _ _ E). cbn [calls]. now rewrite Hl, Hk.
Qed.

(** Before quiet statements, they are those of the first statement. *)
Lemma quiet_bind_tail {A B} (m : M A) (k : A -> M B) s :
  (forall a s', quiet (calls (k a s'))) ->
  pid_lookups (calls ((m ≫= k) s)) = pid_lookups (calls (m s)) /\
  kills (calls ((m ≫= k) s)) = kills (calls (m s)).
Proof.
  intros Hq. destruct (res (m s)) as [a| |] eqn:E.
  - rewrite (bind_Val _ _ _ a E). cbn [calls].
    destruct (Hq a (gst (m s))) as [Hl Hk].
    now rewrite pid_lookups_app, kills_app, Hl, Hk, !app_nil_r.
  - now rewrite (bind_Return _ _ _ _ E).
  - now rewrite (bind_Panic _ _ _ _ E).
Qed.

Section MeasureCascade.

Variable currentCmd : Command.
Variable W : World.
Variable i : nat.

Local Abbreviation x := (Run currentCmd).
Local Abbreviation Qq := (fun e : event => quiet [e]).
Local Abbreviation any := (fun _ : event => True).

(** The lookups and kills of a trial are those of its cascade, entered with
    the [tryXToolClose] and the [wids] that the launch stage leaves, if the
    trial gets that far. *)
Lemma measure_cascade s :
  quiet (calls (measure currentCmd W i s)) \/
  exists s',
    let wids := if NoWindowWait x then [] else fst (xtool_WaitForWindow W i) in
    let tryXToolClose :=
      if NoWindowWait x then true
      else match snd (xtool_WaitForWindow W i) with
           | Some _ => false
           | None => true
           end in
    let o := close_and_kill currentCmd W i tryXToolClose wids s' in
    pid_lookups (calls (measure currentCmd W i s)) = pid_lookups (calls o) /\
    kills (calls (measure currentCmd W i s)) = kills (calls o).
Proof.
  pose (P := fun (L : list string) (K : list Z) =>
    (L = [] /\ K = []) \/
    exists s',
      let wids := if NoWindowWait x then [] else fst (xtool_WaitForWindow W i) in
      let tryXToolClose :=
        if NoWindowWait x then true
        else match snd (xtool_WaitForWindow W i) with
             | Some _ => false
             | None => true
             end in
      let o := close_and_kill currentCmd W i tryXToolClose wids s' in
      L = pid_lookups (calls o) /\ K = kills (calls o)).
  change (P (pid_lookups (calls (measure currentCmd W i s)))
            (kills (calls (measure currentCmd W i s)))).
  assert (Hnil : P [] []) by (left; now split).
  assert (Hst : forall st a, st <> Cascade -> made_in st a -> Qq (InTrial i a))
    by (intros; eapply quiet_stage; eassumption).
  unfold measure.
  apply quiet_bind_head; [|exact Hnil|intros _ _].
  { apply sound_quiet with (D := any), sound_prepare_script.
    intros a. now apply Hst. }
  apply quiet_bind_head; [|exact Hnil|intros _ _].
  { apply sound_quiet with (D := any), sound_setup_command; [|now intros].
    intros a. now apply Hst. }
  apply quiet_bind_head; [|exact Hnil|intros _ _].
  { apply sound_quiet with (D := any), sound_setup_stdio; [|now intros].
    intros a. now apply Hst. }
  apply quiet_bind_head; [|exact Hnil|intros _ _].
  { apply sound_quiet with (D := any), sound_discard_snap_ns.
    intros a. now apply Hst. }
  apply quiet_bind_head; [now split|exact Hnil|intros ws _].
  apply quiet_bind_head; [|exact Hnil|intros _ _].
  { apply sound_quiet with (D := any), sound_free_caches.
    intros a. now apply Hst. }
  apply quiet_bind_head; [|exact Hnil|intros v Hv].
  { apply sound_quiet with (D := any), sound_start_and_wait.
    intros a. now apply Hst. }
  rewrite start_and_wait_res in Hv. injection Hv as <-.
  match goal with
  | |- P (pid_lookups (calls ((?m ≫= ?k) ?s0))) _ =>
      destruct (quiet_bind_tail m k s0) as [Hl Hk]
  end.
  { intros tw s'. apply sound_quiet with (D := any). sound_steps;
      first [ apply sound_fallback_close | apply sound_collect_trace
            | apply sound_restore_script | apply sound_build_run ];
      try (intros ? ?; eapply Hst; [|eassumption]; discriminate). }
  rewrite Hl, Hk. right. eexists. split; reflexivity.
Qed.

End MeasureCascade.

(** The lookups and kills of trial [i] in the trace of a call are those of
    the cascade of that trial, if the trial gets that far. *)
Lemma Execute_cascade currentCmd W i :
  quiet (of_trial i (trace (Execute currentCmd W))) \/
  exists s',
    let wids := if NoWindowWait (Run currentCmd) then []
                else fst (xtool_WaitForWindow W i) in
    let tryXToolClose :=
      if NoWindowWait (Run currentCmd) then true
      else match snd (xtool_WaitForWindow W i) with
           | Some _ => false
           | None => true
           end in
    let o := close_and_kill currentCmd W i tryXToolClose wids s' in
    pid_lookups (of_trial i (trace (Execute currentCmd W))) = pid_lookups (calls o) /\
    kills (of_trial i (trace (Execute currentCmd W))) = kills (calls o).
Proof.
  destruct (Execute_cases currentCmd W)
    as [(e & _ & _ & ->)|(pre & post & Hpre & Hpost & ->)]; cbn [trace].
  { left. now split. }
  set (o := trials currentCmd W (iterations currentCmd) 0 entry).
  assert (Hout : forall l, Forall is_outside l -> of_trial i l = []).
  { intros l Hl. apply of_trial_other. eapply Forall_impl; [exact Hl|].
    now intros [j a|a]. }
  assert (Hdef : quiet (of_trial i (rev (deferred o)))).
  { apply quiet_of_trial. apply Forall_forall. intros e He.
    apply list_elem_of_In, in_rev, list_elem_of_In in He.
    apply trials_deferred in He as (j & s & _ & _ & He); [|reflexivity].
    destruct (trial_events currentCmd W j s) as [_ Hd].
    rewrite Forall_forall in Hd. apply Hd in He as (a & -> & Ha).
    now apply quiet_deferred. }
  destruct Hdef as [Hdl Hdk].
  assert (HL : pid_lookups (of_trial i (pre ++ calls o ++ post ++ rev (deferred o))) =
               pid_lookups (of_trial i (calls o))).
  { rewrite !of_trial_app, (Hout pre Hpre), (Hout post Hpost). cbn [app].
    now rewrite pid_lookups_app, Hdl, app_nil_r. }
  assert (HK : kills (of_trial i (pre ++ calls o ++ post ++ rev (deferred o))) =
               kills (of_trial i (calls o))).
  { rewrite !of_trial_app, (Hout pre Hpre), (Hout post Hpost). cbn [app].
    now rewrite kills_app, Hdk, app_nil_r. }
  unfold quiet. rewrite HL, HK. clear HL HK.
  destruct (trials_of_trial currentCmd W i (iterations currentCmd) 0 entry eq_refl)
    as [Hnone|(s & _ & Hsome)]; fold o in Hnone || fold o in Hsome.
  { left. rewrite Hnone. now split. }
  rewrite Hsome.
  assert (Hm : pid_lookups (calls (trial currentCmd W i s)) =
               pid_lookups (calls (measure currentCmd W i s)) /\
               kills (calls (trial currentCmd W i s)) =
               kills (calls (measure currentCmd W i s))).
  { destruct (trial_cases currentCmd W i s) as [(run & startup & E)|[[err E]|[msg E]]].
    - rewrite (trial_Val _ _ _ _ _ _ E). cbn [calls].
      rewrite pid_lookups_app, kills_app.
      destruct (JSONOutput (Run currentCmd)); cbn; now rewrite !app_nil_r.
    - now rewrite (trial_Return _ _ _ _ _ E).
    - now rewrite (trial_Panic _ _ _ _ _ E). }
  destruct Hm as [-> ->].
  destruct (measure_cascade currentCmd W i s) as [Hq|(s' & Hl & Hk)].
  - left. exact Hq.
  - right. exists s'. cbv zeta in *. now rewrite Hl, Hk.
Qed.

(** C10: in every trial that resolves pids and in which the lookup for the
    window at index [k], not the last one, is the first to fail, the lookups
    stop there: they are made for the windows up to index [k] only; and the
    kill stage signals every slot of [pids] all the same, the pids found
    before [k] and then the zero that [make] left in each slot from [k] on,
    one signal per window. *)
Theorem unresolved_pids_are_signalled currentCmd W i k e wid :
  (k < length (fst (xtool_WaitForWindow W i)) - 1)%nat ->
  (forall j, (j < k)%nat -> snd (xtool_PidForWindowID W i j) = None) ->
  snd (xtool_PidForWindowID W i k) = Some e ->
  InTrial i (PidForWindowID wid) ∈ trace (Execute currentCmd W) ->
  pid_lookups (of_trial i (trace (Execute currentCmd W))) =
    take (S k) (fst (xtool_WaitForWindow W i)) /\
  kills (of_trial i (trace (Execute currentCmd W))) =
    map (fun j => fst (xtool_PidForWindowID W i j)) (seq 0 k) ++
    replicate (length (fst (xtool_WaitForWindow W i)) - k) 0 /\
  length (kills (of_trial i (trace (Execute currentCmd W)))) =
    length (fst (xtool_WaitForWindow W i)).
Proof.
  intros Hk Hok Hfail Hrun.
  apply of_trial_elem, pid_lookups_elem in Hrun.
  destruct (Execute_cascade currentCmd W i) as [[Hq _]|(s & Hl & Hkills)].
  { rewrite Hq in Hrun. now apply elem_of_nil in Hrun. }
  cbv zeta in Hl, Hkills. rewrite Hl in Hrun.
  destruct (NoWindowWait (Run currentCmd)).
  { cbn in Hrun. now apply elem_of_nil in Hrun. }
  destruct (snd (xtool_WaitForWindow W i)) as [err|].
  { cbn in Hrun. now apply elem_of_nil in Hrun. }
  destruct (close_and_kill_after_failed_lookup currentCmd W i
              (fst (xtool_WaitForWindow W i)) k e s ltac:(lia) Hok Hfail)
    as (_ & Hl' & Hk').
  rewrite Hl, Hkills, Hl', Hk'. repeat split.
  rewrite length_app, length_map, length_seq, length_replicate. lia.
Qed.

Lemma unresolved_pids_are_signalled_witness :
  (1 < length (fst (xtool_WaitForWindow pid_lookup_fails 0)) - 1)%nat /\
  snd (xtool_PidForWindowID pid_lookup_fails 0 1) =
    Some (ErrNew "xdotool: no pid for window") /\
  pid_lookups (of_trial 0 (trace (Execute (sample 0) pid_lookup_fails))) =
    ["w1"; "w2"]%string /\
  kills (of_trial 0 (trace (Execute (sample 0) pid_lookup_fails))) = [4242; 0; 0] /\
  length (kills (of_trial 0 (trace (Execute (sample 0) pid_lookup_fails)))) = 3%nat.
Proof.
  split; [cbn; lia|]. split; [reflexivity|].
  apply (unresolved_pids_are_signalled (sample 0) pid_lookup_fails 0%nat 1%nat
           (ErrNew "xdotool: no pid for window") "w1").
  - cbn. lia.
  - intros j Hj. assert (j = 0%nat) as -> by lia. reflexivity.
  - reflexivity.
  - vm_compute. do 8 constructor. constructor 1.
Defined.

(** * Further properties of [Execute] *)

(** ** The trace of a call, in full *)

(** [Execute] stops at the output file, or its trace is: the opening of the
    output file if one is configured, the actions of the loop, the encoding
    of the result when the loop ran to its end in JSON mode, and the deferred
    actions, last registered first. *)
Lemma Execute_trace_cases currentCmd W :
  (exists e,
     nonempty (OutputFile (Run currentCmd)) = true /\ open_OutputFile W = Some e /\
     Execute currentCmd W =
     {| ended := Returned (Some e); result := {| Runs := [] |};
        trace := [Outside (EnsureExistsAndOpen (OutputFile (Run currentCmd)) true)] |}) \/
  (let o := trials currentCmd W (iterations currentCmd) 0 entry in
   (nonempty (OutputFile (Run currentCmd)) = true -> open_OutputFile W = None) /\
   Execute currentCmd W =
     {| ended := match res o with
                 | Val _ => Returned None
                 | Return err => Returned err
                 | Panic msg => Panicked msg
                 end;
        result := outRes (gst o);
        trace :=
          (if nonempty (OutputFile (Run currentCmd))
           then [Outside (EnsureExistsAndOpen (OutputFile (Run currentCmd)) true)]
           else []) ++
          calls o ++
          match res o with
          | Val _ => if JSONOutput (Run currentCmd)
                     then [Outside (Encode (outRes (gst o)))] else []
          | _ => []
          end ++
          rev (deferred o) |}).
Proof.
  unfold Execute, Execute_body, open_output, encode, when.
  unfold mbind, M_bind, bind. fold entry.
  destruct (nonempty (OutputFile (Run currentCmd))); cbn.
  - destruct (open_OutputFile W) as [e|]; cbn; [left; eauto|].
    right. split; [reflexivity|].
    destruct (res (trials currentCmd W (iterations currentCmd) 0 entry)) as [[]| |]; cbn.
    + destruct (JSONOutput (Run currentCmd)); cbn;
        now rewrite ?app_nil_r, <- ?app_assoc.
    + reflexivity.
    + reflexivity.
  - right. split; [discriminate|].
    destruct (res (trials currentCmd W (iterations currentCmd) 0 entry)) as [[]| |]; cbn.
    + destruct (JSONOutput (Run currentCmd)); cbn;
        now rewrite ?app_nil_r, <- ?app_assoc.
    + reflexivity.
    + reflexivity.
Qed.

(** ** The JSON output *)

Lemma encodings_app l1 l2 : encodings (l1 ++ l2) = encodings l1 ++ encodings l2.
Proof. apply omap_app. Qed.

Lemma encodings_in_trial l :
  (forall e, e ∈ l -> exists i a, e = InTrial i a) -> encodings l = [].
Proof.
  induction l as [|e l IH]; intros H; [reflexivity|].
  destruct (H e) as (i & a & ->); [left|].
  change (encodings (InTrial i a :: l)) with (encodings l).
  apply IH. intros e He. apply H. now right.
Qed.

Lemma trials_in_trial currentCmd W n i s e :
  errs s = [] ->
  e ∈ calls (trials currentCmd W n i s) ++ rev (deferred (trials currentCmd W n i s)) ->
  exists j a, e = InTrial j a.
Proof.
  intros Hs He.
  assert (He' : e ∈ calls (trials currentCmd W n i s) ++
                    deferred (trials currentCmd W n i s)).
  { rewrite elem_of_app in *. destruct He as [He|He]; [now left|right].
    now apply list_elem_of_In, in_rev, list_elem_of_In in He. }
  apply trials_event in He' as (j & s' & _ & _ & He'); [|exact Hs].
  destruct (trial_events currentCmd W j s') as [Hc Hd].
  rewrite Forall_forall in Hc, Hd. rewrite elem_of_app in He'.
  destruct He' as [He'|He']; [apply Hc in He'|apply Hd in He'];
    destruct He' as (a & -> & _); eauto.
Qed.

(** X1: the result is encoded exactly once, after the last trial, when the call
    returns nil in JSON mode; it is not encoded at all otherwise: not in
    tabular mode, and not when the call ends with an error or a panic,
    whatever trials were completed before. *)
Theorem result_encoded_once currentCmd W :
  encodings (trace (Execute currentCmd W)) =
    match ended (Execute currentCmd W) with
    | Returned None =>
        if JSONOutput (Run currentCmd) then [result (Execute currentCmd W)] else []
    | _ => []
    end.
Proof.
  destruct (Execute_trace_cases currentCmd W) as [(e & _ & _ & ->)|[_ ->]];
    [reflexivity|].
  cbn [trace ended result].
  set (o := trials currentCmd W (iterations currentCmd) 0 entry).
  assert (Hin : forall e, e ∈ calls o ++ rev (deferred o) -> exists j a, e = InTrial j a).
  { intros e. now apply trials_in_trial. }
  rewrite !encodings_app.
  rewrite (encodings_in_trial (calls o))
    by (intros e He; apply Hin, elem_of_app; now left).
  rewrite (encodings_in_trial (rev (deferred o)))
    by (intros e He; apply Hin, elem_of_app; now right).
  rewrite app_nil_r. cbn [app].
  assert (Hpre : encodings
            (if nonempty (OutputFile (Run currentCmd))
             then [Outside (EnsureExistsAndOpen (OutputFile (Run currentCmd)) true)]
             else []) = []) by now destruct (nonempty _).
  rewrite Hpre. cbn [app].
  destruct (res o) as [[]|[err|]|] eqn:E; try reflexivity.
  - now destruct (JSONOutput (Run currentCmd)).
  - now apply trials_no_return_nil in E.
Qed.

(** ** How a trial can end, and what it can log *)

Section Behaves.

Variables E R : error -> Prop.
Variable P : Prop.

Lemma behaves_pure {A} (a : A) : behaves E R P (mret a).
Proof. intros s. cbn. split; [|exact I]. exists []. now rewrite app_nil_r. Qed.

Lemma behaves_call {A} ev (r : A) : behaves E R P (call ev r).
Proof. intros s. cbn. split; [|exact I]. exists []. now rewrite app_nil_r. Qed.

Lemma behaves_defer ev : behaves E R P (defer ev).
Proof. intros s. cbn. split; [|exact I]. exists []. now rewrite app_nil_r. Qed.

Lemma behaves_return {A} e : R e -> behaves E R P (@return_ A (Some e)).
Proof. intros H s. cbn. split; [|exact H]. exists []. now rewrite app_nil_r. Qed.

Lemma behaves_panic {A} msg : P -> behaves E R P (@panic A msg).
Proof. intros H s. cbn. split; [|exact H]. exists []. now rewrite app_nil_r. Qed.

Lemma behaves_logError c i err : E err -> behaves E R P (logError c i err).
Proof. intros H s. cbn. split; [|exact I]. exists [err]. split; auto. Qed.

Lemma behaves_bind {A B} (m : M A) (k : A -> M B) :
  behaves E R P m ->
  (forall a, (exists s, res (m s) = Val a) -> behaves E R P (k a)) ->
  behaves E R P (m ≫= k).
Proof.
  intros Hm Hk s. destruct (Hm s) as ((l & Hl & HE) & Hr).
  destruct (res (m s)) as [a|err|msg] eqn:Em.
  - rewrite (bind_Val _ _ _ a Em). cbn [res gst].
    destruct (Hk a (ex_intro _ s Em) (gst (m s))) as ((l' & Hl' & HE') & Hr').
    split; [|exact Hr'].
    exists (l ++ l'). split; [|now apply Forall_app].
    rewrite Hl', Hl. now rewrite app_assoc.
  - rewrite (bind_Return _ _ _ _ Em). cbn [res gst]. split; [eauto|exact Hr].
  - rewrite (bind_Panic _ _ _ _ Em). cbn [res gst]. split; [eauto|exact Hr].
Qed.

Lemma behaves_when b (m : M unit) : behaves E R P m -> behaves E R P (when b m).
Proof. destruct b; cbn; auto using behaves_pure. Qed.

End Behaves.

Lemma behaves_weaken (E E' R R' : error -> Prop) (P P' : Prop) {A} (m : M A) :
  (forall e, E e -> E' e) -> (forall e, R e -> R' e) -> (P -> P') ->
  behaves E R P m -> behaves E' R' P' m.
Proof.
  intros HE HR HP H s. destruct (H s) as ((l & Hl & Hall) & Hr). split.
  - exists l. split; [exact Hl|]. eapply Forall_impl; eassumption.
  - destruct (res (m s)) as [a|[e|]|msg]; auto.
Qed.

(** One step through the syntax of a statement; the outcome of a call is put
    in the place of the variable it is bound to. *)
Ltac behaves_step :=
  lazymatch goal with
  | |- behaves _ _ _ (call _ _ ≫= _) =>
      apply behaves_bind;
      [apply behaves_call
      |let a := fresh "a" in
       let s := fresh "s" in
       let H := fresh "H" in
       intros a [s H]; cbn in H; injection H as <-]
  | |- behaves _ _ _ (_ ≫= _) => apply behaves_bind; [|intros ? ?]
  | |- behaves _ _ _ (mret _) => apply behaves_pure
  | |- behaves _ _ _ (call _ _) => apply behaves_call
  | |- behaves _ _ _ (defer _) => apply behaves_defer
  | |- behaves _ _ _ (when _ _) => apply behaves_when
  | |- behaves _ _ _ (return_ (Some _)) => apply behaves_return
  | |- behaves _ _ _ (panic _) => apply behaves_panic
  | |- behaves _ _ _ (logError _ _ _) => apply behaves_logError
  | |- behaves _ _ _ (match ?x with _ => _ end) => destruct x eqn:?
  end.

Ltac behaves_steps := repeat behaves_step.

Section TrialBehaves.

Variable currentCmd : Command.
Variable W : World.
Variable i : nat.

Local Abbreviation x := (Run currentCmd).
Local Abbreviation ok := (behaves (trial_error W i) (fatal_error W i)
                                  (panic_cause currentCmd W i)).

Lemma behaves_prepare_script : ok (prepare_script currentCmd W i).
Proof.
  unfold prepare_script. behaves_steps. left. eauto.
Qed.

Lemma targetCmd_nil : targetCmd currentCmd = [] -> Args_Cmd x = [].
Proof. unfold targetCmd. now destruct (RunThroughSnap x). Qed.

Lemma behaves_setup_command : ok (setup_command currentCmd W i).
Proof.
  unfold setup_command. behaves_steps.
  - right. left. now rewrite Heqp.
  - right. right. left. assumption.
  - do 3 right. left. assumption.
  - do 4 right. left. assumption.
  - left. now apply targetCmd_nil.
Qed.

Lemma behaves_setup_stdio : ok (setup_stdio currentCmd W i).
Proof.
  unfold setup_stdio, open_log. behaves_steps.
  - do 5 right. left. assumption.
  - do 6 right. left. assumption.
Qed.

Lemma behaves_discard_snap_ns : ok (discard_snap_ns currentCmd W i).
Proof.
  unfold discard_snap_ns. behaves_steps.
  - now left.
  - now left.
  - do 7 right. left. assumption.
Qed.

Lemma behaves_windowspec : ok (lift (windowspec currentCmd)).
Proof.
  intros s. cbn. split; [exists []; now rewrite app_nil_r|].
  unfold windowspec.
  destruct (nonempty (WindowClass x)); [exact I|].
  destruct (nonempty (WindowName x)); [exact I|].
  destruct (Args_Cmd x) eqn:E; [now left|exact I].
Qed.

Lemma behaves_free_caches : ok (free_caches W i).
Proof. unfold free_caches. behaves_steps. do 8 right. assumption. Qed.

Lemma behaves_start_and_wait ws : ok (start_and_wait currentCmd W i ws).
Proof.
  unfold start_and_wait. behaves_steps.
  right. left. exists e. split; [now rewrite Heqp|reflexivity].
Qed.

Lemma behaves_resolve_pids wids : forall k pids,
  ok (resolve_pids currentCmd W i k wids pids).
Proof.
  induction wids as [|wid rest IH]; intros k pids; cbn; behaves_steps; auto.
  do 2 right. left. exists k, wid, e. split; [now rewrite Heqp|reflexivity].
Qed.

Lemma behaves_close_windows wids : forall k b,
  ok (close_windows currentCmd W i k wids b).
Proof.
  induction wids as [|wid rest IH]; intros k b; cbn; behaves_steps; auto.
  do 3 right. left. eauto.
Qed.

Lemma behaves_kill_pids pids : forall k b,
  ok (kill_pids currentCmd W i k pids b).
Proof.
  induction pids as [|pid rest IH]; intros k b; cbn; behaves_steps; auto.
  do 4 right. left. exists k, pid, e. repeat split; auto.
  now apply negb_true_iff.
Qed.

Lemma behaves_close_and_kill b wids : ok (close_and_kill currentCmd W i b wids).
Proof.
  unfold close_and_kill. behaves_steps;
    auto using behaves_resolve_pids, behaves_close_windows, behaves_kill_pids.
Qed.

Lemma behaves_fallback_close b : ok (fallback_close currentCmd W i b).
Proof.
  unfold fallback_close, wmctrlCloseWindow. behaves_steps.
  do 5 right. left. exists e. split; [|reflexivity].
  match goal with
  | H : exists _, res _ = Val (Some e) |- _ => destruct H as [s H]
  end.
  revert H. unfold mbind, M_bind, bind. cbn.
  destruct (wmctrl_CombinedOutput W i) as [out [c|]]; cbn; congruence.
Qed.

Lemma behaves_collect_trace : ok (collect_trace currentCmd W i).
Proof.
  unfold collect_trace. behaves_steps.
  do 6 right. left. exists e. split; [now rewrite Heqp|reflexivity].
Qed.

Lemma behaves_restore_script : ok (restore_script currentCmd W i).
Proof.
  unfold restore_script. behaves_steps. do 7 right. eauto.
Qed.

End TrialBehaves.

Section TrialEnds.

Variable currentCmd : Command.
Variable W : World.

Local Abbreviation x := (Run currentCmd).
Local Abbreviation ok i := (behaves (trial_error W i) (fatal_error W i)
                                    (panic_cause currentCmd W i)).

Lemma behaves_build_run i slg startup :
  (NoTrace x = false -> slg = fst (strace_TraceExecveTimings W i)) ->
  ok i (build_run currentCmd slg startup).
Proof.
  intros Hslg s. unfold build_run.
  destruct (NoTrace x) eqn:Et; [|destruct slg as [t|]]; cbn.
  - split; [exists []; now rewrite app_nil_r|exact I].
  - split; [exists []; now rewrite app_nil_r|exact I].
  - split; [exists []; now rewrite app_nil_r|].
    right. split; [exact Et|]. symmetry. now apply Hslg.
Qed.

Lemma behaves_measure i : ok i (measure currentCmd W i).
Proof.
  unfold measure. behaves_steps;
    auto using behaves_prepare_script, behaves_setup_command, behaves_setup_stdio,
      behaves_discard_snap_ns, behaves_windowspec, behaves_free_caches,
      behaves_start_and_wait, behaves_close_and_kill, behaves_fallback_close,
      behaves_collect_trace, behaves_restore_script.
  apply behaves_build_run. intros Ht.
  match goal with
  | H : exists _, res (collect_trace _ _ _ _) = Val _ |- _ =>
      destruct H as [s H]; rewrite collect_trace_res, Ht in H; now injection H
  end.
Qed.

Lemma build_run_gst slg startup s : gst (build_run currentCmd slg startup s) = s.
Proof. unfold build_run. destruct (NoTrace x); [|destruct slg]; reflexivity. Qed.

(** The errors of the record are the errors logged by the time it is
    built. *)
Lemma measure_Errors i s r startup :
  res (measure currentCmd W i s) = Val (r, startup) ->
  Errors r = errs (gst (measure currentCmd W i s)).
Proof.
  unfold measure. intros H.
  repeat match type of H with
         | res ((build_run _ _ _ ≫= _) _) = _ => fail 1
         | res ((?m ≫= ?k) ?s0) = Val _ =>
             let a := fresh "a" in
             let Ha := fresh "Ha" in
             let s1 := fresh "s" in
             apply res_bind_Val in H as (a & Ha & H);
             rewrite (bind_Val m k s0 a Ha); cbn [gst];
             set (s1 := gst (m s0)) in *; clearbody s1; clear Ha;
             lazymatch type of a with
             | (_ * _)%type => destruct a as [[[? ?] ?] ?]
             | _ => idtac
             end;
             cbv beta iota in H |- *
         end.
  apply res_bind_Val in H as (run & Hb & H).
  rewrite (bind_Val _ _ _ run Hb). cbn in H |- *. injection H as <- _.
  rewrite build_run_gst.
  now apply build_run_Val in Hb as (_ & _ & -> & _).
Qed.

End TrialEnds.

Section CallEnds.

Variable currentCmd : Command.
Variable W : World.

(** How the loop can end. *)
Lemma trials_ends n : forall i0 s,
  match res (trials currentCmd W n i0 s) with
  | Val _ => True
  | Return None => False
  | Return (Some e) => exists j, (i0 <= j < i0 + n)%nat /\ fatal_error W j e
  | Panic _ => exists j, (i0 <= j < i0 + n)%nat /\ panic_cause currentCmd W j
  end.
Proof.
  induction n as [|n IH]; intros i0 s; [exact I|]. cbn [trials].
  destruct (behaves_measure currentCmd W i0 s) as [_ Hend].
  destruct (trial_cases currentCmd W i0 s) as [(run & startup & E)|[[err E]|[msg E]]].
  - rewrite (bind_Val _ _ _ tt) by now rewrite (trial_Val _ _ _ _ _ _ E).
    cbn [res]. specialize (IH (S i0) (gst (trial currentCmd W i0 s))).
    destruct (res (trials currentCmd W n (S i0) _)) as [?|[e|]|msg]; auto;
      destruct IH as (j & Hj & H); exists j; (split; [lia|exact H]).
  - rewrite (bind_Return _ _ _ err) by now rewrite (trial_Return _ _ _ _ _ E).
    cbn [res]. rewrite E in Hend. destruct err as [e|]; [|exact Hend].
    exists i0. split; [lia|exact Hend].
  - rewrite (bind_Panic _ _ _ msg) by now rewrite (trial_Panic _ _ _ _ _ E).
    cbn [res]. rewrite E in Hend. exists i0. split; [lia|exact Hend].
Qed.

End CallEnds.

(** X2: every error of the record of trial [j] is the failure of a step of that
    same trial, wrapped at the place where it was logged: nothing logged in
    another trial is carried over, and no error of the set-up is among
    them. *)
Theorem recorded_errors_are_the_trials_own currentCmd W j r :
  Runs (result (Execute currentCmd W)) !! j = Some r ->
  Forall (trial_error W j) (Errors r).
Proof.
  intros H. apply Execute_Runs in H as (_ & s & startup & Hs & H).
  rewrite (measure_Errors _ _ _ _ _ _ H).
  destruct (behaves_measure currentCmd W j s) as [(l & Hl & HE) _].
  now rewrite Hl, Hs.
Qed.

Lemma recorded_errors_are_the_trials_own_witness :
  Runs (result (Execute (sample 0) no_window)) !! 0%nat =
    Some {| ExecveTiming := Some timing; TimeToDisplay := 900; TimeToRun := 1500;
            Errors := [ErrWrap "waiting for window appearance: "
                               (ErrNew "timed out")] |} /\
  Forall (trial_error no_window 0)
    [ErrWrap "waiting for window appearance: " (ErrNew "timed out")].
Proof.
  split; [reflexivity|].
  apply (recorded_errors_are_the_trials_own (sample 0) no_window 0%nat
           {| ExecveTiming := Some timing; TimeToDisplay := 900; TimeToRun := 1500;
              Errors := [ErrWrap "waiting for window appearance: "
                                 (ErrNew "timed out")] |}).
  reflexivity.
Defined.

(** X3: an error that [Execute] returns is the error of the output file, or, for
    one of its trials, the configuration error or the error of a set-up step
    of that trial (trace directory, fifo, tracer command, log files,
    namespace discard, cache flush), returned as it came: the failures that
    are logged are never returned. *)
Theorem returned_error_is_a_setup_error currentCmd W e :
  ended (Execute currentCmd W) = Returned (Some e) ->
  open_OutputFile W = Some e \/
  exists i, (i < iterations currentCmd)%nat /\ fatal_error W i e.
Proof.
  destruct (Execute_trace_cases currentCmd W) as [(e' & _ & Ho & ->)|[_ ->]];
    cbn [ended].
  - intros [= <-]. now left.
  - pose proof (trials_ends currentCmd W (iterations currentCmd) 0 entry) as H.
    destruct (res (trials currentCmd W (iterations currentCmd) 0 entry))
      as [?|[e'|]|msg]; try discriminate; try (now destruct H).
    intros [= <-]. right. destruct H as (j & Hj & H). exists j. split; [lia|exact H].
Qed.

Lemma returned_error_is_a_setup_error_witness :
  ended (Execute (sample 0) tracer_missing) =
    Returned (Some (ErrNew "cannot find strace")) /\
  (open_OutputFile tracer_missing = Some (ErrNew "cannot find strace") \/
   exists i, (i < iterations (sample 0))%nat /\
             fatal_error tracer_missing i (ErrNew "cannot find strace")).
Proof.
  split; [reflexivity|].
  apply (returned_error_is_a_setup_error (sample 0) tracer_missing). reflexivity.
Defined.

(** X4: [Execute] panics only in a trial that has no command token to index, or,
    when tracing, whose trace parser left no timing to read the total from.
    With a command and without tracing it never panics. *)
Theorem panics_only_without_command_or_timing currentCmd W msg :
  ended (Execute currentCmd W) = Panicked msg ->
  exists i, (i < iterations currentCmd)%nat /\
            (Args_Cmd (Run currentCmd) = [] \/
             (NoTrace (Run currentCmd) = false /\
              fst (strace_TraceExecveTimings W i) = None)).
Proof.
  destruct (Execute_trace_cases currentCmd W) as [(e' & _ & Ho & ->)|[_ ->]];
    cbn [ended]; [discriminate|].
  pose proof (trials_ends currentCmd W (iterations currentCmd) 0 entry) as H.
  destruct (res (trials currentCmd W (iterations currentCmd) 0 entry))
    as [?|[e'|]|msg']; try discriminate.
  intros _. destruct H as (j & Hj & H). exists j. split; [lia|exact H].
Qed.

Lemma panics_only_without_command_or_timing_witness :
  ended (Execute (sample 0) parse_fails) =
    Panicked "invalid memory address or nil pointer dereference" /\
  exists i, (i < iterations (sample 0))%nat /\
            (Args_Cmd (Run (sample 0)) = [] \/
             (NoTrace (Run (sample 0)) = false /\
              fst (strace_TraceExecveTimings parse_fails i) = None)).
Proof.
  split; [reflexivity|].
  apply (panics_only_without_command_or_timing (sample 0) parse_fails
           "invalid memory address or nil pointer dereference").
  reflexivity.
Defined.

(** ** What the options switch off *)

(** Without tracing, no trial makes or defers an action of the trace
    channel. *)
Lemma untraced_makes_no_trace_action currentCmd W i a :
  NoTrace (Run currentCmd) = true ->
  InTrial i a ∈ trace (Execute currentCmd W) ->
  ~ tracing a.
Proof.
  intros Ht Ha.
  pose (Q := fun ev => forall b, ev = InTrial i b -> ~ tracing b).
  assert (HQ : forall st b, st <> Setup -> st <> Collect -> made_in st b ->
                            Q (InTrial i b)).
  { intros st b H1 H2 Hb b' [= <-]. destruct st, b; cbn in *; tauto. }
  assert (Hside : forall b, ~ tracing b -> Q (InTrial i b)).
  { now intros b Hb b' [= <-]. }
  apply (Execute_trace_sound currentCmd W Q i) with (a := a) (b := a);
    [|intros ?; apply Hside; cbn; tauto|exact Ha|reflexivity].
  intros s _.
  assert (Hs : sound Q Q (measure currentCmd W i));
    [|now destruct (Hs s) as (_ & _ & ? & ? & _)].
  unfold measure. sound_steps;
    try (first [ apply sound_prepare_script | apply sound_discard_snap_ns
               | apply sound_free_caches | apply sound_start_and_wait
               | apply sound_close_and_kill | apply sound_fallback_close
               | apply sound_restore_script | apply sound_build_run
               | apply windowspec_no_return ];
         try (intros ? ?; eapply HQ; [..|eassumption]; discriminate)).
  - unfold setup_command. rewrite Ht. cbn. sound_steps. apply Hside. cbn. tauto.
  - unfold setup_stdio, open_log. sound_steps; apply Hside; cbn; tauto.
  - unfold collect_trace. rewrite Ht. cbn. sound_steps.
Qed.

(** X5: without tracing, every trial builds its command directly, sets up and
    tears down nothing of the trace channel, and its record has no timing. *)
Theorem untraced_run_has_no_trace_channel currentCmd W :
  NoTrace (Run currentCmd) = true ->
  (forall i a, InTrial i a ∈ trace (Execute currentCmd W) -> ~ tracing a) /\
  (forall j r, Runs (result (Execute currentCmd W)) !! j = Some r ->
               ExecveTiming r = None).
Proof.
  intros Ht. split.
  - intros i a. now apply untraced_makes_no_trace_action.
  - intros j r H. apply Execute_Runs in H as (_ & s & startup & _ & H).
    apply measure_Val_inv in H as (ws & s1 & s2 & l1 & l2 & _ & _ & _ & _ & H).
    apply build_run_Val in H as (He & _). now rewrite Ht in He.
Qed.

(** X6: with [--no-window-wait], no trial waits for a window, looks up a pid,
    closes a window, kills, or calls wmctrl. *)
Theorem no_window_wait_touches_no_window currentCmd W i a :
  NoWindowWait (Run currentCmd) = true ->
  InTrial i a ∈ trace (Execute currentCmd W) ->
  ~ on_windows a.
Proof.
  intros Hn Ha.
  pose (Q := fun ev => forall b, ev = InTrial i b -> ~ on_windows b).
  assert (HQ : forall st b, st <> Launch -> st <> Cascade -> st <> Fallback ->
                            made_in st b -> Q (InTrial i b)).
  { intros st b H1 H2 H3 Hb b' [= <-]. destruct st, b; cbn in *; tauto. }
  assert (HD : forall b, deferred_by_trial b -> Q (InTrial i b)).
  { intros b Hb b' [= <-]. destruct b; cbn in *; tauto. }
  assert (Hside : forall b, ~ on_windows b -> Q (InTrial i b)).
  { now intros b Hb b' [= <-]. }
  apply (Execute_trace_sound currentCmd W Q i) with (a := a) (b := a);
    [|intros ?; apply Hside; cbn; tauto|exact Ha|reflexivity].
  intros s _.
  assert (Hs : sound Q Q (measure currentCmd W i));
    [|now destruct (Hs s) as (_ & _ & ? & ? & _)].
  unfold measure. sound_steps;
    try (first [ apply sound_prepare_script | apply sound_setup_command
               | apply sound_setup_stdio | apply sound_discard_snap_ns
               | apply sound_free_caches | apply sound_collect_trace
               | apply sound_restore_script | apply sound_build_run
               | apply windowspec_no_return ];
         first [ exact HD
               | intros ? ?; eapply HQ; [..|eassumption]; discriminate ]).
  - unfold start_and_wait. rewrite Hn. sound_steps; apply Hside; cbn; tauto.
  - match goal with
    | Hw : exists _, res (start_and_wait _ _ _ _ _) = _ |- _ =>
        destruct Hw as [s' Hw]; rewrite start_and_wait_res, Hn in Hw;
        injection Hw as <- <- <- <-
    end.
    unfold close_and_kill. cbn. sound_steps.
    match goal with
    | Hp : exists _, res (mret ([], false) _) = Val (_, _) |- _ =>
        destruct Hp as [? Hp]; cbn in Hp; injection Hp as <- <-
    end.
    cbn. apply sound_pure.
  - match goal with
    | Hw : exists _, res (start_and_wait _ _ _ _ _) = _ |- _ =>
        destruct Hw as [s' Hw]; rewrite start_and_wait_res, Hn in Hw;
        injection Hw as <- <- <- <-
    end.
    match goal with
    | Hc : exists _, res (close_and_kill _ _ _ _ _ _) = _ |- _ =>
        destruct Hc as [s'' Hc]; cbn in Hc; injection Hc as <-
    end.
    unfold fallback_close, when. apply sound_pure.
Qed.

Lemma untraced_run_has_no_trace_channel_witness :
  NoTrace (Run untraced_no_wait) = true /\
  (forall i a, InTrial i a ∈ trace (Execute untraced_no_wait calm) -> ~ tracing a) /\
  (forall j r, Runs (result (Execute untraced_no_wait calm)) !! j = Some r ->
               ExecveTiming r = None).
Proof.
  split; [reflexivity|].
  apply (untraced_run_has_no_trace_channel untraced_no_wait calm). reflexivity.
Defined.

Lemma no_window_wait_touches_no_window_witness :
  NoWindowWait (Run untraced_no_wait) = true /\
  InTrial 0 Wait ∈ trace (Execute untraced_no_wait calm) /\
  ~ on_windows Wait.
Proof.
  split; [reflexivity|].
  assert (H : InTrial 0 Wait ∈ trace (Execute untraced_no_wait calm)).
  { vm_compute. do 4 constructor. }
  split; [exact H|].
  exact (no_window_wait_touches_no_window untraced_no_wait calm 0%nat Wait eq_refl H).
Defined.

(** ** What a trial names *)

Lemma Execute_actions_sound currentCmd W i (Q : action -> Prop) :
  sound (fun e => forall a, e = InTrial i a -> Q a)
        (fun e => forall a, e = InTrial i a -> Q a) (measure currentCmd W i) ->
  (forall startup, Q (PrintStartup startup)) ->
  forall a, InTrial i a ∈ trace (Execute currentCmd W) -> Q a.
Proof.
  intros Hs Hp a Ha.
  apply (Execute_trace_sound currentCmd W
           (fun e => forall a, e = InTrial i a -> Q a) i) with (a := a);
    [|intros d b [= <-]; apply Hp|exact Ha|reflexivity].
  intros s _. now destruct (Hs s) as (_ & _ & ? & ? & _).
Qed.

(** X7: every command, path, script and window name that a trial hands to a
    collaborator is the configured one or one of the trial's own: the
    command is the one given, behind [snap run] when asked, and goes to the
    tracer exactly when tracing; the fifo is [strace.fifo] in the directory
    created in this trial, and only that directory is removed; only the two
    configured log files are opened, without deletion, and closed; only the
    two configured scripts are run, with their arguments; wmctrl is only
    asked to close the configured window name. *)
Theorem trial_names_its_own currentCmd W i a :
  InTrial i a ∈ trace (Execute currentCmd W) -> names_its_own currentCmd W i a.
Proof.
  apply Execute_actions_sound; [|exact (fun _ => I)].
  assert (Hside : forall b, names_its_own currentCmd W i b ->
                  forall a', InTrial i b = InTrial i a' -> names_its_own currentCmd W i a').
  { now intros b Hb a' [= <-]. }
  unfold measure. sound_steps.
  - unfold prepare_script. sound_steps; eapply Hside; cbn; try tauto.
  - unfold setup_command, targetCmd, filepath_Join.
    destruct (NoTrace (Run currentCmd)) eqn:Et; cbn [negb].
    + destruct (RunThroughSnap (Run currentCmd)) eqn:Es;
        [|destruct (Args_Cmd (Run currentCmd)) eqn:Ea]; sound_steps;
        eapply Hside; cbn; rewrite ?Et, ?Es, ?Ea; repeat split; auto.
    + destruct (ioutil_TempDir W i) as [dir err] eqn:Ed.
      unfold mbind at 1, M_bind at 1. 
      apply sound_bind; [apply sound_call; eapply Hside; exact I|].
      intros [dir' err'] [s Hv]. cbn in Hv. injection Hv as <- <-.
      sound_steps; eapply Hside; cbn; rewrite ?Et, ?Ed; cbn;
        repeat split; auto; now destruct (RunThroughSnap (Run currentCmd)).
  - unfold setup_stdio, open_log. sound_steps; eapply Hside; cbn; auto.
  - unfold discard_snap_ns. sound_steps; eapply Hside; exact I.
  - apply windowspec_no_return.
  - unfold free_caches. sound_steps; eapply Hside; exact I.
  - unfold start_and_wait. sound_steps; eapply Hside; exact I.
  - apply sound_close_and_kill. intros c Hc a' [= <-]. destruct c; cbn in Hc; tauto.
  - unfold fallback_close, wmctrlCloseWindow. sound_steps; eapply Hside; cbn; auto.
  - unfold collect_trace. sound_steps; eapply Hside; exact I.
  - unfold restore_script. sound_steps; eapply Hside; cbn; try tauto.
  - apply sound_build_run.
Qed.

Lemma trial_names_its_own_witness :
  InTrial 0 (RemoveAll "/tmp/exec-trace0") ∈ trace (Execute (sample 0) calm) /\
  names_its_own (sample 0) calm 0 (RemoveAll "/tmp/exec-trace0").
Proof.
  assert (H : InTrial 0 (RemoveAll "/tmp/exec-trace0") ∈ trace (Execute (sample 0) calm)).
  { vm_compute. do 17 constructor. }
  split; [exact H|].
  exact (trial_names_its_own (sample 0) calm 0%nat _ H).
Defined.

(** ** One trial within the call *)

Lemma of_trial_rev i l : of_trial i (rev l) = rev (of_trial i l).
Proof.
  induction l as [|e l IH]; [reflexivity|].
  cbn [rev]. rewrite of_trial_app, IH.
  change (e :: l) with ([e] ++ l). rewrite of_trial_app, rev_app_distr.
  f_equal. unfold of_trial. cbn. destruct e as [j a|a]; [|reflexivity].
  now destruct (Nat.eqb j i).
Qed.

Section View.

Variable currentCmd : Command.
Variable W : World.
Variable i : nat.

Local Abbreviation trial_ := (trial currentCmd W).
Local Abbreviation trials_ := (trials currentCmd W).

Lemma trials_deferred_tags n i0 s :
  errs s = [] ->
  Forall (fun e => match e with
                   | InTrial j _ => (i0 <= j)%nat
                   | Outside _ => True
                   end) (deferred (trials_ n i0 s)).
Proof.
  intros Hs. apply Forall_forall. intros e He.
  apply trials_deferred in He as (j & s' & Hj & _ & He); [|exact Hs].
  destruct (trial_events currentCmd W j s') as [_ Hd].
  rewrite Forall_forall in Hd. apply Hd in He as (a & -> & _). lia.
Qed.

(** Within the loop, trial [i] is one run of the body, started with no error
    logged; what it makes and what it defers is tagged [i] and nothing else
    is; and if that run does not fall through, the loop ends as it does. *)
Lemma trials_view n : forall i0 s,
  errs s = [] ->
  (of_trial i (calls (trials_ n i0 s)) = [] /\
   of_trial i (deferred (trials_ n i0 s)) = []) \/
  exists s',
    errs s' = [] /\
    of_trial i (calls (trials_ n i0 s)) = calls (trial_ i s') /\
    of_trial i (deferred (trials_ n i0 s)) = deferred (trial_ i s') /\
    ((forall v, res (trial_ i s') <> Val v) ->
     res (trials_ n i0 s) = res (trial_ i s')).
Proof.
  induction n as [|n IH]; intros i0 s Hs; [left; now split|].
  cbn [trials].
  destruct (trial_events currentCmd W i0 s) as [Hc Hd].
  assert (Hsame : forall l, Forall (fun e => exists a, e = InTrial i0 a /\ made_by_trial a \/
                                             e = InTrial i0 a /\ deferred_by_trial a) l ->
                  of_trial i l = if Nat.eqb i0 i then l else []).
  { intros l Hl. destruct (Nat.eqb i0 i) eqn:E.
    - apply Nat.eqb_eq in E. subst i0. apply of_trial_same.
      eapply Forall_impl; [exact Hl|]. cbn. intros e (a & [[-> _]|[-> _]]); eauto.
    - apply Nat.eqb_neq in E. apply of_trial_other.
      eapply Forall_impl; [exact Hl|]. cbn. now intros e (a & [[-> _]|[-> _]]). }
  assert (Hhc : of_trial i (calls (trial_ i0 s)) =
                if Nat.eqb i0 i then calls (trial_ i0 s) else []).
  { apply Hsame. eapply Forall_impl; [exact Hc|]. cbn. intros e (a & H). eauto. }
  assert (Hhd : of_trial i (deferred (trial_ i0 s)) =
                if Nat.eqb i0 i then deferred (trial_ i0 s) else []).
  { apply Hsame. eapply Forall_impl; [exact Hd|]. cbn. intros e (a & H). eauto. }
  destruct (res (trial_ i0 s)) as [[]|err|msg] eqn:Ht.
  - rewrite (bind_Val _ _ _ tt Ht). cbn [calls deferred res].
    rewrite !of_trial_app, Hhc, Hhd.
    assert (Hs' : errs (gst (trial_ i0 s)) = []).
    { destruct (trial_cases currentCmd W i0 s) as [(run & startup & E)|[[e E]|[m E]]].
      - now rewrite (trial_Val _ _ _ _ _ _ E).
      - rewrite (trial_Return _ _ _ _ _ E) in Ht. discriminate.
      - rewrite (trial_Panic _ _ _ _ _ E) in Ht. discriminate. }
    destruct (Nat.eqb i0 i) eqn:E.
    + apply Nat.eqb_eq in E. subst i0. right. exists s. split; [exact Hs|].
      rewrite (of_trial_other i (calls (trials_ n (S i) _)));
        [|eapply Forall_impl; [apply trials_calls_tags, Hs'|];
          cbn; intros [j a|a]; [lia|auto]].
      rewrite (of_trial_other i (deferred (trials_ n (S i) _)));
        [|eapply Forall_impl; [apply trials_deferred_tags, Hs'|];
          cbn; intros [j a|a]; [lia|auto]].
      rewrite !app_nil_r. repeat split. intros Hv. now destruct (Hv tt).
    + cbn [app]. apply IH, Hs'.
  - rewrite (bind_Return _ _ _ _ Ht). cbn [calls deferred res]. rewrite Hhc, Hhd.
    destruct (Nat.eqb i0 i) eqn:E; [|left; now split].
    apply Nat.eqb_eq in E. subst i0. right. exists s. now rewrite Ht.
  - rewrite (bind_Panic _ _ _ _ Ht). cbn [calls deferred res]. rewrite Hhc, Hhd.
    destruct (Nat.eqb i0 i) eqn:E; [|left; now split].
    apply Nat.eqb_eq in E. subst i0. right. exists s. now rewrite Ht.
Qed.

End View.

Lemma of_trial_subset i l e : e ∈ of_trial i l -> e ∈ l.
Proof.
  unfold of_trial. intros H. apply list_elem_of_omap in H as (e' & He' & Heq).
  destruct e' as [j a|a]; [|discriminate].
  destruct (Nat.eqb j i); [|discriminate]. now injection Heq as <-.
Qed.

(** The events of trial [i] within the trace of a call. *)
Lemma Execute_trial_view currentCmd W i :
  of_trial i (trace (Execute currentCmd W)) = [] \/
  exists s,
    errs s = [] /\
    of_trial i (trace (Execute currentCmd W)) =
      calls (trial currentCmd W i s) ++ rev (deferred (trial currentCmd W i s)) /\
    match res (trial currentCmd W i s) with
    | Val _ => True
    | Return err => ended (Execute currentCmd W) = Returned err
    | Panic msg => ended (Execute currentCmd W) = Panicked msg
    end.
Proof.
  destruct (Execute_trace_cases currentCmd W) as [(e & _ & _ & ->)|[_ ->]];
    [now left|].
  cbn [trace ended].
  set (o := trials currentCmd W (iterations currentCmd) 0 entry).
  assert (Hpre : of_trial i
            (if nonempty (OutputFile (Run currentCmd))
             then [Outside (EnsureExistsAndOpen (OutputFile (Run currentCmd)) true)]
             else []) = []) by now destruct (nonempty _).
  assert (Hpost : of_trial i
            match res o with
            | Val _ => if JSONOutput (Run currentCmd)
                       then [Outside (Encode (outRes (gst o)))] else []
            | _ => []
            end = []).
  { destruct (res o); try reflexivity. now destruct (JSONOutput _). }
  rewrite !of_trial_app, Hpre, Hpost, of_trial_rev. cbn [app].
  destruct (trials_view currentCmd W i (iterations currentCmd) 0 entry eq_refl)
    as [[Hc Hd]|(s & Hs & Hc & Hd & Hr)]; fold o in Hc, Hd.
  - left. now rewrite Hc, Hd.
  - right. exists s. split; [exact Hs|]. rewrite Hc, Hd. split; [reflexivity|].
    fold o in Hr.
    destruct (res (trial currentCmd W i s)) as [v|err|msg] eqn:E; [exact I| |];
      rewrite Hr by (intros v; discriminate); reflexivity.
Qed.

(** ** The loop body in two halves *)

Lemma M_eq {A} (o o' : Out A) :
  res o = res o' -> gst o = gst o' -> calls o = calls o' -> deferred o = deferred o' ->
  o = o'.
Proof. destruct o, o'; cbn; now intros -> -> -> ->. Qed.

Lemma bind_assoc {A B C} (m : M A) (k : A -> M B) (h : B -> M C) s :
  ((m ≫= k) ≫= h) s = (m ≫= fun a => k a ≫= h) s.
Proof.
  unfold mbind, M_bind, bind. cbv zeta.
  destruct (res (m s)) as [a|err|msg]; cbn [res gst calls deferred]; [|reflexivity..].
  destruct (res (k a (gst (m s)))) as [b|err|msg]; cbn [res gst calls deferred];
    [|reflexivity..].
  now rewrite !app_assoc.
Qed.

Lemma bind_pure_l {A B} (a : A) (k : A -> M B) s : (mret a ≫= k) s = k a s.
Proof. unfold mbind, M_bind, bind, mret, M_ret, pure. cbn. now destruct (k a s). Qed.

(** The loop body is its preparations, the drop of the caches and the timed
    run. *)
Lemma measure_split currentCmd W i s :
  measure currentCmd W i s =
    (preparations currentCmd W i ≫= fun ws =>
     free_caches W i;; timed_run currentCmd W i ws) s.
Proof.
  unfold measure, preparations.
  repeat (rewrite bind_assoc; apply bind_ext; [reflexivity|intros ? ?]).
  reflexivity.
Qed.

(** ** Statements that always fall through *)

Lemma total_pure {A} (a : A) : total (mret a).
Proof. intros s. now exists a. Qed.

Lemma total_call {A} ev (r : A) : total (call ev r).
Proof. intros s. now exists r. Qed.

Lemma total_logError c i err : total (logError c i err).
Proof. intros s. now exists tt. Qed.

Lemma total_bind {A B} (m : M A) (k : A -> M B) :
  total m -> (forall a, total (k a)) -> total (m ≫= k).
Proof.
  intros Hm Hk s. destruct (Hm s) as [a Ha]. rewrite (bind_Val _ _ _ a Ha). cbn.
  apply Hk.
Qed.

Lemma total_when b (m : M unit) : total m -> total (when b m).
Proof. destruct b; cbn; auto using total_pure. Qed.

Ltac total_step :=
  lazymatch goal with
  | |- total (_ ≫= _) => apply total_bind; [|intros ?]
  | |- total (mret _) => apply total_pure
  | |- total (call _ _) => apply total_call
  | |- total (when _ _) => apply total_when
  | |- total (logError _ _ _) => apply total_logError
  | |- total (match ?x with _ => _ end) => destruct x
  end.

Ltac total_steps := repeat total_step.

Section Total.

Variable currentCmd : Command.
Variable W : World.
Variable i : nat.

Lemma total_start_and_wait ws : total (start_and_wait currentCmd W i ws).
Proof. unfold start_and_wait. total_steps. Qed.

Lemma total_resolve_pids wids : forall k pids,
  total (resolve_pids currentCmd W i k wids pids).
Proof. induction wids as [|wid rest IH]; intros k pids; cbn; total_steps; auto. Qed.

Lemma total_close_windows wids : forall k b,
  total (close_windows currentCmd W i k wids b).
Proof. induction wids as [|wid rest IH]; intros k b; cbn; total_steps; auto. Qed.

Lemma total_kill_pids pids : forall k b,
  total (kill_pids currentCmd W i k pids b).
Proof. induction pids as [|pid rest IH]; intros k b; cbn; total_steps; auto. Qed.

Lemma total_close_and_kill b wids : total (close_and_kill currentCmd W i b wids).
Proof.
  unfold close_and_kill. total_steps;
    auto using total_resolve_pids, total_close_windows, total_kill_pids.
Qed.

Lemma total_fallback_close b : total (fallback_close currentCmd W i b).
Proof. unfold fallback_close, wmctrlCloseWindow. total_steps. Qed.

Lemma total_collect_trace : total (collect_trace currentCmd W i).
Proof. unfold collect_trace. total_steps. Qed.

Lemma total_restore_script : total (restore_script currentCmd W i).
Proof. unfold restore_script. total_steps. Qed.

Lemma total_prepare_script : total (prepare_script currentCmd W i).
Proof. unfold prepare_script. total_steps. Qed.

(** Once the command is started the trial cannot return any more: it goes on
    to its record, unless there is no timing to build the record from. *)
Lemma timed_run_ends ws s :
  (exists run, res (timed_run currentCmd W i ws s) = Val (run, time_Since W i)) \/
  (exists msg, res (timed_run currentCmd W i ws s) = Panic msg /\
               NoTrace (Run currentCmd) = false /\
               fst (strace_TraceExecveTimings W i) = None).
Proof.
  unfold timed_run.
  destruct (total_start_and_wait ws s) as [[[[wids err] b] d] E1].
  assert (d = time_Since W i) as ->.
  { rewrite start_and_wait_res in E1. now injection E1. }
  rewrite (bind_Val _ _ _ _ E1). cbn [res]. cbv beta iota.
  set (s1 := gst _). clearbody s1.
  destruct (total_close_and_kill b wids s1) as [b' E2].
  rewrite (bind_Val _ _ _ _ E2). cbn [res].
  set (s2 := gst _). clearbody s2.
  destruct (total_fallback_close b' s2) as [[] E3].
  rewrite (bind_Val _ _ _ _ E3). cbn [res].
  set (s3 := gst _). clearbody s3.
  pose proof (collect_trace_res currentCmd W i s3) as E4.
  rewrite (bind_Val _ _ _ _ E4). cbn [res].
  set (s4 := gst _). clearbody s4.
  destruct (total_restore_script s4) as [[] E5].
  rewrite (bind_Val _ _ _ _ E5). cbn [res].
  set (s5 := gst _). clearbody s5.
  unfold mbind, M_bind, bind, build_run. cbv zeta.
  destruct (NoTrace (Run currentCmd)); cbn; [left; eauto|].
  destruct (fst (strace_TraceExecveTimings W i)); cbn; [left; eauto|].
  right. eauto.
Qed.

Lemma timed_run_sound (Q D : event -> Prop) ws :
  (forall st a, late st -> made_in st a -> Q (InTrial i a)) ->
  sound Q D (timed_run currentCmd W i ws).
Proof.
  intros H. unfold timed_run. sound_steps;
    first [ apply sound_start_and_wait | apply sound_close_and_kill
          | apply sound_fallback_close | apply sound_collect_trace
          | apply sound_restore_script | apply sound_build_run ];
    intros act; now apply H.
Qed.

Lemma timed_run_deferred ws s : deferred (timed_run currentCmd W i ws s) = [].
Proof.
  destruct (timed_run_sound (fun _ => True) (fun _ => False) ws (fun _ _ _ _ => I) s)
    as (_ & _ & _ & Hd & _).
  destruct (deferred _) as [|e l]; [reflexivity|].
  now apply Forall_cons in Hd as [[] _].
Qed.

Lemma preparations_sound (Q D : event -> Prop) :
  (forall st a, ~ late st -> st <> Caches -> made_in st a -> Q (InTrial i a)) ->
  (forall a, deferred_by_trial a -> D (InTrial i a)) ->
  sound Q D (preparations currentCmd W i).
Proof.
  intros H H'. unfold preparations. sound_steps.
  - apply sound_prepare_script. intros act. apply H; [exact id|discriminate].
  - apply sound_setup_command; [|exact H']. intros act.
    apply H; [exact id|discriminate].
  - apply sound_setup_stdio; [|exact H']. intros act.
    apply H; [exact id|discriminate].
  - apply sound_discard_snap_ns. intros act. apply H; [exact id|discriminate].
  - apply windowspec_no_return.
Qed.

End Total.

(** ** The ways through the loop body *)

Section Shape.

Variable currentCmd : Command.
Variable W : World.
Variable i : nat.

Lemma free_caches_then {A} (k : M A) s :
  (free_caches W i;; k) s =
    match profiling_FreeCaches W i with
    | Some e => {| res := Return (Some e); gst := s;
                   calls := [InTrial i FreeCaches]; deferred := [] |}
    | None => {| res := res (k s); gst := gst (k s);
                 calls := InTrial i FreeCaches :: calls (k s);
                 deferred := deferred (k s) |}
    end.
Proof.
  unfold free_caches, mbind, M_bind, bind. cbn.
  destruct (profiling_FreeCaches W i); reflexivity.
Qed.

(** A trial stops in its preparations; or at the caches; or it starts the
    command, and then either panics for want of a timing or appends its
    record, prints its line and resets the errors. *)
Lemma trial_shape s :
  let p := preparations currentCmd W i s in
  match res p with
  | Val ws =>
      match profiling_FreeCaches W i with
      | Some e =>
          trial currentCmd W i s =
            {| res := Return (Some e); gst := gst p;
               calls := calls p ++ [InTrial i FreeCaches]; deferred := deferred p |}
      | None =>
          let t := timed_run currentCmd W i ws (gst p) in
          match res t with
          | Val (run, startup) =>
              trial currentCmd W i s =
                {| res := Val tt;
                   gst := {| errs := [];
                             outRes := {| Runs := Runs (outRes s) ++ [run] |} |};
                   calls := calls p ++ InTrial i FreeCaches :: calls t ++
                            (if JSONOutput (Run currentCmd) then []
                             else [InTrial i (PrintStartup startup)]);
                   deferred := deferred p |}
          | Return _ => False
          | Panic msg =>
              trial currentCmd W i s =
                {| res := Panic msg; gst := gst t;
                   calls := calls p ++ InTrial i FreeCaches :: calls t;
                   deferred := deferred p |}
          end
      end
  | Return err =>
      trial currentCmd W i s =
        {| res := Return err; gst := gst p; calls := calls p; deferred := deferred p |}
  | Panic msg =>
      trial currentCmd W i s =
        {| res := Panic msg; gst := gst p; calls := calls p; deferred := deferred p |}
  end.
Proof.
  cbv zeta.
  pose proof (measure_split currentCmd W i s) as Hm.
  destruct (res (preparations currentCmd W i s)) as [ws|err|msg] eqn:Ep.
  - rewrite (bind_Val _ _ _ ws Ep), free_caches_then in Hm.
    destruct (profiling_FreeCaches W i) as [e|].
    + cbn [res gst calls deferred] in Hm. rewrite app_nil_r in Hm.
      rewrite (trial_Return currentCmd W i s (Some e)) by now rewrite Hm.
      now rewrite Hm.
    + cbn [res gst calls deferred] in Hm.
      rewrite timed_run_deferred, app_nil_r in Hm.
      destruct (timed_run_ends currentCmd W i ws (gst (preparations currentCmd W i s)))
        as [[run E]|(msg & E & _)]; rewrite E in Hm |- *.
      * rewrite (trial_Val currentCmd W i s run (time_Since W i)) by now rewrite Hm.
        rewrite Hm. cbn [calls deferred]. now rewrite <- app_assoc.
      * rewrite (trial_Panic currentCmd W i s msg) by now rewrite Hm.
        now rewrite Hm.
  - rewrite (bind_Return _ _ _ err Ep) in Hm.
    rewrite (trial_Return currentCmd W i s err) by now rewrite Hm.
    now rewrite Hm.
  - rewrite (bind_Panic _ _ _ msg Ep) in Hm.
    rewrite (trial_Panic currentCmd W i s msg) by now rewrite Hm.
    now rewrite Hm.
Qed.

End Shape.

(** ** The loop, round by round *)

Section Rounds.

Variable currentCmd : Command.
Variable W : World.

Local Abbreviation trial_ := (trial currentCmd W).
Local Abbreviation trials_ := (trials currentCmd W).

Lemma trial_Val_errs i s v : res (trial_ i s) = Val v -> errs (gst (trial_ i s)) = [].
Proof.
  destruct (trial_cases currentCmd W i s) as [(run & startup & E)|[[err E]|[msg E]]].
  - now rewrite (trial_Val _ _ _ _ _ _ E).
  - rewrite (trial_Return _ _ _ _ _ E). discriminate.
  - rewrite (trial_Panic _ _ _ _ _ E). discriminate.
Qed.

(** What holds of the empty loop, is kept by a round that falls through and
    holds of a round that does not, holds of the loop. *)
Lemma trials_ind (P : nat -> nat -> GState -> Out unit -> Prop) :
  (forall i s, P O i s {| res := Val tt; gst := s; calls := []; deferred := [] |}) ->
  (forall n i s o,
     errs s = [] -> res (trial_ i s) = Val tt -> errs (gst (trial_ i s)) = [] ->
     P n (S i) (gst (trial_ i s)) o ->
     P (S n) i s {| res := res o; gst := gst o;
                    calls := calls (trial_ i s) ++ calls o;
                    deferred := deferred (trial_ i s) ++ deferred o |}) ->
  (forall n i s,
     errs s = [] -> (forall v, res (trial_ i s) <> Val v) -> P (S n) i s (trial_ i s)) ->
  forall n i s, errs s = [] -> P n i s (trials_ n i s).
Proof.
  intros H0 Hval Hstop. induction n as [|n IH]; intros i s Hs; [apply H0|].
  cbn [trials].
  destruct (res (trial_ i s)) as [[]|err|msg] eqn:Ht.
  - rewrite (bind_Val _ _ _ tt Ht).
    pose proof (trial_Val_errs i s tt Ht) as Hs'.
    apply Hval; auto.
  - rewrite (bind_Return _ _ _ err Ht).
    replace {| res := Return err; gst := _; calls := _; deferred := _ |}
      with (trial_ i s) by (apply M_eq; auto).
    apply Hstop; [exact Hs|]. intros v. rewrite Ht. discriminate.
  - rewrite (bind_Panic _ _ _ msg Ht).
    replace {| res := Panic msg; gst := _; calls := _; deferred := _ |}
      with (trial_ i s) by (apply M_eq; auto).
    apply Hstop; [exact Hs|]. intros v. rewrite Ht. discriminate.
Qed.

End Rounds.

(** ** One start per record *)

Lemma omap_none {X} (f : event -> option X) l :
  Forall (fun e => f e = None) l -> omap f l = [].
Proof.
  induction 1 as [|e l He _ IH]; [reflexivity|]. cbn. now rewrite He, IH.
Qed.

Lemma starts_app l1 l2 : starts (l1 ++ l2) = starts l1 ++ starts l2.
Proof. apply omap_app. Qed.

Section Starts.

Variable currentCmd : Command.
Variable W : World.

(** The timed run starts the command, first thing, and makes the actions of
    its stages after that. *)
Lemma timed_run_calls (Q : event -> Prop) i ws s :
  (forall st a, a <> Start -> made_in st a -> Q (InTrial i a)) ->
  exists rest,
    calls (timed_run currentCmd W i ws s) = InTrial i Start :: rest /\ Forall Q rest.
Proof.
  intros H. unfold timed_run, start_and_wait. rewrite bind_assoc.
  rewrite (bind_Val (call (InTrial i Start) (cmd_Start W i)) _ s (cmd_Start W i) eq_refl).
  cbn [calls call app].
  eexists. split; [reflexivity|].
  match goal with
  | |- Forall Q (calls (?m ?s0)) =>
      assert (Hs : sound Q (fun _ => True) m); [|now destruct (Hs s0) as (_ & _ & ? & _)]
  end.
  assert (H' : forall st a, st <> Launch -> made_in st a -> Q (InTrial i a)).
  { intros st a Hst Ha. apply (H st); [|exact Ha]. intros ->. now destruct st. }
  sound_steps;
    try (apply (H Launch); [discriminate|exact I]);
    first [ apply sound_close_and_kill | apply sound_fallback_close
          | apply sound_collect_trace | apply sound_restore_script
          | apply sound_build_run ];
    intros act; now apply H'.
Qed.

Lemma starts_none l : Forall (fun e => forall j, e <> InTrial j Start) l -> starts l = [].
Proof.
  intros Hl. apply omap_none. eapply Forall_impl; [exact Hl|]. cbn.
  intros [j a|a] Hne; [|reflexivity]. destruct a; try reflexivity.
  now destruct (Hne j).
Qed.

Lemma starts_timed_run i ws s : starts (calls (timed_run currentCmd W i ws s)) = [i].
Proof.
  destruct (timed_run_calls (fun e => forall j, e <> InTrial j Start) i ws s)
    as (rest & -> & Hr).
  { intros st a Ha _ j [= _ Heq]. now apply Ha. }
  cbn. f_equal. now apply starts_none.
Qed.

Lemma preparations_quiet i s :
  starts (calls (preparations currentCmd W i s)) = [] /\
  starts (deferred (preparations currentCmd W i s)) = [] /\
  outRes (gst (preparations currentCmd W i s)) = outRes s.
Proof.
  destruct (preparations_sound currentCmd W i
              (fun e => forall j, e <> InTrial j Start)
              (fun e => forall j, e <> InTrial j Start)) with (s := s)
    as (Ho & _ & Hc & Hd & _).
  { intros st a Hl Hc Ha j [= _ ->]. destruct st; cbn in *; tauto. }
  { intros a Ha j [= _ ->]. exact Ha. }
  auto using starts_none.
Qed.

Lemma timed_run_outRes i ws s : outRes (gst (timed_run currentCmd W i ws s)) = outRes s.
Proof.
  now destruct (timed_run_sound currentCmd W i (fun _ => True) (fun _ => True) ws
                  (fun _ _ _ _ => I) s).
Qed.

(** A trial that appends its record has started the command once; one that
    returns has not started it; one that panics has started it at most
    once. *)
Lemma trial_starts i s :
  starts (deferred (trial currentCmd W i s)) = [] /\
  match res (trial currentCmd W i s) with
  | Val _ =>
      starts (calls (trial currentCmd W i s)) = [i] /\
      length (Runs (outRes (gst (trial currentCmd W i s)))) =
        S (length (Runs (outRes s)))
  | Return _ =>
      starts (calls (trial currentCmd W i s)) = [] /\
      outRes (gst (trial currentCmd W i s)) = outRes s
  | Panic _ =>
      (starts (calls (trial currentCmd W i s)) = [] \/
       starts (calls (trial currentCmd W i s)) = [i]) /\
      outRes (gst (trial currentCmd W i s)) = outRes s
  end.
Proof.
  pose proof (trial_shape currentCmd W i s) as H. cbv zeta in H.
  destruct (preparations_quiet i s) as (Hc & Hd & Ho).
  destruct (res (preparations currentCmd W i s)) as [ws|err|msg].
  - destruct (profiling_FreeCaches W i) as [e|].
    + rewrite H. cbn [res gst calls deferred]. rewrite starts_app, Hc. auto.
    + pose proof (starts_timed_run i ws (gst (preparations currentCmd W i s))) as Ht.
      pose proof (timed_run_outRes i ws (gst (preparations currentCmd W i s))) as Ho'.
      destruct (res (timed_run currentCmd W i ws _)) as [[run startup]|err|msg];
        [| destruct H |]; rewrite H; cbn [res gst calls deferred outRes Runs].
      * split; [exact Hd|]. split.
        -- rewrite starts_app, Hc. cbn [app]. change (InTrial i FreeCaches :: ?l)
             with ([InTrial i FreeCaches] ++ l).
           rewrite !starts_app, Ht. cbn. now destruct (JSONOutput _).
        -- rewrite length_app. cbn. lia.
      * split; [exact Hd|]. split; [|congruence]. right.
        rewrite starts_app, Hc. cbn [app]. change (InTrial i FreeCaches :: ?l)
          with ([InTrial i FreeCaches] ++ l).
        now rewrite starts_app, Ht.
  - rewrite H. cbn [res gst calls deferred]. auto.
  - rewrite H. cbn [res gst calls deferred]. auto.
Qed.

Lemma trials_starts n i s :
  errs s = [] ->
  let o := trials currentCmd W n i s in
  starts (deferred o) = [] /\
  exists k,
    length (Runs (outRes (gst o))) = (length (Runs (outRes s)) + k)%nat /\
    match res o with
    | Panic _ => starts (calls o) = seq i k \/ starts (calls o) = seq i (S k)
    | _ => starts (calls o) = seq i k
    end.
Proof.
  cbv zeta. revert n i s.
  apply (trials_ind currentCmd W (fun n i s o =>
    starts (deferred o) = [] /\
    exists k,
      length (Runs (outRes (gst o))) = (length (Runs (outRes s)) + k)%nat /\
      match res o with
      | Panic _ => starts (calls o) = seq i k \/ starts (calls o) = seq i (S k)
      | _ => starts (calls o) = seq i k
      end)).
  - intros i s. cbn. split; [reflexivity|]. exists O. split; [lia|reflexivity].
  - intros n i s o Hs Ht _ (Hd & k & Hl & Hc).
    destruct (trial_starts i s) as [Hd' H]. rewrite Ht in H. destruct H as [Hc' Hl'].
    cbn [res gst calls deferred]. rewrite !starts_app, Hd, Hd', Hc'.
    split; [reflexivity|]. exists (S k). split; [lia|].
    destruct (res o); cbn [app seq]; [now rewrite Hc|now rewrite Hc|].
    destruct Hc as [-> | ->]; auto.
  - intros n i s Hs Hv. destruct (trial_starts i s) as [Hd H].
    split; [exact Hd|]. exists O.
    destruct (res (trial currentCmd W i s)) as [v|err|msg]; [now destruct (Hv v)| |];
      destruct H as [Hc ->]; (split; [lia|]); auto.
Qed.

End Starts.

(** X9: the command is started once per record, by the trials in their order: a
    call that returns, with nil or with an error, has started the command as
    many times as it has records, so a trial that fails in its set-up has not
    started it.  Only a panic can leave a started command without a record,
    and then only the last one. *)
Theorem command_started_once_per_record currentCmd W :
  match ended (Execute currentCmd W) with
  | Returned _ =>
      starts (trace (Execute currentCmd W)) =
        seq 0 (length (Runs (result (Execute currentCmd W))))
  | Panicked _ =>
      starts (trace (Execute currentCmd W)) =
        seq 0 (length (Runs (result (Execute currentCmd W)))) \/
      starts (trace (Execute currentCmd W)) =
        seq 0 (S (length (Runs (result (Execute currentCmd W)))))
  end.
Proof.
  destruct (Execute_trace_cases currentCmd W) as [(e & _ & _ & ->)|[_ ->]];
    [reflexivity|].
  cbn [ended result trace].
  destruct (trials_starts currentCmd W (iterations currentCmd) 0 entry eq_refl)
    as (Hd & k & Hl & Hc).
  cbn in Hl. rewrite Hl.
  assert (Hrev : starts (rev (deferred (trials currentCmd W (iterations currentCmd) 0 entry)))
                 = []).
  { unfold starts. apply omap_none. apply Forall_forall. intros e He.
    apply list_elem_of_In, in_rev, list_elem_of_In in He.
    destruct e as [j a|a]; [|reflexivity]. destruct a; try reflexivity.
    assert (Hin : j ∈ starts (deferred (trials currentCmd W (iterations currentCmd) 0 entry))).
    { apply list_elem_of_omap. eexists. split; [exact He|reflexivity]. }
    rewrite Hd in Hin. now apply elem_of_nil in Hin. }
  rewrite !starts_app, Hrev.
  assert (Hpre : starts (if nonempty (OutputFile (Run currentCmd))
                         then [Outside (EnsureExistsAndOpen
                                          (OutputFile (Run currentCmd)) true)]
                         else []) = []) by now destruct (nonempty _).
  rewrite Hpre. cbn [app].
  destruct (res (trials currentCmd W (iterations currentCmd) 0 entry)) as [[]|err|msg].
  - destruct (JSONOutput _); cbn; now rewrite app_nil_r.
  - cbn. now rewrite app_nil_r.
  - cbn. rewrite app_nil_r. exact Hc.
Qed.

(** ** Trials in sequence *)

Lemma trials_in_sequence currentCmd W n i s :
  errs s = [] ->
  let o := trials currentCmd W n i s in
  exists k,
    length (Runs (outRes (gst o))) = (length (Runs (outRes s)) + k)%nat /\
    forall j a, InTrial j a ∈ calls o ++ deferred o ->
                (i <= j < i + k)%nat \/ (j = (i + k)%nat /\ forall v, res o <> Val v).
Proof.
  cbv zeta. revert n i s.
  apply (trials_ind currentCmd W (fun n i s o =>
    exists k,
      length (Runs (outRes (gst o))) = (length (Runs (outRes s)) + k)%nat /\
      forall j a, InTrial j a ∈ calls o ++ deferred o ->
                  (i <= j < i + k)%nat \/ (j = (i + k)%nat /\ forall v, res o <> Val v))).
  - intros i s. exists O. split; [cbn; lia|]. cbn. intros j a H.
    now apply elem_of_nil in H.
  - intros n i s o Hs Ht _ (k & Hl & Hin).
    destruct (trial_starts currentCmd W i s) as [_ H]. rewrite Ht in H.
    destruct H as [_ Hl'].
    destruct (trial_events currentCmd W i s) as [Hc Hd].
    rewrite Forall_forall in Hc, Hd.
    exists (S k). cbn [res gst calls deferred]. split; [lia|].
    intros j a H. rewrite !elem_of_app in H.
    assert (Hhere : forall e, e = InTrial j a ->
                     (exists b, e = InTrial i b /\ made_by_trial b) \/
                     (exists b, e = InTrial i b /\ deferred_by_trial b) ->
                     (i <= j < i + S k)%nat \/
                     (j = (i + S k)%nat /\ forall v, res o <> Val v)).
    { intros e -> [(b & [= -> _] & _)|(b & [= -> _] & _)]; left; lia. }
    destruct H as [[H|H]|[H|H]].
    + apply (Hhere _ eq_refl). left. now apply Hc.
    + destruct (Hin j a) as [Hj|[-> Hv]]; [rewrite elem_of_app; auto| |].
      * left. lia.
      * right. split; [lia|exact Hv].
    + apply (Hhere _ eq_refl). right. now apply Hd.
    + destruct (Hin j a) as [Hj|[-> Hv]]; [rewrite elem_of_app; auto| |].
      * left. lia.
      * right. split; [lia|exact Hv].
  - intros n i s Hs Hv. exists O.
    destruct (trial_starts currentCmd W i s) as [_ H].
    destruct (trial_events currentCmd W i s) as [Hc Hd].
    rewrite Forall_forall in Hc, Hd.
    split.
    + destruct (res (trial currentCmd W i s)) as [v|err|msg]; [now destruct (Hv v)| |];
        destruct H as [_ ->]; lia.
    + intros j a Hin. right. split; [|exact Hv].
      rewrite elem_of_app in Hin.
      destruct Hin as [Hin|Hin]; [apply Hc in Hin|apply Hd in Hin];
        destruct Hin as (b & [= -> _] & _); lia.
Qed.

(** X10: the trials run one after the other and the first that fails is the last:
    when the trace has an event of trial [i], the trials before it all have
    their record in the result; and if trial [i] itself has none, it is the
    one in which the call returned its error or panicked. *)
Theorem trial_follows_the_recorded_ones currentCmd W i a :
  InTrial i a ∈ trace (Execute currentCmd W) ->
  (i < length (Runs (result (Execute currentCmd W))))%nat \/
  (i = length (Runs (result (Execute currentCmd W))) /\
   ended (Execute currentCmd W) <> Returned None).
Proof.
  destruct (Execute_trace_cases currentCmd W) as [(e & _ & _ & ->)|[_ ->]];
    cbn [ended result trace].
  { intros H. apply list_elem_of_singleton in H. discriminate. }
  destruct (trials_in_sequence currentCmd W (iterations currentCmd) 0 entry eq_refl)
    as (k & Hl & Hin).
  cbn in Hl. rewrite Hl. intros H.
  assert (H' : InTrial i a ∈ calls (trials currentCmd W (iterations currentCmd) 0 entry) ++
                            deferred (trials currentCmd W (iterations currentCmd) 0 entry)).
  { rewrite !elem_of_app in H. rewrite elem_of_app.
    destruct H as [H|[H|[H|H]]]; auto.
    - destruct (nonempty _); [apply list_elem_of_singleton in H; discriminate|].
      now apply elem_of_nil in H.
    - destruct (res _); [destruct (JSONOutput _)| |];
        try (now apply elem_of_nil in H).
      apply list_elem_of_singleton in H. discriminate.
    - right. apply list_elem_of_In, in_rev. now apply list_elem_of_In. }
  apply Hin in H' as [Hj|[-> Hv]]; [left; lia|]. right. split; [reflexivity|].
  destruct (res (trials currentCmd W (iterations currentCmd) 0 entry)) as [v|err|msg] eqn:E.
  - now destruct (Hv v).
  - intros [= ->]. now apply trials_no_return_nil in E.
  - discriminate.
Qed.

Lemma trial_follows_the_recorded_ones_witness :
  InTrial 0 TempDir ∈ trace (Execute (sample 0) tracer_missing) /\
  ((0 < length (Runs (result (Execute (sample 0) tracer_missing))))%nat \/
   (0%nat = length (Runs (result (Execute (sample 0) tracer_missing))) /\
    ended (Execute (sample 0) tracer_missing) <> Returned None)).
Proof.
  assert (H : InTrial 0 TempDir ∈ trace (Execute (sample 0) tracer_missing)).
  { vm_compute. do 1 constructor. }
  split; [exact H|].
  exact (trial_follows_the_recorded_ones (sample 0) tracer_missing 0%nat TempDir H).
Defined.

(** ** The temporary directories *)

Section Keeps.

Variable P : list event -> list event -> Prop.
Hypothesis P_nil : P [] [].
Hypothesis P_app : forall c1 d1 c2 d2, P c1 d1 -> P c2 d2 -> P (c1 ++ c2) (d1 ++ d2).

Lemma keeps_bind {A B} (m : M A) (k : A -> M B) :
  keeps P m -> (forall a, keeps P (k a)) -> keeps P (m ≫= k).
Proof.
  intros Hm Hk s. destruct (res (m s)) as [a|err|msg] eqn:E.
  - rewrite (bind_Val _ _ _ a E). cbn. apply P_app; [apply Hm|apply Hk].
  - rewrite (bind_Return _ _ _ _ E). apply Hm.
  - rewrite (bind_Panic _ _ _ _ E). apply Hm.
Qed.

Lemma keeps_pure {A} (a : A) : keeps P (mret a).
Proof. intros s. exact P_nil. Qed.

Lemma keeps_trials currentCmd W n :
  (forall i, keeps P (trial currentCmd W i)) ->
  forall i, keeps P (trials currentCmd W n i).
Proof.
  intros H. induction n as [|n IH]; intros i; cbn [trials].
  - apply keeps_pure.
  - apply keeps_bind; auto.
Qed.

End Keeps.

Lemma removals_app l1 l2 : removals (l1 ++ l2) = removals l1 ++ removals l2.
Proof. apply omap_app. Qed.

Lemma creations_app W l1 l2 : creations W (l1 ++ l2) = creations W l1 ++ creations W l2.
Proof. apply omap_app. Qed.

Lemma removes_its_own_nil W : removes_its_own W [] [].
Proof. now repeat split. Qed.

Lemma removes_its_own_app W c1 d1 c2 d2 :
  removes_its_own W c1 d1 -> removes_its_own W c2 d2 ->
  removes_its_own W (c1 ++ c2) (d1 ++ d2).
Proof.
  intros (H1 & H2 & H3) (H1' & H2' & H3'). unfold removes_its_own.
  rewrite !removals_app, !creations_app, H1, H2, H3, H1', H2', H3'. auto.
Qed.

(** Statements that neither create nor remove a directory. *)
Lemma sound_removes_its_own W {A} (m : M A) :
  sound (fun e => forall j dir, e <> InTrial j TempDir /\ e <> InTrial j (RemoveAll dir))
        (fun e => forall j dir, e <> InTrial j TempDir /\ e <> InTrial j (RemoveAll dir)) m ->
  keeps (removes_its_own W) m.
Proof.
  intros H s. destruct (H s) as (_ & _ & Hc & Hd & _).
  assert (Hnone : forall l,
            Forall (fun e => forall j dir, e <> InTrial j TempDir /\
                                           e <> InTrial j (RemoveAll dir)) l ->
            removals l = [] /\ creations W l = []).
  { intros l Hl. split; apply omap_none; (eapply Forall_impl; [exact Hl|]); cbn;
      intros [j a|a] Hne; try reflexivity; destruct a; try reflexivity.
    - now destruct (Hne j path) as [_ []].
    - now destruct (Hne j ""%string) as [[] _]. }
  destruct (Hnone _ Hc) as [Hc1 Hc2]. destruct (Hnone _ Hd) as [Hd1 Hd2].
  unfold removes_its_own. now rewrite Hc1, Hc2, Hd1, Hd2.
Qed.

Lemma untouched_removes_its_own W l :
  Forall (fun e => forall j dir, e <> InTrial j TempDir /\ e <> InTrial j (RemoveAll dir)) l ->
  removes_its_own W l [].
Proof.
  intros Hl. unfold removes_its_own. cbn.
  assert (H : removals l = [] /\ creations W l = []).
  { split; apply omap_none; (eapply Forall_impl; [exact Hl|]); cbn;
      intros [j a|a] Hne; try reflexivity; destruct a; try reflexivity.
    - now destruct (Hne j path) as [_ []].
    - now destruct (Hne j ""%string) as [[] _]. }
  destruct H as [-> ->]. auto.
Qed.

Lemma call_then {A B} ev (r : A) (k : A -> M B) s :
  (call ev r ≫= k) s =
    {| res := res (k r s); gst := gst (k r s);
       calls := ev :: calls (k r s); deferred := deferred (k r s) |}.
Proof. reflexivity. Qed.

Lemma defer_then {B} ev (k : unit -> M B) s :
  (defer ev ≫= k) s =
    {| res := res (k tt s); gst := gst (k tt s);
       calls := calls (k tt s); deferred := ev :: deferred (k tt s) |}.
Proof. reflexivity. Qed.

(** Run a sequence of calls and registrations whose outcomes are known. *)
Ltac run_calls :=
  repeat (rewrite ?call_then, ?defer_then;
          cbn [res gst calls deferred return_ panic mret M_ret pure];
          cbv beta iota).

Section Directories.

Variable currentCmd : Command.
Variable W : World.
Variable i : nat.

Local Abbreviation untouched :=
  (fun e : event => forall j dir, e <> InTrial j TempDir /\ e <> InTrial j (RemoveAll dir)).

(** The one statement that creates a directory registers its removal at
    once, and registers none when the creation failed. *)
Lemma setup_command_removes_its_own :
  keeps (removes_its_own W) (setup_command currentCmd W i).
Proof.
  intros s. unfold setup_command.
  destruct (NoTrace (Run currentCmd)); cbn [negb].
  - destruct (targetCmd currentCmd); now repeat split.
  - destruct (ioutil_TempDir W i) as [dir [e|]] eqn:Ed.
    { run_calls. unfold removes_its_own, creations. cbn. now rewrite Ed. }
    destruct (syscall_Mkfifo W i) as [e|].
    { run_calls. unfold removes_its_own, creations. cbn. now rewrite Ed. }
    destruct (os_OpenFile W i) as [e|].
    { run_calls. unfold removes_its_own, creations. cbn. now rewrite Ed. }
    destruct (strace_TraceExecCommand W i) as [e|];
      run_calls; unfold removes_its_own, creations; cbn; now rewrite Ed.
Qed.

Lemma untouched_stage st a : st <> Setup -> made_in st a -> untouched (InTrial i a).
Proof.
  intros Hst Ha j dir. split; intros [= _ ->]; now destruct st.
Qed.

Lemma preparations_removes_its_own :
  keeps (removes_its_own W) (preparations currentCmd W i).
Proof.
  unfold preparations.
  apply (keeps_bind _ (removes_its_own_app W)); [|intros _].
  { apply sound_removes_its_own, sound_prepare_script.
    intros a. now apply untouched_stage. }
  apply (keeps_bind _ (removes_its_own_app W)); [|intros _].
  { apply setup_command_removes_its_own. }
  apply (keeps_bind _ (removes_its_own_app W)); [|intros _].
  { apply sound_removes_its_own. unfold setup_stdio, open_log.
    sound_steps; intros j dir; split; discriminate. }
  apply (keeps_bind _ (removes_its_own_app W)); [|intros _].
  { apply sound_removes_its_own, sound_discard_snap_ns.
    intros a. now apply untouched_stage. }
  apply sound_removes_its_own, sound_lift, windowspec_no_return.
Qed.

End Directories.

Lemma omap_rev {X} (f : event -> option X) l : omap f (rev l) = rev (omap f l).
Proof.
  induction l as [|e l IH]; [reflexivity|]. cbn [rev].
  rewrite omap_app, IH. cbn. destruct (f e); cbn; [reflexivity|].
  now rewrite app_nil_r.
Qed.

Lemma trial_removes_its_own currentCmd W i :
  keeps (removes_its_own W) (trial currentCmd W i).
Proof.
  intros s. pose proof (trial_shape currentCmd W i s) as H. cbv zeta in H.
  pose proof (preparations_removes_its_own currentCmd W i s) as Hp.
  assert (Hext : forall l,
            Forall (fun e => forall j dir, e <> InTrial j TempDir /\
                                           e <> InTrial j (RemoveAll dir)) l ->
            removes_its_own W (calls (preparations currentCmd W i s) ++ l)
                              (deferred (preparations currentCmd W i s))).
  { intros l Hl. rewrite <- (app_nil_r (deferred _)).
    apply removes_its_own_app; [exact Hp|]. now apply untouched_removes_its_own. }
  destruct (res (preparations currentCmd W i s)) as [ws|err|msg].
  - destruct (profiling_FreeCaches W i) as [e|].
    + rewrite H. cbn [calls deferred]. apply Hext.
      repeat constructor; discriminate.
    + destruct (timed_run_sound currentCmd W i
                  (fun e => forall j dir, e <> InTrial j TempDir /\
                                          e <> InTrial j (RemoveAll dir))
                  (fun _ => True) ws) with (s := gst (preparations currentCmd W i s))
        as (_ & _ & Hc & _).
      { intros st a Hst Ha j dir. split; intros [= _ ->]; now destruct st. }
      destruct (res (timed_run currentCmd W i ws _)) as [[run startup]|err|msg];
        [| destruct H |]; rewrite H; cbn [calls deferred]; apply Hext.
      * constructor; [split; discriminate|]. apply Forall_app. split; [exact Hc|].
        destruct (JSONOutput _); repeat constructor; discriminate.
      * constructor; [split; discriminate|exact Hc].
  - rewrite H. exact Hp.
  - rewrite H. exact Hp.
Qed.

(** X11: no temporary directory is left behind, and none is removed that the
    call did not create: the directories removed in the course of a call are
    exactly those that [ioutil.TempDir] created in its trials, each removed
    once, last created first, however the call ends (with nil, with an
    error or with a panic). *)
Theorem temp_dirs_removed_in_reverse currentCmd W :
  removals (trace (Execute currentCmd W)) =
    rev (creations W (trace (Execute currentCmd W))).
Proof.
  destruct (Execute_trace_cases currentCmd W) as [(e & _ & _ & ->)|[_ ->]];
    [reflexivity|].
  cbn [trace].
  destruct (keeps_trials (removes_its_own W) (removes_its_own_nil W)
              (removes_its_own_app W) currentCmd W (iterations currentCmd)
              (trial_removes_its_own currentCmd W) 0%nat entry) as (H1 & H2 & H3).
  set (o := trials currentCmd W (iterations currentCmd) 0 entry) in *.
  assert (Hpre : forall l, Forall is_outside l -> removals l = [] /\ creations W l = []).
  { intros l Hl. split; apply omap_none; (eapply Forall_impl; [exact Hl|]);
      now intros [j a|a]. }
  destruct (Hpre (if nonempty (OutputFile (Run currentCmd))
                  then [Outside (EnsureExistsAndOpen (OutputFile (Run currentCmd)) true)]
                  else [])) as [Ha Hb].
  { destruct (nonempty _); repeat constructor. }
  destruct (Hpre match res o with
                 | Val _ => if JSONOutput (Run currentCmd)
                            then [Outside (Encode (outRes (gst o)))] else []
                 | _ => []
                 end) as [Hc Hd].
  { destruct (res o); [destruct (JSONOutput _)| |]; repeat constructor. }
  rewrite !removals_app, !creations_app, Ha, Hb, Hc, Hd, H2.
  unfold removals at 1, creations at 2. rewrite !omap_rev.
  fold (removals (deferred o)). fold (creations W (deferred o)).
  rewrite H1, H3. cbn [rev app]. now rewrite app_nil_r.
Qed.

(** ** What is written to the output *)

Lemma startup_lines_app l1 l2 :
  startup_lines (l1 ++ l2) = startup_lines l1 ++ startup_lines l2.
Proof. apply omap_app. Qed.

Section Lines.

Variable currentCmd : Command.
Variable W : World.

Lemma measure_prints_no_line i s :
  startup_lines (calls (measure currentCmd W i s)) = [] /\
  startup_lines (deferred (measure currentCmd W i s)) = [].
Proof.
  destruct (sound_measure currentCmd W i
              (fun e => forall j d, e <> InTrial j (PrintStartup d))
              (fun e => forall j d, e <> InTrial j (PrintStartup d))) with (s := s)
    as (_ & _ & Hc & Hd & _).
  { intros st a Ha j d [= _ ->]. now destruct st. }
  { intros a Ha j d [= _ ->]. exact Ha. }
  assert (Hnone : forall l, Forall (fun e => forall j d, e <> InTrial j (PrintStartup d)) l ->
                            startup_lines l = []).
  { intros l Hl. apply omap_none. eapply Forall_impl; [exact Hl|]. cbn.
    intros [j a|a] Hne; [|reflexivity]. destruct a; try reflexivity.
    now destruct (Hne j startup). }
  auto.
Qed.

Lemma trial_lines i s :
  startup_lines (deferred (trial currentCmd W i s)) = [] /\
  match res (trial currentCmd W i s) with
  | Val _ =>
      exists run,
        Runs (outRes (gst (trial currentCmd W i s))) = Runs (outRes s) ++ [run] /\
        startup_lines (calls (trial currentCmd W i s)) =
          if JSONOutput (Run currentCmd) then [] else [TimeToDisplay run]
  | _ =>
      outRes (gst (trial currentCmd W i s)) = outRes s /\
      startup_lines (calls (trial currentCmd W i s)) = []
  end.
Proof.
  destruct (measure_prints_no_line i s) as [Hc Hd].
  destruct (trial_cases currentCmd W i s) as [(run & startup & E)|[[err E]|[msg E]]].
  - rewrite (trial_Val _ _ _ _ _ _ E). cbn [res gst calls deferred outRes Runs].
    split; [exact Hd|]. exists run. split; [reflexivity|].
    rewrite startup_lines_app, Hc. cbn [app].
    apply measure_Val_inv in E as (ws & s1 & s2 & l1 & l2 & _ & _ & _ & _ & Hb).
    apply build_run_Val in Hb as (_ & -> & _).
    now destruct (JSONOutput _).
  - rewrite (trial_Return _ _ _ _ _ E). cbn [res gst calls deferred].
    rewrite measure_outRes. auto.
  - rewrite (trial_Panic _ _ _ _ _ E). cbn [res gst calls deferred].
    rewrite measure_outRes. auto.
Qed.

Lemma trials_lines n i s :
  errs s = [] ->
  let o := trials currentCmd W n i s in
  startup_lines (deferred o) = [] /\
  exists rs,
    Runs (outRes (gst o)) = Runs (outRes s) ++ rs /\
    startup_lines (calls o) =
      if JSONOutput (Run currentCmd) then [] else map TimeToDisplay rs.
Proof.
  cbv zeta. revert n i s.
  apply (trials_ind currentCmd W (fun n i s o =>
    startup_lines (deferred o) = [] /\
    exists rs,
      Runs (outRes (gst o)) = Runs (outRes s) ++ rs /\
      startup_lines (calls o) =
        if JSONOutput (Run currentCmd) then [] else map TimeToDisplay rs)).
  - intros i s. split; [reflexivity|]. exists []. cbn. rewrite app_nil_r.
    split; [reflexivity|]. now destruct (JSONOutput _).
  - intros n i s o Hs Ht _ (Hd & rs & Hr & Hc).
    destruct (trial_lines i s) as [Hd' H]. rewrite Ht in H.
    destruct H as (run & Hr' & Hc').
    cbn [res gst calls deferred]. rewrite !startup_lines_app, Hd, Hd', Hc, Hc'.
    split; [reflexivity|]. exists (run :: rs). split.
    + rewrite Hr, Hr'. now rewrite <- app_assoc.
    + now destruct (JSONOutput _).
  - intros n i s Hs Hv. destruct (trial_lines i s) as [Hd H].
    split; [exact Hd|]. exists []. rewrite app_nil_r.
    destruct (res (trial currentCmd W i s)) as [v|err|msg]; [now destruct (Hv v)| |];
      destruct H as [-> ->]; (split; [reflexivity|]); now destruct (JSONOutput _).
Qed.

End Lines.

(** X12: in tabular mode one [Total startup time] line is printed per record, in
    the order of the records, and it shows the [TimeToDisplay] of its record;
    a trial that does not get to its record prints no such line.  In JSON
    mode none is printed. *)
Theorem startup_lines_match_records currentCmd W :
  startup_lines (trace (Execute currentCmd W)) =
    if JSONOutput (Run currentCmd) then []
    else map TimeToDisplay (Runs (result (Execute currentCmd W))).
Proof.
  destruct (Execute_trace_cases currentCmd W) as [(e & _ & _ & ->)|[_ ->]].
  { cbn. now destruct (JSONOutput _). }
  cbn [result trace].
  destruct (trials_lines currentCmd W (iterations currentCmd) 0 entry eq_refl)
    as (Hd & rs & Hr & Hc).
  set (o := trials currentCmd W (iterations currentCmd) 0 entry) in *.
  cbn in Hr. rewrite Hr.
  unfold startup_lines. rewrite !omap_app, omap_rev.
  fold (startup_lines (calls o)). fold (startup_lines (deferred o)).
  rewrite Hc, Hd.
  assert (Hpre : omap (fun e => match e with
                                | InTrial _ (PrintStartup startup) => Some startup
                                | _ => None
                                end)
                   (if nonempty (OutputFile (Run currentCmd))
                    then [Outside (EnsureExistsAndOpen (OutputFile (Run currentCmd)) true)]
                    else []) = []) by now destruct (nonempty _).
  rewrite Hpre. cbn [app rev].
  destruct (res o); [destruct (JSONOutput _)| |]; cbn; now rewrite ?app_nil_r.
Qed.

Section Json.

Variable currentCmd : Command.
Variable W : World.
Hypothesis json : JSONOutput (Run currentCmd) = true.

Local Abbreviation silent := (fun e : event => ~ writes_output (action_of e)).

Lemma measure_silent i : sound silent silent (measure currentCmd W i).
Proof.
  assert (HQ : forall st a, st <> Collect -> made_in st a -> silent (InTrial i a)).
  { intros st a Hst Ha. destruct st, a; cbn in *; tauto. }
  assert (HD : forall a, deferred_by_trial a -> silent (InTrial i a)).
  { intros a Ha. destruct a; cbn in *; tauto. }
  unfold measure. sound_steps;
    try (first [ apply sound_prepare_script | apply sound_setup_command
               | apply sound_setup_stdio | apply sound_discard_snap_ns
               | apply sound_free_caches | apply sound_start_and_wait
               | apply sound_close_and_kill | apply sound_fallback_close
               | apply sound_restore_script | apply sound_build_run
               | apply windowspec_no_return ];
         first [ exact HD
               | intros ? ?; eapply HQ; [..|eassumption]; discriminate ]).
  unfold collect_trace. rewrite json. cbn [negb when].
  sound_steps; try apply (sound_pure silent silent tt); cbn; tauto.
Qed.

Lemma trial_silent i s :
  Forall silent (calls (trial currentCmd W i s)) /\
  Forall silent (deferred (trial currentCmd W i s)).
Proof.
  destruct (measure_silent i s) as (_ & _ & Hc & Hd & _).
  destruct (trial_cases currentCmd W i s) as [(run & startup & E)|[[err E]|[msg E]]].
  - rewrite (trial_Val _ _ _ _ _ _ E). cbn [calls deferred]. rewrite json.
    now rewrite app_nil_r.
  - now rewrite (trial_Return _ _ _ _ _ E).
  - now rewrite (trial_Panic _ _ _ _ _ E).
Qed.

Lemma trials_silent n i s :
  Forall silent (calls (trials currentCmd W n i s)) /\
  Forall silent (deferred (trials currentCmd W n i s)).
Proof.
  apply (keeps_trials (fun c d => Forall silent c /\ Forall silent d)); try easy.
  - intros c1 d1 c2 d2 [? ?] [? ?]. split; now apply Forall_app.
  - intros j s'. apply trial_silent.
Qed.

End Json.

(** X13: in JSON mode the encoded result is the only thing written to the output:
    no trial prints the table of its timing or its total line, so whatever
    is written to [w] is the one encoding of the result, by a call that
    returns nil. *)
Theorem json_mode_writes_only_the_result currentCmd W e :
  JSONOutput (Run currentCmd) = true ->
  e ∈ trace (Execute currentCmd W) ->
  writes_output (action_of e) ->
  e = Outside (Encode (result (Execute currentCmd W))) /\
  ended (Execute currentCmd W) = Returned None.
Proof.
  intros Hj.
  destruct (Execute_trace_cases currentCmd W) as [(e' & _ & _ & ->)|[_ ->]];
    cbn [ended result trace].
  { intros H. apply list_elem_of_singleton in H as ->. intros []. }
  destruct (trials_silent currentCmd W Hj (iterations currentCmd) 0 entry) as [Hc Hd].
  rewrite Forall_forall in Hc, Hd.
  rewrite !elem_of_app. intros [H|[H|[H|H]]] Hw.
  - destruct (nonempty _); [|now apply elem_of_nil in H].
    apply list_elem_of_singleton in H as ->. destruct Hw.
  - now destruct (Hc e H).
  - destruct (res _) as [[]| |]; try (now apply elem_of_nil in H).
    rewrite Hj in H. apply list_elem_of_singleton in H as ->. now split.
  - apply list_elem_of_In, in_rev, list_elem_of_In in H. now destruct (Hd e H).
Qed.

Lemma json_mode_writes_only_the_result_witness :
  JSONOutput (Run sample_json) = true /\
  Outside (Encode (result (Execute sample_json calm))) ∈ trace (Execute sample_json calm) /\
  writes_output (action_of (Outside (Encode (result (Execute sample_json calm))))) /\
  ended (Execute sample_json calm) = Returned None.
Proof.
  assert (H : Outside (Encode (result (Execute sample_json calm))) ∈
              trace (Execute sample_json calm)).
  { vm_compute. do 14 constructor. }
  split; [reflexivity|]. split; [exact H|]. split; [exact I|].
  exact (proj2 (json_mode_writes_only_the_result sample_json calm _ eq_refl H I)).
Defined.

(** ** What comes immediately before what *)

Section Preceded.

Variables a b : action.
Hypothesis distinct : a <> b.

Lemma preceded_absent l :
  Forall (fun e => forall i, e <> InTrial i b) l -> preceded a b l.
Proof.
  intros Hl l1 l2 i ->. rewrite Forall_app, Forall_cons in Hl.
  destruct Hl as (_ & Hne & _). now destruct (Hne i).
Qed.

Lemma preceded_nil : preceded a b [].
Proof. apply preceded_absent. constructor. Qed.

Lemma preceded_app l l' : preceded a b l -> preceded a b l' -> preceded a b (l ++ l').
Proof.
  intros H H' l1 l2 i E. apply app_eq_app in E as [m [[-> E]|[-> E]]].
  - destruct m as [|e m].
    + cbn in E. destruct (H' [] l2 i) as [l0 E']; [now rewrite <- E|].
      now destruct l0.
    + injection E as <- ->. destruct (H l1 m i eq_refl) as [l0 ->]. eauto.
  - destruct (H' m l2 i E) as [l0 ->]. exists (l ++ l0). now rewrite app_assoc.
Qed.

Lemma preceded_pair i l :
  Forall (fun e => forall j, e <> InTrial j b) l ->
  preceded a b (InTrial i a :: InTrial i b :: l).
Proof.
  intros Hl l1 l2 j E.
  destruct l1 as [|e1 l1]; [injection E as _ E; now destruct distinct|].
  injection E as <- E.
  destruct l1 as [|e2 l1]; [injection E as -> _; now exists []|].
  injection E as <- E. subst l. rewrite Forall_app, Forall_cons in Hl.
  destruct Hl as (_ & Hne & _). now destruct (Hne j).
Qed.

End Preceded.

Section FlushThenStart.

Variable currentCmd : Command.
Variable W : World.

Local Abbreviation no_start := (fun e : event => forall j, e <> InTrial j Start).

Lemma trial_flush_then_start i s :
  preceded FreeCaches Start (calls (trial currentCmd W i s)) /\
  Forall no_start (deferred (trial currentCmd W i s)).
Proof.
  pose proof (trial_shape currentCmd W i s) as H. cbv zeta in H.
  destruct (preparations_sound currentCmd W i no_start no_start) with (s := s)
    as (_ & _ & Hc & Hd & _).
  { intros st a Hl Hc Ha j [= _ ->]. destruct st; cbn in *; tauto. }
  { intros a Ha j [= _ ->]. exact Ha. }
  assert (Hp : preceded FreeCaches Start (calls (preparations currentCmd W i s))).
  { now apply preceded_absent. }
  destruct (res (preparations currentCmd W i s)) as [ws|err|msg].
  - destruct (profiling_FreeCaches W i) as [e|].
    + rewrite H. cbn [calls deferred]. split; [|exact Hd].
      apply preceded_app; [exact Hp|]. apply preceded_absent.
      repeat constructor. discriminate.
    + destruct (timed_run_calls currentCmd W no_start i ws
                  (gst (preparations currentCmd W i s))) as (rest & Ht & Hr).
      { intros st a Ha _ j [= _ Heq]. now apply Ha. }
      destruct (res (timed_run currentCmd W i ws _)) as [[run startup]|err|msg];
        [| destruct H |]; rewrite H; cbn [calls deferred]; (split; [|exact Hd]);
        rewrite Ht; apply preceded_app; try exact Hp; cbn [app];
        apply preceded_pair; try discriminate; auto.
      apply Forall_app. split; [exact Hr|].
      destruct (JSONOutput _); repeat constructor. discriminate.
  - rewrite H. auto.
  - rewrite H. auto.
Qed.

Lemma trials_flush_then_start n i s :
  preceded FreeCaches Start (calls (trials currentCmd W n i s)) /\
  Forall no_start (deferred (trials currentCmd W n i s)).
Proof.
  apply (keeps_trials (fun c d => preceded FreeCaches Start c /\ Forall no_start d)).
  - split; [apply preceded_nil|constructor].
  - intros c1 d1 c2 d2 [? ?] [? ?].
    split; [now apply preceded_app|now apply Forall_app].
  - intros j s'. apply trial_flush_then_start.
Qed.

End FlushThenStart.

(** X14: the caches are dropped right before every start: wherever the command is
    started in the trace of a call, the action just before it is the
    [FreeCaches] of the same trial; nothing is run between the two. *)
Theorem caches_dropped_right_before_start currentCmd W l1 l2 i :
  trace (Execute currentCmd W) = l1 ++ InTrial i Start :: l2 ->
  exists l0, l1 = l0 ++ [InTrial i FreeCaches].
Proof.
  revert l1 l2 i. change (preceded FreeCaches Start (trace (Execute currentCmd W))).
  destruct (Execute_trace_cases currentCmd W) as [(e & _ & _ & ->)|[_ ->]];
    cbn [trace].
  { apply preceded_absent. repeat constructor. discriminate. }
  destruct (trials_flush_then_start currentCmd W (iterations currentCmd) 0 entry)
    as [Hc Hd].
  repeat apply preceded_app.
  - apply preceded_absent. destruct (nonempty _); repeat constructor. discriminate.
  - exact Hc.
  - apply preceded_absent.
    destruct (res _); [destruct (JSONOutput _)| |]; repeat constructor. discriminate.
  - apply preceded_absent. apply Forall_forall. intros e He.
    apply list_elem_of_In, in_rev, list_elem_of_In in He.
    rewrite Forall_forall in Hd. now apply Hd.
Qed.

Lemma caches_dropped_right_before_start_witness :
  exists l1 l2,
    trace (Execute (sample 0) calm) = l1 ++ InTrial 0 Start :: l2 /\
    exists l0, l1 = l0 ++ [InTrial 0 FreeCaches].
Proof.
  eexists [InTrial 0 TempDir; _; _; _; _; InTrial 0 FreeCaches], _.
  assert (H : trace (Execute (sample 0) calm) =
              [InTrial 0 TempDir;
               InTrial 0 (Mkfifo "/tmp/exec-trace0/strace.fifo");
               InTrial 0 (OpenFile "/tmp/exec-trace0/strace.fifo");
               InTrial 0 (GoTraceExecveTimings "/tmp/exec-trace0/strace.fifo");
               InTrial 0 (TraceExecCommand "/tmp/exec-trace0/strace.fifo" ["sample-app"%string]);
               InTrial 0 FreeCaches] ++ InTrial 0 Start ::
              skipn 7 (trace (Execute (sample 0) calm))) by (vm_compute; reflexivity).
  split; [exact H|].
  exact (caches_dropped_right_before_start (sample 0) calm _ _ 0%nat H).
Defined.

(** One step through a sequence, for a relation that is kept by appending. *)
Ltac keeps_step Happ :=
  lazymatch goal with
  | |- keeps _ (_ ≫= _) => apply (keeps_bind _ Happ); [|intros ?]
  | |- keeps _ (match ?x with _ => _ end) => destruct x
  end.

Section CloseThenWait.

Variable currentCmd : Command.
Variable W : World.
Variable i : nat.

Local Abbreviation no_recv := (fun e : event => forall j, e <> InTrial j RecvDone).
Local Abbreviation closes_first :=
  (fun c d : list event => preceded FifoClose RecvDone c /\ Forall no_recv d).

Lemma closes_first_app c1 d1 c2 d2 :
  closes_first c1 d1 -> closes_first c2 d2 -> closes_first (c1 ++ c2) (d1 ++ d2).
Proof.
  intros [? ?] [? ?]. split; [now apply preceded_app|now apply Forall_app].
Qed.

Lemma sound_closes_first {A} (m : M A) : sound no_recv no_recv m -> keeps closes_first m.
Proof.
  intros H s. destruct (H s) as (_ & _ & Hc & Hd & _).
  split; [now apply preceded_absent|exact Hd].
Qed.

Lemma no_recv_stage st a : st <> Collect -> made_in st a -> no_recv (InTrial i a).
Proof. intros Hst Ha j [= _ ->]. now destruct st. Qed.

Lemma no_recv_deferred a : deferred_by_trial a -> no_recv (InTrial i a).
Proof. intros Ha j [= _ ->]. exact Ha. Qed.

(** The collection closes the fifo and then waits for the reader, at once. *)
Lemma collect_trace_closes_first : keeps closes_first (collect_trace currentCmd W i).
Proof.
  intros s. unfold collect_trace.
  destruct (NoTrace (Run currentCmd)); cbn [negb].
  { split; [apply preceded_nil|constructor]. }
  rewrite call_then. cbn [calls deferred]. rewrite call_then. cbn [calls deferred].
  match goal with
  | |- _ /\ Forall _ (deferred (?m ?s0)) =>
      assert (Hs : sound no_recv no_recv m)
  end.
  { destruct (strace_TraceExecveTimings W i) as [slg [e|]]; sound_steps;
      try apply (sound_pure no_recv no_recv tt); intros j; discriminate. }
  match type of Hs with
  | sound _ _ ?m => destruct (Hs s) as (_ & _ & Hc & Hd & _)
  end.
  split; [|exact Hd]. apply preceded_pair; [discriminate|exact Hc].
Qed.

Lemma measure_closes_first : keeps closes_first (measure currentCmd W i).
Proof.
  unfold measure.
  repeat keeps_step closes_first_app;
    try (apply sound_closes_first;
         first [ apply sound_prepare_script | apply sound_setup_command
               | apply sound_setup_stdio | apply sound_discard_snap_ns
               | apply sound_free_caches | apply sound_start_and_wait
               | apply sound_close_and_kill | apply sound_fallback_close
               | apply sound_restore_script | apply sound_build_run
               | apply sound_pure
               | apply sound_lift, windowspec_no_return ];
         first [ exact no_recv_deferred
               | intros act Hact; eapply no_recv_stage; [|exact Hact]; discriminate ]).
  apply collect_trace_closes_first.
Qed.

Lemma trial_closes_first : keeps closes_first (trial currentCmd W i).
Proof.
  intros s. destruct (measure_closes_first s) as [Hc Hd].
  destruct (trial_cases currentCmd W i s) as [(run & startup & E)|[[err E]|[msg E]]].
  - rewrite (trial_Val _ _ _ _ _ _ E). cbn [calls deferred]. split; [|exact Hd].
    apply preceded_app; [exact Hc|]. apply preceded_absent.
    destruct (JSONOutput _); repeat constructor. discriminate.
  - now rewrite (trial_Return _ _ _ _ _ E).
  - now rewrite (trial_Panic _ _ _ _ _ E).
Qed.

End CloseThenWait.

(** X15: the reader is waited for only right after the fifo is closed: wherever
    the trace of a call has the receive from [doneCh], the action just before
    it is the [fw.Close()] of the same trial, which gives the tracer its
    end of file. *)
Theorem reader_awaited_right_after_close currentCmd W l1 l2 i :
  trace (Execute currentCmd W) = l1 ++ InTrial i RecvDone :: l2 ->
  exists l0, l1 = l0 ++ [InTrial i FifoClose].
Proof.
  revert l1 l2 i. change (preceded FifoClose RecvDone (trace (Execute currentCmd W))).
  destruct (Execute_trace_cases currentCmd W) as [(e & _ & _ & ->)|[_ ->]];
    cbn [trace].
  { apply preceded_absent. repeat constructor. discriminate. }
  destruct (keeps_trials
              (fun c d => preceded FifoClose RecvDone c /\
                          Forall (fun e => forall j, e <> InTrial j RecvDone) d)
              ltac:(split; [apply preceded_nil|constructor])
              closes_first_app currentCmd W (iterations currentCmd)
              (trial_closes_first currentCmd W) 0%nat entry) as [Hc Hd].
  apply preceded_app; [|apply preceded_app; [exact Hc|apply preceded_app]].
  - apply preceded_absent. destruct (nonempty _); repeat constructor. discriminate.
  - apply preceded_absent.
    destruct (res _); [destruct (JSONOutput _)| |]; repeat constructor. discriminate.
  - apply preceded_absent. apply Forall_forall. intros e He.
    apply list_elem_of_In, in_rev, list_elem_of_In in He.
    rewrite Forall_forall in Hd. now apply Hd.
Qed.

Lemma reader_awaited_right_after_close_witness :
  exists l1 l2,
    trace (Execute (sample 0) calm) = l1 ++ InTrial 0 RecvDone :: l2 /\
    exists l0, l1 = l0 ++ [InTrial 0 FifoClose].
Proof.
  exists (firstn 12 (trace (Execute (sample 0) calm))),
         (skipn 13 (trace (Execute (sample 0) calm))).
  assert (H : trace (Execute (sample 0) calm) =
              firstn 12 (trace (Execute (sample 0) calm)) ++ InTrial 0 RecvDone ::
              skipn 13 (trace (Execute (sample 0) calm))) by (vm_compute; reflexivity).
  split; [exact H|].
  exact (reader_awaited_right_after_close (sample 0) calm _ _ 0%nat H).
Defined.

(** ** The termination cascade *)

Lemma cascade_steps_app l1 l2 :
  cascade_steps (l1 ++ l2) = cascade_steps l1 ++ cascade_steps l2.
Proof. apply omap_app. Qed.

Lemma cascade_steps_none l :
  Forall (fun e => forall j a, e = InTrial j a -> ~ closing a \/ exists wid, a = PidForWindowID wid) l ->
  cascade_steps l = [].
Proof.
  intros Hl. apply omap_none. eapply Forall_impl; [exact Hl|]. cbn.
  intros [j a|a] H; [|reflexivity].
  destruct (H j a eq_refl) as [Hn|[wid ->]]; [|reflexivity].
  destruct a; try reflexivity; now destruct Hn.
Qed.

Section CascadeSteps.

Variable currentCmd : Command.
Variable W : World.
Variable i : nat.

Local Abbreviation x := (Run currentCmd).

Lemma logError_steps err s : cascade_steps (calls (logError currentCmd i err s)) = [].
Proof. cbn. now destruct (ShowErrors currentCmd). Qed.

(** Lines 295-303: the lookups close nothing and kill nothing; they leave a
    slice of the length they found and [tryWmctrl] set when one failed. *)
Lemma resolve_pids_spec wids : forall k pids s,
  let o := resolve_pids currentCmd W i k wids pids s in
  exists pids',
    res o = Val (pids', existsb (lookup_fails W i) (seq k (length wids))) /\
    length pids' = length pids /\
    cascade_steps (calls o) = [].
Proof.
  induction wids as [|wid rest IH]; intros k pids s o; subst o.
  { exists pids. now repeat split. }
  rewrite resolve_pids_cons. cbn [length seq existsb]. unfold lookup_fails at 1.
  destruct (xtool_PidForWindowID W i k) as [pid [e|]]; cbn [snd orb]; cbv zeta;
    cbn [res calls].
  - exists pids. repeat split.
    change (InTrial i (PidForWindowID wid) :: ?l)
      with ([InTrial i (PidForWindowID wid)] ++ l).
    now rewrite cascade_steps_app, logError_steps.
  - destruct (IH (S k) (<[k := pid]> pids) s) as (pids' & Hr & Hl & Hc).
    exists pids'. split; [exact Hr|]. split; [now rewrite Hl, length_insert|].
    change (InTrial i (PidForWindowID wid) :: ?l)
      with ([InTrial i (PidForWindowID wid)] ++ l).
    now rewrite cascade_steps_app, Hc.
Qed.

(** The slice that the lookups leave: the pid that was found at every index
    they got to without a failure, and what was there everywhere else. *)
Lemma resolve_pids_slice wids : forall k pids s pids' b,
  (k + length wids <= length pids)%nat ->
  res (resolve_pids currentCmd W i k wids pids s) = Val (pids', b) ->
  forall j,
    pids' !! j =
      if (k <=? j)%nat && (j <? k + length wids)%nat &&
         negb (existsb (lookup_fails W i) (seq k (S j - k)))
      then Some (fst (xtool_PidForWindowID W i j))
      else pids !! j.
Proof.
  induction wids as [|wid rest IH]; intros k pids s pids' b Hlen Hr j.
  { cbn in Hr. injection Hr as <- _. cbn [length].
    destruct (k <=? j)%nat eqn:E1; [|reflexivity].
    destruct (j <? k + 0)%nat eqn:E2; [|reflexivity].
    apply Nat.leb_le in E1. apply Nat.ltb_lt in E2. lia. }
  rewrite resolve_pids_cons in Hr. cbn [length] in Hlen |- *.
  destruct (k <=? j)%nat eqn:E1.
  - apply Nat.leb_le in E1.
    replace (S j - k)%nat with (S (j - k)) by lia. cbn [seq existsb].
    unfold lookup_fails at 1.
    destruct (xtool_PidForWindowID W i k) as [pid [e|]] eqn:Ek; cbn [snd orb negb].
    + cbn in Hr. injection Hr as <- _. now rewrite andb_false_r.
    + cbv zeta in Hr. cbn [res] in Hr.
      rewrite (IH (S k) (<[k:=pid]> pids) s pids' b
                 ltac:(rewrite length_insert; lia) Hr j).
      destruct (Nat.eq_dec j k) as [->|Hne].
      * replace (S k <=? k)%nat with false by (symmetry; apply Nat.leb_gt; lia).
        cbn [andb]. rewrite Nat.sub_diag. cbn [seq existsb negb].
        replace (k <? k + S (length rest))%nat with true
          by (symmetry; apply Nat.ltb_lt; lia).
        cbn [andb]. rewrite list_lookup_insert_eq by lia. now rewrite Ek.
      * replace (S k <=? j)%nat with true by (symmetry; apply Nat.leb_le; lia).
        replace (j <? S k + length rest)%nat with (j <? k + S (length rest))%nat
          by (f_equal; lia).
        replace (S j - S k)%nat with (j - k)%nat by lia.
        rewrite list_lookup_insert_ne by lia. reflexivity.
  - cbn [andb]. apply Nat.leb_gt in E1.
    destruct (xtool_PidForWindowID W i k) as [pid [e|]] eqn:Ek.
    + cbn in Hr. now injection Hr as <- _.
    + cbv zeta in Hr. cbn [res] in Hr.
      rewrite (IH (S k) (<[k:=pid]> pids) s pids' b
                 ltac:(rewrite length_insert; lia) Hr j).
      replace (S k <=? j)%nat with false by (symmetry; apply Nat.leb_gt; lia).
      cbn [andb]. rewrite list_lookup_insert_ne by lia. reflexivity.
Qed.

(** Lines 305-312: every window is asked to close, in order, whatever the
    requests before it returned. *)
Lemma close_windows_spec wids : forall k b s,
  let o := close_windows currentCmd W i k wids b s in
  res o = Val (b || existsb (close_fails W i) (seq k (length wids))) /\
  cascade_steps (calls o) = map Closed wids.
Proof.
  induction wids as [|wid rest IH]; intros k b s o; subst o.
  { cbn. now rewrite orb_false_r. }
  rewrite close_windows_cons. cbn [length seq existsb map]. unfold close_fails at 1.
  destruct (xtool_CloseWindowID W i k) as [e|]; cbv zeta; cbn [res calls orb].
  - destruct (IH (S k) true (gst (logError currentCmd i (ErrWrap "closing window: " e) s)))
      as [Hr Hc].
    split; [now rewrite Hr, orb_true_r|].
    change (InTrial i (CloseWindowID wid) :: ?l)
      with ([InTrial i (CloseWindowID wid)] ++ l).
    now rewrite !cascade_steps_app, logError_steps, Hc.
  - destruct (IH (S k) b s) as [Hr Hc]. split; [exact Hr|].
    change (InTrial i (CloseWindowID wid) :: ?l)
      with ([InTrial i (CloseWindowID wid)] ++ l).
    now rewrite cascade_steps_app, Hc.
Qed.

(** Lines 314-325: every pid of the slice is killed, in order. *)
Lemma kill_pids_spec pids : forall k b s,
  let o := kill_pids currentCmd W i k pids b s in
  res o = Val (b || existsb (kill_fails W i) (seq k (length pids))) /\
  cascade_steps (calls o) = map Killed pids.
Proof.
  induction pids as [|pid rest IH]; intros k b s o; subst o.
  { cbn. now rewrite orb_false_r. }
  rewrite kill_pids_cons. cbn [length seq existsb map]. unfold kill_fails at 1.
  destruct (proc_Signal W i k) as [e|];
    [destruct (negb (strings_Contains (Error e) "process already finished"))|].
  - set (err := ErrWrap _ e). cbv zeta; cbn [res calls orb].
    destruct (IH (S k) true (gst (logError currentCmd i err s))) as [Hr Hc].
    split; [now rewrite Hr, orb_true_r|].
    change (InTrial i (SignalKill pid) :: ?l) with ([InTrial i (SignalKill pid)] ++ l).
    now rewrite !cascade_steps_app, logError_steps, Hc.
  - cbv zeta; cbn [res calls orb]. destruct (IH (S k) b s) as [Hr Hc].
    split; [exact Hr|].
    change (InTrial i (SignalKill pid) :: ?l) with ([InTrial i (SignalKill pid)] ++ l).
    now rewrite cascade_steps_app, Hc.
  - cbv zeta; cbn [res calls orb]. destruct (IH (S k) b s) as [Hr Hc].
    split; [exact Hr|].
    change (InTrial i (SignalKill pid) :: ?l) with ([InTrial i (SignalKill pid)] ++ l).
    now rewrite cascade_steps_app, Hc.
Qed.

(** Lines 291-326 for the windows that were found: one close request per
    window, then one kill per window. *)
Lemma close_and_kill_spec wids s :
  let o := close_and_kill currentCmd W i true wids s in
  res o = Val (cascade_fails W i (length wids)) /\
  cascade_steps (calls o) =
    map Closed wids ++ map Killed (killed_pids W i (length wids)).
Proof.
  cbv zeta. unfold close_and_kill.
  destruct (resolve_pids_spec wids 0 (replicate (length wids) 0) s)
    as (pids & Hr & Hl & Hc).
  rewrite length_replicate in Hl.
  assert (Hp : pids = killed_pids W i (length wids)).
  { apply list_eq. intros j.
    rewrite (resolve_pids_slice wids 0 (replicate (length wids) 0) s pids _
               ltac:(rewrite length_replicate; cbn; lia) Hr j).
    unfold killed_pids. rewrite list_lookup_fmap. cbn [Nat.leb andb Nat.add].
    rewrite Nat.sub_0_r.
    destruct (j <? length wids)%nat eqn:E; cbn [andb].
    - apply Nat.ltb_lt in E. rewrite lookup_seq_lt by exact E.
      change (0 + j)%nat with j. unfold fmap, option_fmap, option_map.
      destruct (existsb (lookup_fails W i) (seq 0 (S j))); cbn [negb]; [|reflexivity].
      now rewrite lookup_replicate_2.
    - apply Nat.ltb_ge in E. rewrite lookup_seq_ge by exact E. cbn.
      apply lookup_replicate_None. lia. }
  subst pids.
  rewrite (bind_Val _ _ _ _ Hr). cbn [res calls]. cbv beta iota.
  set (s1 := gst _). clearbody s1.
  destruct (close_windows_spec wids 0
              (existsb (lookup_fails W i) (seq 0 (length wids))) s1) as [Hr' Hc'].
  rewrite (bind_Val _ _ _ _ Hr'). cbn [res calls].
  set (s2 := gst _). clearbody s2.
  destruct (kill_pids_spec (killed_pids W i (length wids)) 0
              (existsb (lookup_fails W i) (seq 0 (length wids)) ||
               existsb (close_fails W i) (seq 0 (length wids))) s2) as [Hr'' Hc''].
  split.
  - rewrite Hr'', Hl. reflexivity.
  - now rewrite !cascade_steps_app, Hc, Hc', Hc''.
Qed.

(** Lines 328-333. *)
Lemma fallback_close_spec b s :
  cascade_steps (calls (fallback_close currentCmd W i b s)) =
    if b then [FellBack (WindowName x)] else [].
Proof.
  destruct b; [|reflexivity]. unfold fallback_close, when, wmctrlCloseWindow.
  rewrite bind_assoc, call_then. cbn [calls].
  change (InTrial i (Wmctrl (WindowName x)) :: ?l)
    with ([InTrial i (Wmctrl (WindowName x))] ++ l).
  rewrite cascade_steps_app. cbn [cascade_steps omap app]. cbn. f_equal.
  apply cascade_steps_none.
  match goal with
  | |- Forall ?Q (calls (?m ?s0)) =>
      assert (Hs : sound Q (fun _ => True) m); [|now destruct (Hs s0) as (_ & _ & ? & _)]
  end.
  destruct (wmctrl_CombinedOutput W i) as [out [e|]]; sound_steps;
    intros j a [= _ <-]; left; exact id.
Qed.

End CascadeSteps.

Section TimedRunSteps.

Variable currentCmd : Command.
Variable W : World.
Variable i : nat.

Local Abbreviation x := (Run currentCmd).
Local Abbreviation stepless :=
  (fun e : event => forall j a, e = InTrial j a ->
                                ~ closing a \/ exists wid, a = PidForWindowID wid).

Lemma stepless_stage st a :
  st <> Cascade -> st <> Fallback -> made_in st a -> stepless (InTrial i a).
Proof. intros H1 H2 Ha j b [= _ <-]. left. destruct st, a; cbn in *; tauto. Qed.

Lemma stepless_deferred a : deferred_by_trial a -> stepless (InTrial i a).
Proof. intros Ha j b [= _ <-]. left. destruct a; cbn in *; tauto. Qed.

(** The steps of the timed run are those of its cascade: a close request
    for every window the cascade is run on, in the order in which the wait
    returned them; then the kills; then wmctrl, if one of the lookups,
    closes or kills failed. *)
Lemma timed_run_steps ws s :
  cascade_steps (calls (timed_run currentCmd W i ws s)) =
    map Closed (cascade_windows currentCmd W i) ++
    map Killed (killed_pids W i (length (cascade_windows currentCmd W i))) ++
    if cascade_fails W i (length (cascade_windows currentCmd W i))
    then [FellBack (WindowName x)] else [].
Proof.
  unfold timed_run.
  pose proof (start_and_wait_res currentCmd W i ws s) as E1.
  destruct (sound_start_and_wait currentCmd W i stepless (fun _ => True) ws) with (s := s)
    as (_ & _ & Hc1 & _).
  { intros a. apply stepless_stage; discriminate. }
  apply cascade_steps_none in Hc1.
  rewrite (bind_Val _ _ _ _ E1). cbn [calls]. cbv beta iota.
  set (s1 := gst _). clearbody s1. rewrite cascade_steps_app, Hc1. cbn [app].
  assert (Hcak : exists b',
            b' = cascade_fails W i (length (cascade_windows currentCmd W i)) /\
            res (close_and_kill currentCmd W i
                   (if NoWindowWait x then true
                    else match snd (xtool_WaitForWindow W i) with
                         | Some _ => false
                         | None => true
                         end)
                   (if NoWindowWait x then [] else fst (xtool_WaitForWindow W i)) s1)
              = Val b' /\
            cascade_steps (calls (close_and_kill currentCmd W i
                   (if NoWindowWait x then true
                    else match snd (xtool_WaitForWindow W i) with
                         | Some _ => false
                         | None => true
                         end)
                   (if NoWindowWait x then [] else fst (xtool_WaitForWindow W i)) s1))
              = map Closed (cascade_windows currentCmd W i) ++
                map Killed (killed_pids W i (length (cascade_windows currentCmd W i)))).
  { unfold cascade_windows. destruct (NoWindowWait x).
    - destruct (close_and_kill_spec currentCmd W i [] s1) as (Hr & Hc).
      exists (cascade_fails W i 0). auto.
    - destruct (snd (xtool_WaitForWindow W i)) as [e|].
      + exists false. now repeat split.
      + destruct (close_and_kill_spec currentCmd W i (fst (xtool_WaitForWindow W i)) s1)
          as (Hr & Hc).
        exists (cascade_fails W i (length (fst (xtool_WaitForWindow W i)))). auto. }
  destruct Hcak as (b' & Hb & Hr & Hc).
  rewrite (bind_Val _ _ _ _ Hr). cbn [calls].
  set (s2 := gst _). clearbody s2. rewrite cascade_steps_app, Hc.
  destruct (total_fallback_close currentCmd W i b' s2) as [[] E3].
  rewrite (bind_Val _ _ _ _ E3). cbn [calls].
  rewrite cascade_steps_app, fallback_close_spec, <- Hb.
  set (s3 := gst _). clearbody s3.
  rewrite <- app_assoc. do 2 f_equal.
  rewrite <- (app_nil_r (if b' then _ else _)) at 2. f_equal.
  apply cascade_steps_none.
  match goal with
  | |- Forall _ (calls (?m ?s0)) =>
      assert (Hs : sound stepless (fun _ => True) m);
        [|now destruct (Hs s0) as (_ & _ & ? & _)]
  end.
  sound_steps;
    first [ apply sound_collect_trace | apply sound_restore_script
          | apply sound_build_run ];
    intros act; apply stepless_stage; discriminate.
Qed.

(** A trial that starts the command runs the cascade; one that does not
    takes none of its steps. *)
Lemma trial_steps s :
  cascade_steps (deferred (trial currentCmd W i s)) = [] /\
  (cascade_steps (calls (trial currentCmd W i s)) = [] /\
   starts (calls (trial currentCmd W i s)) = [] \/
   cascade_steps (calls (trial currentCmd W i s)) =
     map Closed (cascade_windows currentCmd W i) ++
     map Killed (killed_pids W i (length (cascade_windows currentCmd W i))) ++
     if cascade_fails W i (length (cascade_windows currentCmd W i))
     then [FellBack (WindowName x)] else []).
Proof.
  pose proof (trial_shape currentCmd W i s) as H. cbv zeta in H.
  destruct (preparations_quiet currentCmd W i s) as (Hst & _ & _).
  destruct (preparations_sound currentCmd W i stepless stepless) with (s := s)
    as (_ & _ & Hc & Hd & _).
  { intros st a H1 H2 Ha. apply (stepless_stage st); auto; intros ->; now apply H1. }
  { exact stepless_deferred. }
  apply cascade_steps_none in Hc, Hd.
  destruct (res (preparations currentCmd W i s)) as [ws|err|msg].
  - destruct (profiling_FreeCaches W i) as [e|].
    + rewrite H. cbn [calls deferred]. split; [exact Hd|]. left.
      now rewrite cascade_steps_app, starts_app, Hc, Hst.
    + pose proof (timed_run_steps ws (gst (preparations currentCmd W i s))) as Ht.
      destruct (res (timed_run currentCmd W i ws _)) as [[run startup]|err|msg];
        [| destruct H |]; rewrite H; cbn [calls deferred]; (split; [exact Hd|]);
        right;
        change (InTrial i FreeCaches :: ?l) with ([InTrial i FreeCaches] ++ l);
        rewrite !cascade_steps_app, Hc, Ht; cbn [cascade_steps omap app];
        [|reflexivity].
      destruct (JSONOutput _); cbn; now rewrite app_nil_r.
  - rewrite H. cbn [calls deferred]. auto.
  - rewrite H. cbn [calls deferred]. auto.
Qed.

End TimedRunSteps.

(** X16: in a trial that starts the command, the cascade asks every window it is
    run on to close, in the order in which the wait returned them, whatever
    the pid lookups and the earlier requests returned; then it kills one pid
    per window, the pid that was looked up for the windows before the first
    lookup that failed and pid 0 for the others; and then it falls back on
    wmctrl, once and with the configured window name, exactly when one of
    the lookups, closes or kills of these windows failed.  When the wait
    failed or was not asked for there is no window, and none of this is
    done. *)
Theorem cascade_closes_kills_then_falls_back currentCmd W i :
  InTrial i Start ∈ trace (Execute currentCmd W) ->
  cascade_steps (of_trial i (trace (Execute currentCmd W))) =
    map Closed (cascade_windows currentCmd W i) ++
    map Killed (killed_pids W i (length (cascade_windows currentCmd W i))) ++
    if cascade_fails W i (length (cascade_windows currentCmd W i))
    then [FellBack (WindowName (Run currentCmd))] else [].
Proof.
  intros Hin. apply of_trial_elem in Hin.
  destruct (Execute_trial_view currentCmd W i) as [E|(s & _ & E & _)];
    rewrite E in Hin |- *; [now apply elem_of_nil in Hin|].
  destruct (trial_steps currentCmd W i s) as [Hd H].
  destruct (trial_starts currentCmd W i s) as [Hsd _].
  assert (Hrev : cascade_steps (rev (deferred (trial currentCmd W i s))) = []).
  { unfold cascade_steps. rewrite omap_rev.
    fold (cascade_steps (deferred (trial currentCmd W i s))). now rewrite Hd. }
  rewrite cascade_steps_app, Hrev, app_nil_r.
  destruct H as [[_ Hs]|H]; [|exact H]. exfalso.
  assert (Hi : i ∈ starts (calls (trial currentCmd W i s) ++
                           rev (deferred (trial currentCmd W i s)))).
  { apply list_elem_of_omap. eexists. split; [exact Hin|reflexivity]. }
  rewrite starts_app, Hs in Hi. unfold starts in Hi. rewrite omap_rev in Hi.
  fold (starts (deferred (trial currentCmd W i s))) in Hi. rewrite Hsd in Hi.
  now apply elem_of_nil in Hi.
Qed.

Lemma cascade_closes_kills_then_falls_back_witness :
  InTrial 0 Start ∈ trace (Execute (sample 0) pid_lookup_fails) /\
  cascade_steps (of_trial 0 (trace (Execute (sample 0) pid_lookup_fails))) =
    [Closed "w1"; Closed "w2"; Closed "w3"; Killed 4242; Killed 0; Killed 0;
     FellBack ""].
Proof.
  assert (H : InTrial 0 Start ∈ trace (Execute (sample 0) pid_lookup_fails)).
  { vm_compute. do 7 constructor. }
  split; [exact H|].
  exact (cascade_closes_kills_then_falls_back (sample 0) pid_lookup_fails 0%nat H).
Defined.

(** ** Errors shown as they happen *)

Section Shows.

Variable i : nat.

Lemma shows_quiet {A} (m : M A) : (forall s, gst (m s) = s) -> shows i m.
Proof. intros H s. exists []. rewrite H, app_nil_r. now split. Qed.

Lemma shows_pure {A} (a : A) : shows i (mret a).
Proof. now apply shows_quiet. Qed.

Lemma shows_call {A} ev (r : A) : shows i (call ev r).
Proof. now apply shows_quiet. Qed.

Lemma shows_defer ev : shows i (defer ev).
Proof. now apply shows_quiet. Qed.

Lemma shows_return {A} err : shows i (@return_ A err).
Proof. now apply shows_quiet. Qed.

Lemma shows_panic {A} msg : shows i (@panic A msg).
Proof. now apply shows_quiet. Qed.

Lemma shows_lift {A} (o : outcome A) : shows i (lift o).
Proof. now apply shows_quiet. Qed.

Lemma shows_logError c err : ShowErrors c = true -> shows i (logError c i err).
Proof.
  intros Hc s. exists [err]. cbn. rewrite Hc. split; [reflexivity|].
  repeat constructor.
Qed.

Lemma shows_bind {A B} (m : M A) (k : A -> M B) :
  shows i m -> (forall a, shows i (k a)) -> shows i (m ≫= k).
Proof.
  intros Hm Hk s. destruct (Hm s) as (l & Hl & Hall).
  destruct (res (m s)) as [a|err|msg] eqn:E.
  - rewrite (bind_Val _ _ _ a E). cbn [gst calls].
    destruct (Hk a (gst (m s))) as (l' & Hl' & Hall').
    exists (l ++ l'). split; [rewrite Hl', Hl; now rewrite app_assoc|].
    apply Forall_app. split; (eapply Forall_impl; [eassumption|]); cbn;
      intros e He; rewrite elem_of_app; auto.
  - rewrite (bind_Return _ _ _ _ E). cbn [gst calls]. eauto.
  - rewrite (bind_Panic _ _ _ _ E). cbn [gst calls]. eauto.
Qed.

Lemma shows_when b (m : M unit) : shows i m -> shows i (when b m).
Proof. destruct b; cbn; auto using shows_pure. Qed.

End Shows.

Ltac shows_step :=
  lazymatch goal with
  | |- shows _ (_ ≫= _) => apply shows_bind; [|intros ?]
  | |- shows _ (mret _) => apply shows_pure
  | |- shows _ (call _ _) => apply shows_call
  | |- shows _ (defer _) => apply shows_defer
  | |- shows _ (when _ _) => apply shows_when
  | |- shows _ (return_ _) => apply shows_return
  | |- shows _ (panic _) => apply shows_panic
  | |- shows _ (lift _) => apply shows_lift
  | |- shows _ (logError _ _ _) => apply shows_logError
  | |- shows _ (match ?x with _ => _ end) => destruct x
  end.

Ltac shows_steps := repeat shows_step.

Section ShowsTrial.

Variable currentCmd : Command.
Variable W : World.
Variable i : nat.
Hypothesis asked : ShowErrors currentCmd = true.

Lemma shows_resolve_pids wids : forall k pids,
  shows i (resolve_pids currentCmd W i k wids pids).
Proof. induction wids as [|wid rest IH]; intros k pids; cbn; shows_steps; auto. Qed.

Lemma shows_close_windows wids : forall k b,
  shows i (close_windows currentCmd W i k wids b).
Proof. induction wids as [|wid rest IH]; intros k b; cbn; shows_steps; auto. Qed.

Lemma shows_kill_pids pids : forall k b,
  shows i (kill_pids currentCmd W i k pids b).
Proof. induction pids as [|pid rest IH]; intros k b; cbn; shows_steps; auto. Qed.

Lemma shows_measure : shows i (measure currentCmd W i).
Proof.
  unfold measure, prepare_script, setup_command, setup_stdio, open_log,
    discard_snap_ns, free_caches, start_and_wait, close_and_kill, fallback_close,
    wmctrlCloseWindow, collect_trace, restore_script.
  shows_steps;
    auto using shows_resolve_pids, shows_close_windows, shows_kill_pids.
  all: apply shows_quiet; intros s; apply build_run_gst.
Qed.

(** The record of a trial has the errors that the trial printed. *)
Lemma trial_shows s :
  errs s = [] ->
  match res (trial currentCmd W i s) with
  | Val _ =>
      exists run,
        Runs (outRes (gst (trial currentCmd W i s))) = Runs (outRes s) ++ [run] /\
        Forall (fun e => InTrial i (LogPrintln (Error e)) ∈ calls (trial currentCmd W i s))
               (Errors run)
  | _ => outRes (gst (trial currentCmd W i s)) = outRes s
  end.
Proof.
  intros Hs.
  destruct (trial_cases currentCmd W i s) as [(run & startup & E)|[[err E]|[msg E]]].
  - rewrite (trial_Val _ _ _ _ _ _ E). cbn [res gst calls outRes Runs].
    exists run. split; [reflexivity|].
    rewrite (measure_Errors _ _ _ _ _ _ E).
    destruct (shows_measure s) as (l & -> & Hl). rewrite Hs. cbn [app].
    eapply Forall_impl; [exact Hl|]. cbn. intros e He. rewrite elem_of_app. auto.
  - rewrite (trial_Return _ _ _ _ _ E). cbn [res gst]. apply measure_outRes.
  - rewrite (trial_Panic _ _ _ _ _ E). cbn [res gst]. apply measure_outRes.
Qed.

End ShowsTrial.

Lemma trials_show currentCmd W n i s :
  ShowErrors currentCmd = true ->
  errs s = [] ->
  let o := trials currentCmd W n i s in
  length (Runs (outRes s)) = i ->
  forall j r,
    Runs (outRes (gst o)) !! j = Some r ->
    Runs (outRes s) !! j = Some r \/
    Forall (fun e => InTrial j (LogPrintln (Error e)) ∈ calls o) (Errors r).
Proof.
  intros Hc. cbv zeta. revert n i s.
  apply (trials_ind currentCmd W (fun n i s o =>
    length (Runs (outRes s)) = i ->
    forall j r,
      Runs (outRes (gst o)) !! j = Some r ->
      Runs (outRes s) !! j = Some r \/
      Forall (fun e => InTrial j (LogPrintln (Error e)) ∈ calls o) (Errors r))).
  - intros i s _ j r H. now left.
  - intros n i s o Hs Ht _ IH Hl j r Hj. cbn [gst calls] in *.
    pose proof (trial_shows currentCmd W i Hc s Hs) as H. rewrite Ht in H.
    destruct H as (run & Hr & Hshown).
    destruct (IH ltac:(rewrite Hr, length_app; cbn; lia) j r Hj) as [H|H].
    + rewrite Hr in H. apply lookup_app_Some in H as [H|[Hge H]]; [now left|].
      right. rewrite Hl in H, Hge.
      destruct (j - i)%nat as [|d] eqn:Ed; [|destruct d; discriminate].
      cbn in H. injection H as <-. assert (j = i) as -> by lia.
      eapply Forall_impl; [exact Hshown|]. cbn. intros e He.
      rewrite elem_of_app. auto.
    + right. eapply Forall_impl; [exact H|]. cbn. intros e He.
      rewrite elem_of_app. auto.
  - intros n i s Hs Hv _ j r Hj. left.
    pose proof (trial_shows currentCmd W i Hc s Hs) as H.
    destruct (res (trial currentCmd W i s)) as [v|err|msg]; [now destruct (Hv v)| |];
      now rewrite H in Hj.
Qed.

(** X17: with [-e], every error of every record was printed when it happened, by
    the trial of that record. *)
Theorem errors_are_shown_when_asked currentCmd W j r e :
  ShowErrors currentCmd = true ->
  Runs (result (Execute currentCmd W)) !! j = Some r ->
  e ∈ Errors r ->
  InTrial j (LogPrintln (Error e)) ∈ trace (Execute currentCmd W).
Proof.
  intros Hc.
  destruct (Execute_trace_cases currentCmd W) as [(e' & _ & _ & ->)|[_ ->]];
    cbn [result trace].
  { cbn [Runs]. intros H. now rewrite lookup_nil in H. }
  intros Hj He.
  destruct (trials_show currentCmd W (iterations currentCmd) 0 entry Hc eq_refl eq_refl
              j r Hj) as [H|H].
  { unfold entry in H. cbn [outRes Runs] in H. now rewrite lookup_nil in H. }
  rewrite Forall_forall in H. rewrite !elem_of_app. right. left. now apply H.
Qed.

Lemma errors_are_shown_when_asked_witness :
  ShowErrors sample_errors = true /\
  Runs (result (Execute sample_errors no_window)) !! 0%nat =
    Some {| ExecveTiming := Some timing; TimeToDisplay := 900; TimeToRun := 1500;
            Errors := [ErrWrap "waiting for window appearance: " (ErrNew "timed out")] |} /\
  InTrial 0 (LogPrintln (Error (ErrWrap "waiting for window appearance: "
                                  (ErrNew "timed out")))) ∈
    trace (Execute sample_errors no_window).
Proof.
  split; [reflexivity|].
  assert (H : Runs (result (Execute sample_errors no_window)) !! 0%nat =
    Some {| ExecveTiming := Some timing; TimeToDisplay := 900; TimeToRun := 1500;
            Errors := [ErrWrap "waiting for window appearance: " (ErrNew "timed out")] |})
    by (vm_compute; reflexivity).
  split; [exact H|].
  apply (errors_are_shown_when_asked sample_errors no_window 0%nat _ _ eq_refl H).
  repeat constructor.
Defined.

(** ** Nothing shown unless asked *)

Lemma sound_logError_silent (Q D : event -> Prop) c i err :
  ShowErrors c = false -> sound Q D (logError c i err).
Proof. intros H s. cbn. rewrite H. repeat split; eauto. Qed.

Ltac silent_step H :=
  lazymatch goal with
  | |- sound _ _ (logError _ _ _) => apply sound_logError_silent; exact H
  | _ => sound_step
  end.

Section Silent.

Variable currentCmd : Command.
Variable W : World.
Variable i : nat.
Hypothesis not_asked : ShowErrors currentCmd = false.

(** The one line a trial prints unasked: what wmctrl wrote, when it failed. *)
Local Abbreviation unasked :=
  (fun e : event => forall a, e = InTrial i a -> forall text, a = LogPrintln text ->
     text = fst (wmctrl_CombinedOutput W i) /\ snd (wmctrl_CombinedOutput W i) <> None).

Lemma unasked_other a : (forall text, a <> LogPrintln text) -> unasked (InTrial i a).
Proof. intros Ha b [= <-] text ->. now destruct (Ha text). Qed.

Lemma silent_resolve_pids wids : forall k pids,
  sound unasked unasked (resolve_pids currentCmd W i k wids pids).
Proof.
  induction wids as [|wid rest IH]; intros k pids; cbn;
    repeat silent_step not_asked; auto; apply unasked_other; discriminate.
Qed.

Lemma silent_close_windows wids : forall k b,
  sound unasked unasked (close_windows currentCmd W i k wids b).
Proof.
  induction wids as [|wid rest IH]; intros k b; cbn;
    repeat silent_step not_asked; auto; apply unasked_other; discriminate.
Qed.

Lemma silent_kill_pids pids : forall k b,
  sound unasked unasked (kill_pids currentCmd W i k pids b).
Proof.
  induction pids as [|pid rest IH]; intros k b; cbn;
    repeat silent_step not_asked; auto; apply unasked_other; discriminate.
Qed.

Lemma silent_fallback_close b :
  sound unasked unasked (fallback_close currentCmd W i b).
Proof.
  unfold fallback_close, wmctrlCloseWindow.
  destruct b; cbn [when]; [|apply sound_pure].
  apply sound_bind; [apply sound_bind|].
  - apply sound_call. apply unasked_other. discriminate.
  - intros [out err] [s0 H]. cbn in H. injection H as H.
    destruct err as [e|]; [|apply sound_pure].
    apply sound_call. intros a [= <-] text [= <-]. rewrite H. cbn.
    split; [reflexivity|discriminate].
  - intros err _. destruct err; [|apply sound_pure].
    apply sound_logError_silent. exact not_asked.
Qed.

Lemma silent_measure : sound unasked unasked (measure currentCmd W i).
Proof.
  unfold measure.
  repeat silent_step not_asked;
    first [ apply silent_fallback_close
          | apply sound_build_run
          | apply windowspec_no_return
          | idtac ].
  - unfold prepare_script. repeat silent_step not_asked.
    apply unasked_other; discriminate.
  - unfold setup_command. repeat silent_step not_asked;
      apply unasked_other; discriminate.
  - unfold setup_stdio, open_log. repeat silent_step not_asked;
      apply unasked_other; discriminate.
  - unfold discard_snap_ns. repeat silent_step not_asked;
      apply unasked_other; discriminate.
  - unfold free_caches. repeat silent_step not_asked;
      apply unasked_other; discriminate.
  - unfold start_and_wait. repeat silent_step not_asked;
      apply unasked_other; discriminate.
  - unfold close_and_kill. repeat silent_step not_asked;
      auto using silent_resolve_pids, silent_close_windows, silent_kill_pids.
  - unfold collect_trace. repeat silent_step not_asked;
      apply unasked_other; discriminate.
  - unfold restore_script. repeat silent_step not_asked;
      apply unasked_other; discriminate.
Qed.

End Silent.

(** X18: without [-e] no error is printed: the only line a trial logs is the
    output of wmctrl, when wmctrl failed. *)
Theorem nothing_shown_unless_asked currentCmd W i text :
  ShowErrors currentCmd = false ->
  InTrial i (LogPrintln text) ∈ trace (Execute currentCmd W) ->
  text = fst (wmctrl_CombinedOutput W i) /\ snd (wmctrl_CombinedOutput W i) <> None.
Proof.
  intros Hc Hin.
  apply (Execute_actions_sound currentCmd W i
           (fun a => forall text, a = LogPrintln text ->
              text = fst (wmctrl_CombinedOutput W i) /\
              snd (wmctrl_CombinedOutput W i) <> None)) with (a := LogPrintln text);
    [| discriminate | exact Hin | reflexivity].
  exact (silent_measure currentCmd W i Hc).
Qed.

Lemma nothing_shown_unless_asked_witness :
  ShowErrors (sample 0) = false /\
  InTrial 0 (LogPrintln "Cannot open display.") ∈
    trace (Execute (sample 0) wmctrl_fails) /\
  "Cannot open display."%string = fst (wmctrl_CombinedOutput wmctrl_fails 0) /\
  snd (wmctrl_CombinedOutput wmctrl_fails 0) <> None.
Proof.
  split; [reflexivity|].
  assert (H : InTrial 0 (LogPrintln "Cannot open display.") ∈
              trace (Execute (sample 0) wmctrl_fails)).
  { vm_compute. repeat constructor. }
  split; [exact H|].
  exact (nothing_shown_unless_asked (sample 0) wmctrl_fails 0%nat _ eq_refl H).
Defined.

(** ** The scripts around the command *)

Lemma scripts_app l1 l2 : scripts (l1 ++ l2) = scripts l1 ++ scripts l2.
Proof. apply omap_app. Qed.

Lemma scripts_none l :
  Forall (fun e => forall j path args, e <> InTrial j (RunScript path args)) l ->
  scripts l = [].
Proof.
  intros Hl. apply omap_none. eapply Forall_impl; [exact Hl|]. cbn.
  intros [j a|a] Hne; [|reflexivity]. destruct a; try reflexivity.
  now destruct (Hne j path args).
Qed.

Section Scripts.

Variable currentCmd : Command.
Variable W : World.
Variable i : nat.

Local Abbreviation x := (Run currentCmd).
Local Abbreviation scriptless :=
  (fun e : event => forall j path args, e <> InTrial j (RunScript path args)).

Lemma scriptless_stage st a :
  st <> Prepare -> st <> Restore -> made_in st a -> scriptless (InTrial i a).
Proof. intros H1 H2 Ha j path args [= _ ->]. now destruct st. Qed.

Lemma scriptless_deferred a : deferred_by_trial a -> scriptless (InTrial i a).
Proof. intros Ha j path args [= _ ->]. exact Ha. Qed.

Lemma scripts_logError err s : scripts (calls (logError currentCmd i err s)) = [].
Proof. cbn. now destruct (ShowErrors currentCmd). Qed.

Lemma scripts_prepare_script s :
  scripts (calls (prepare_script currentCmd W i s)) = prepare_part currentCmd.
Proof.
  unfold prepare_script, prepare_part.
  destruct (nonempty (PrepareScript x)); [|reflexivity]. cbn [when].
  rewrite call_then. cbn [calls].
  change (InTrial i (RunScript ?p ?a) :: ?l) with ([InTrial i (RunScript p a)] ++ l).
  rewrite scripts_app. cbn [scripts omap app]. cbn. f_equal.
  destruct (RunScript_prepare W i); [apply scripts_logError|reflexivity].
Qed.

Lemma scripts_restore_script s :
  scripts (calls (restore_script currentCmd W i s)) = restore_part currentCmd.
Proof.
  unfold restore_script, restore_part.
  destruct (nonempty (RestoreScript x)); [|reflexivity]. cbn [when].
  rewrite call_then. cbn [calls].
  change (InTrial i (RunScript ?p ?a) :: ?l) with ([InTrial i (RunScript p a)] ++ l).
  rewrite scripts_app. cbn [scripts omap app]. cbn. f_equal.
  destruct (RunScript_restore W i); [apply scripts_logError|reflexivity].
Qed.

(** The calls of a sequence whose first statement falls through. *)
Lemma scripts_bind {A B} (m : M A) (k : A -> M B) s :
  total m ->
  exists a,
    res (m s) = Val a /\
    scripts (calls ((m ≫= k) s)) =
      scripts (calls (m s)) ++ scripts (calls (k a (gst (m s)))).
Proof.
  intros Hm. destruct (Hm s) as [a E]. exists a. split; [exact E|].
  rewrite (bind_Val _ _ _ a E). cbn [calls]. apply scripts_app.
Qed.

Lemma scripts_preparations s :
  scripts (calls (preparations currentCmd W i s)) = prepare_part currentCmd /\
  scripts (deferred (preparations currentCmd W i s)) = [].
Proof.
  split.
  - unfold preparations.
    destruct (scripts_bind (prepare_script currentCmd W i)
                (fun _ => setup_command currentCmd W i;; setup_stdio currentCmd W i;;
                          discard_snap_ns currentCmd W i;; lift (windowspec currentCmd)) s
                (total_prepare_script currentCmd W i)) as ([] & _ & ->).
    rewrite scripts_prepare_script.
    match goal with
    | |- _ ++ scripts (calls (?m ?s0)) = _ =>
        assert (Hs : sound scriptless (fun _ => True) m);
          [|destruct (Hs s0) as (_ & _ & Hc & _);
            now rewrite (scripts_none _ Hc), app_nil_r]
    end.
    sound_steps;
      first [ apply sound_setup_command | apply sound_setup_stdio
            | apply sound_discard_snap_ns | apply windowspec_no_return ];
      try (intros act; apply scriptless_stage; discriminate); auto.
  - destruct (preparations_sound currentCmd W i (fun _ => True) scriptless) with (s := s)
      as (_ & _ & _ & Hd & _); [now intros|exact scriptless_deferred|].
    now apply scripts_none.
Qed.

(** Once the command is started the restore script is run, whatever the
    wait, the cascade and the parser returned. *)
Lemma scripts_timed_run ws s :
  scripts (calls (timed_run currentCmd W i ws s)) = restore_part currentCmd.
Proof.
  unfold timed_run.
  match goal with
  | |- context [scripts (calls ((?m ≫= ?k) ?s0))] =>
      destruct (scripts_bind m k s0 (total_start_and_wait currentCmd W i ws))
        as ([[[wids err] b] d] & _ & ->)
  end.
  cbv beta iota. set (s1 := gst _). clearbody s1.
  match goal with
  | |- context [scripts (calls ((?m ≫= ?k) ?s0))] =>
      destruct (scripts_bind m k s0 (total_close_and_kill currentCmd W i b wids))
        as (b' & _ & ->)
  end.
  set (s2 := gst _). clearbody s2.
  match goal with
  | |- context [scripts (calls ((?m ≫= ?k) ?s0))] =>
      destruct (scripts_bind m k s0 (total_fallback_close currentCmd W i b'))
        as ([] & _ & ->)
  end.
  set (s3 := gst _). clearbody s3.
  match goal with
  | |- context [scripts (calls ((?m ≫= ?k) ?s0))] =>
      destruct (scripts_bind m k s0 (total_collect_trace currentCmd W i))
        as (slg & _ & ->)
  end.
  set (s4 := gst _). clearbody s4.
  match goal with
  | |- context [scripts (calls ((?m ≫= ?k) ?s0))] =>
      destruct (scripts_bind m k s0 (total_restore_script currentCmd W i))
        as ([] & _ & ->)
  end.
  set (s5 := gst _). clearbody s5.
  rewrite scripts_restore_script.
  assert (Hq : forall {A} (m : M A) s0,
            sound scriptless (fun _ => True) m -> scripts (calls (m s0)) = []).
  { intros A m s0 Hs. apply scripts_none. now destruct (Hs s0) as (_ & _ & ? & _). }
  rewrite !Hq.
  - now rewrite app_nil_r.
  - sound_steps. apply sound_build_run.
  - apply sound_collect_trace. intros act. apply scriptless_stage; discriminate.
  - apply sound_fallback_close. intros act. apply scriptless_stage; discriminate.
  - apply sound_close_and_kill. intros act. apply scriptless_stage; discriminate.
  - apply sound_start_and_wait. intros act. apply scriptless_stage; discriminate.
Qed.

(** The scripts of a trial: the prepare script, and the restore script if
    the trial started the command. *)
Lemma trial_scripts s :
  scripts (deferred (trial currentCmd W i s)) = [] /\
  scripts (calls (trial currentCmd W i s)) =
    prepare_part currentCmd ++
    match starts (calls (trial currentCmd W i s)) with
    | [] => []
    | _ => restore_part currentCmd
    end.
Proof.
  pose proof (trial_shape currentCmd W i s) as H. cbv zeta in H.
  destruct (preparations_quiet currentCmd W i s) as (Hst & _ & _).
  destruct (scripts_preparations s) as [Hc Hd].
  destruct (res (preparations currentCmd W i s)) as [ws|err|msg].
  - destruct (profiling_FreeCaches W i) as [e|].
    + rewrite H. cbn [calls deferred]. split; [exact Hd|].
      now rewrite scripts_app, starts_app, Hc, Hst.
    + pose proof (scripts_timed_run ws (gst (preparations currentCmd W i s))) as Ht.
      pose proof (starts_timed_run currentCmd W i ws
                    (gst (preparations currentCmd W i s))) as Hs.
      destruct (res (timed_run currentCmd W i ws _)) as [[run startup]|err|msg];
        [| destruct H |]; rewrite H; cbn [calls deferred]; (split; [exact Hd|]);
        change (InTrial i FreeCaches :: ?l) with ([InTrial i FreeCaches] ++ l);
        rewrite !scripts_app, !starts_app, Hc, Hst, Ht, Hs; cbn [scripts starts omap app];
        [|reflexivity].
      destruct (JSONOutput _); cbn; now rewrite app_nil_r.
  - rewrite H. cbn [calls deferred]. now rewrite Hc, Hst, app_nil_r.
  - rewrite H. cbn [calls deferred]. now rewrite Hc, Hst, app_nil_r.
Qed.

End Scripts.

(** * The stubs of [internal/files] *)

Section StubProperties.

Context {StatFn RemoveFn CreateFn OpenFileFn : Type}.

Local Abbreviation vars := (files_vars StatFn RemoveFn CreateFn OpenFileFn).

(** A closure called right after its stub was installed undoes it. *)
Lemma install_undone (m : stub StatFn RemoveFn CreateFn OpenFileFn) (v : vars) :
  snd (install m v) (fst (install m v)) = v.
Proof. destruct m, v; reflexivity. Qed.

Lemma run_all_app (rs rs' : list (restorer StatFn RemoveFn CreateFn OpenFileFn)) (v : vars) :
  run_all (rs ++ rs') v = run_all rs' (run_all rs v).
Proof. apply fold_left_app. Qed.

End StubProperties.

(** X22: stubs that are unwound in the reverse order of their installation leave
    the package as it was: after any sequence of calls of [MockOSStat],
    [MockOSRemove], [MockOSCreate] and [MockOSOpenFile], also when a
    variable is stubbed several times, calling the returned closures from
    the last to the first gives the four variables the values they had
    before the first call. *)
Theorem stubs_unwind_in_reverse {StatFn RemoveFn CreateFn OpenFileFn : Type}
    (ms : list (stub StatFn RemoveFn CreateFn OpenFileFn))
    (v : files_vars StatFn RemoveFn CreateFn OpenFileFn) :
  run_all (snd (install_all ms v)) (fst (install_all ms v)) = v.
Proof.
  revert v. induction ms as [|m rest IH]; intros v; [reflexivity|].
  cbn [install_all].
  pose proof (install_undone m v) as Hm.
  destruct (install m v) as [v1 r]. cbn [fst snd] in Hm.
  specialize (IH v1). destruct (install_all rest v1) as [v2 rs].
  cbn [fst snd] in IH |- *. now rewrite run_all_app, IH.
Qed.

(** X23: the test leaves no stub behind: whatever its table, after the loop the
    four package variables are what they were before it; and for every row
    the test is done with the stub of that row in place, which answers any
    name with a file that is a directory as the row says and with [ENOENT]
    exactly when the row says that the file does not exist. *)
Theorem test_leaves_no_stub_behind {RemoveFn CreateFn OpenFileFn : Type}
    (table : list test_case)
    (v : files_vars (string -> mockedOsFileInfo * option error)
           RemoveFn CreateFn OpenFileFn) :
  fst (TestEnsureExistAndOpenExists table v) = v /\
  snd (TestEnsureExistAndOpenExists table v) = map stat_stub table /\
  forall t name,
    mockedOsFileInfo_IsDir (fst (stat_stub t name)) = fIsDir t /\
    (snd (stat_stub t name) = Some ENOENT <-> fExists t = false) /\
    (snd (stat_stub t name) = None <-> fExists t = true).
Proof.
  split; [|split].
  - revert v. induction table as [|t rest IH]; intros v; [reflexivity|].
    cbn [TestEnsureExistAndOpenExists MockOSStat]. cbv zeta.
    match goal with
    | |- fst (let '(_, _) := TestEnsureExistAndOpenExists rest ?v' in _) = _ =>
        replace v' with v by (now destruct v); specialize (IH v);
        destruct (TestEnsureExistAndOpenExists rest v)
    end.
    exact IH.
  - revert v. induction table as [|t rest IH]; intros v; [reflexivity|].
    cbn [TestEnsureExistAndOpenExists MockOSStat map]. cbv zeta.
    match goal with
    | |- snd (let '(_, _) := TestEnsureExistAndOpenExists rest ?v' in _) = _ =>
        specialize (IH v'); destruct (TestEnsureExistAndOpenExists rest v')
    end.
    cbn [snd osStat] in IH |- *. now rewrite IH.
  - intros t name. unfold stat_stub, mockedOsFileInfo_IsDir. cbn.
    destruct (fExists t); cbn; repeat split; congruence.
Qed.

(** * The table of the timing *)

(** X20: the table that a trial displays is the timing that the trace parser
    returned in that trial, and it is displayed only when tracing, in
    tabular mode, and when the parser returned no error. *)
Theorem timing_table_is_the_parsers currentCmd W i slg :
  InTrial i (Display slg) ∈ trace (Execute currentCmd W) ->
  NoTrace (Run currentCmd) = false /\
  JSONOutput (Run currentCmd) = false /\
  strace_TraceExecveTimings W i = (slg, None).
Proof.
  intros Hin.
  apply (Execute_actions_sound currentCmd W i
           (fun a => forall slg, a = Display slg ->
              NoTrace (Run currentCmd) = false /\
              JSONOutput (Run currentCmd) = false /\
              strace_TraceExecveTimings W i = (slg, None))) with (a := Display slg);
    [| discriminate | exact Hin | reflexivity].
  assert (HQ : forall st a, st <> Collect -> made_in st a ->
               forall b, InTrial i a = InTrial i b -> forall slg', b = Display slg' ->
               NoTrace (Run currentCmd) = false /\
               JSONOutput (Run currentCmd) = false /\
               strace_TraceExecveTimings W i = (slg', None)).
  { intros st a Hst Ha b [= <-] slg' ->. now destruct st. }
  assert (HD : forall a, deferred_by_trial a ->
               forall b, InTrial i a = InTrial i b -> forall slg', b = Display slg' ->
               NoTrace (Run currentCmd) = false /\
               JSONOutput (Run currentCmd) = false /\
               strace_TraceExecveTimings W i = (slg', None)).
  { intros a Ha b [= <-] slg' ->. destruct Ha. }
  unfold measure. sound_steps;
    try (first [ apply sound_prepare_script | apply sound_setup_command
               | apply sound_setup_stdio | apply sound_discard_snap_ns
               | apply sound_free_caches | apply sound_start_and_wait
               | apply sound_close_and_kill | apply sound_fallback_close
               | apply sound_restore_script | apply sound_build_run
               | apply windowspec_no_return ];
         first [ exact HD
               | intros ? ?; eapply HQ; [|eassumption]; discriminate ]).
  unfold collect_trace.
  destruct (NoTrace (Run currentCmd)) eqn:Et; cbn [negb];
    [apply (sound_pure _ _ None)|].
  apply sound_bind; [apply sound_call; intros act [= <-] slg'; discriminate|intros _ _].
  apply sound_bind; [apply sound_call; intros act [= <-] slg'; discriminate|].
  intros [slg1 err1] [s0 Hp]. cbn in Hp. injection Hp as Hp.
  apply sound_bind; [|intros _ _; apply sound_pure].
  destruct err1 as [e|].
  - apply sound_logError. intros text act [= <-] slg'. discriminate.
  - destruct (JSONOutput (Run currentCmd)) eqn:Ej; cbn [negb when];
      [apply (sound_pure _ _ tt)|].
    apply sound_call. intros act [= <-] slg' [= <-]. auto.
Qed.

Lemma timing_table_is_the_parsers_witness :
  InTrial 0 (Display (Some timing)) ∈ trace (Execute (sample 0) calm) /\
  NoTrace (Run (sample 0)) = false /\
  JSONOutput (Run (sample 0)) = false /\
  strace_TraceExecveTimings calm 0 = (Some timing, None).
Proof.
  assert (H : InTrial 0 (Display (Some timing)) ∈ trace (Execute (sample 0) calm)).
  { vm_compute. repeat constructor. }
  split; [exact H|].
  exact (timing_table_is_the_parsers (sample 0) calm 0%nat _ H).
Defined.

(** * The option check and the discard of the namespace *)

Section BeforeTheCheck.

Variable currentCmd : Command.
Variable W : World.

Local Abbreviation x := (Run currentCmd).

(** How the set-up of the command ends. *)
Lemma setup_command_ends i s :
  res (setup_command currentCmd W i s) =
    match trace_failure currentCmd W i with
    | Some e => Return (Some e)
    | None =>
        if NoTrace x then
          match targetCmd currentCmd with
          | [] => Panic "index out of range [0] with length 0"
          | _ :: _ => Val tt
          end
        else Val tt
    end.
Proof.
  unfold setup_command, trace_failure.
  destruct (NoTrace x); cbn [negb].
  { now destruct (targetCmd currentCmd). }
  destruct (ioutil_TempDir W i) as [dir [e|]]; [reflexivity|]. cbn [snd].
  destruct (syscall_Mkfifo W i) as [e|]; [reflexivity|].
  destruct (os_OpenFile W i) as [e|]; [reflexivity|].
  destruct (strace_TraceExecCommand W i) as [e|]; reflexivity.
Qed.

(** How the opening of the log files ends. *)
Lemma setup_stdio_ends i s :
  res (setup_stdio currentCmd W i s) =
    match stdio_failure currentCmd W i with
    | Some e => Return (Some e)
    | None => Val tt
    end.
Proof.
  unfold setup_stdio, open_log, stdio_failure.
  destruct (nonempty (ProgramStdoutLog x)); cbn [when].
  - destruct (open_ProgramStdoutLog W i) as [e|]; [reflexivity|].
    destruct (nonempty (ProgramStderrLog x)); cbn [when]; [|reflexivity].
    destruct (open_ProgramStderrLog W i) as [e|]; reflexivity.
  - destruct (nonempty (ProgramStderrLog x)); cbn [when]; [|reflexivity].
    destruct (open_ProgramStderrLog W i) as [e|]; reflexivity.
Qed.

Section Unset.

Hypothesis Hd : DiscardSnapNs x = true.
Hypothesis Hs : RunThroughSnap x = false.
Hypothesis Hcmd : NoTrace x = true -> Args_Cmd x <> [].

(** A trial returns the error of the first step that fails before the
    check, and the configuration error when none does. *)
Lemma measure_without_snap_run i s :
  res (measure currentCmd W i s) =
    Return (Some match trace_failure currentCmd W i with
                 | Some e => e
                 | None =>
                     match stdio_failure currentCmd W i with
                     | Some e => e
                     | None => ErrDiscardWithoutSnap
                     end
                 end).
Proof.
  unfold measure.
  rewrite (bind_Val _ _ _ tt (prepare_script_res currentCmd W i s)). cbn [res].
  set (s1 := gst _). clearbody s1.
  pose proof (setup_command_ends i s1) as E1.
  destruct (trace_failure currentCmd W i) as [e|].
  { now rewrite (bind_Return _ _ _ _ E1). }
  assert (E1' : res (setup_command currentCmd W i s1) = Val tt).
  { rewrite E1. destruct (NoTrace x); [|reflexivity].
    unfold targetCmd. rewrite Hs. now destruct (Args_Cmd x); [destruct Hcmd|]. }
  rewrite (bind_Val _ _ _ tt E1'). cbn [res].
  set (s2 := gst _). clearbody s2.
  pose proof (setup_stdio_ends i s2) as E2.
  destruct (stdio_failure currentCmd W i) as [e|].
  { now rewrite (bind_Return _ _ _ _ E2). }
  rewrite (bind_Val _ _ _ tt E2). cbn [res].
  rewrite (bind_Return _ _ _ (Some ErrDiscardWithoutSnap))
    by now rewrite (discard_snap_ns_rejects currentCmd W Hd Hs).
  reflexivity.
Qed.

(** A run that gets to its first trial ends with the error of the first
    step that fails before the check, and with the configuration error when
    none does. *)
Lemma Execute_without_snap_run :
  0 <= AdditionalIterations currentCmd < MaxUint ->
  ended (Execute currentCmd W) =
    Returned (Some match earlier_failure currentCmd W with
                   | Some e => e
                   | None => ErrDiscardWithoutSnap
                   end).
Proof.
  intros Hn. unfold earlier_failure.
  destruct (Execute_trace_cases currentCmd W) as [(e & Ho & Hopen & ->)|[Hopen ->]];
    cbn [ended].
  { now rewrite Ho, Hopen. }
  assert (Hout : (if nonempty (OutputFile x) then open_OutputFile W else None) = None).
  { destruct (nonempty (OutputFile x)); [now apply Hopen|reflexivity]. }
  rewrite Hout, (iterations_in_range _ Hn). cbn [trials].
  pose proof (measure_without_snap_run 0 entry) as Hm.
  rewrite (bind_Return _ _ _ _ (eq_trans (f_equal res (trial_Return _ _ _ _ _ Hm)) eq_refl)).
  cbn [res].
  destruct (trace_failure currentCmd W 0); [reflexivity|].
  now destruct (stdio_failure currentCmd W 0).
Qed.

End Unset.

End BeforeTheCheck.

Lemma discarded_before_start_absent currentCmd l :
  Forall (fun e => forall j, e <> InTrial j Start) l -> discarded_before_start currentCmd l.
Proof.
  intros Hl l1 l2 i ->. rewrite Forall_app, Forall_cons in Hl.
  destruct Hl as (_ & Hne & _). now destruct (Hne i).
Qed.

Lemma discarded_before_start_app currentCmd l l' :
  discarded_before_start currentCmd l -> discarded_before_start currentCmd l' ->
  discarded_before_start currentCmd (l ++ l').
Proof.
  intros H H' l1 l2 i E. apply app_eq_app in E as [m [[-> E]|[-> E]]].
  - destruct m as [|e m].
    + cbn in E. destruct (H' [] l2 i) as (name & rest & Ha & Hin); [now rewrite <- E|].
      now apply elem_of_nil in Hin.
    + injection E as <- ->. exact (H l1 m i eq_refl).
  - destruct (H' m l2 i E) as (name & rest & Ha & Hin).
    exists name, rest. split; [exact Ha|]. rewrite elem_of_app. auto.
Qed.

(** A start that is the last of a list with no other start. *)
Lemma discarded_before_start_snoc currentCmd l i name rest :
  Args_Cmd (Run currentCmd) = name :: rest ->
  InTrial i (DiscardNs name) ∈ l ->
  Forall (fun e => forall j, e <> InTrial j Start) l ->
  discarded_before_start currentCmd (l ++ [InTrial i Start]).
Proof.
  intros Ha Hin Hl l1 l2 j E.
  destruct l2 as [|z l2] using rev_ind.
  - apply app_inj_tail in E as [-> [= ->]]. eauto.
  - clear IHl2. rewrite app_comm_cons, app_assoc in E.
    apply app_inj_tail in E as [-> _].
    rewrite Forall_app, Forall_cons in Hl. destruct Hl as (_ & Hne & _).
    now destruct (Hne j).
Qed.

Section BothFlags.

Variable currentCmd : Command.
Variable W : World.
Variable i : nat.

Local Abbreviation x := (Run currentCmd).
Local Abbreviation no_start := (fun e : event => forall j, e <> InTrial j Start).
Local Abbreviation no_discard := (fun e : event => forall j name, e <> InTrial j (DiscardNs name)).

Hypothesis Hd : DiscardSnapNs x = true.
Hypothesis Hs : RunThroughSnap x = true.

(** Lines 228-237 with both flags: the discard is called, for the first
    token of the command as given, and its error is returned. *)
Lemma discard_snap_ns_called s :
  discard_snap_ns currentCmd W i s =
    match Args_Cmd x with
    | [] => {| res := Panic "index out of range [0] with length 0"; gst := s;
               calls := []; deferred := [] |}
    | name :: _ =>
        {| res := match snaps_DiscardSnapNs W i with
                  | Some e => Return (Some e)
                  | None => Val tt
                  end;
           gst := s; calls := [InTrial i (DiscardNs name)]; deferred := [] |}
    end.
Proof.
  unfold discard_snap_ns. rewrite Hd, Hs. cbn [when negb].
  destruct (Args_Cmd x) as [|name rest]; [reflexivity|].
  rewrite call_then. now destruct (snaps_DiscardSnapNs W i).
Qed.

Lemma no_discard_stage st a : st <> Discard -> made_in st a -> no_discard (InTrial i a).
Proof. intros Hst Ha j name [= _ ->]. now destruct st. Qed.

Lemma no_discard_deferred a : deferred_by_trial a -> no_discard (InTrial i a).
Proof. intros Ha j name [= _ ->]. exact Ha. Qed.

(** The statements before the check make no discard. *)
Lemma before_discard_sound :
  sound no_discard no_discard (prepare_script currentCmd W i) /\
  sound no_discard no_discard (setup_command currentCmd W i) /\
  sound no_discard no_discard (setup_stdio currentCmd W i).
Proof.
  split; [|split].
  - apply sound_prepare_script. intros a. apply no_discard_stage. discriminate.
  - apply sound_setup_command; [|exact no_discard_deferred].
    intros a. apply no_discard_stage. discriminate.
  - apply sound_setup_stdio; [|exact no_discard_deferred].
    intros a. apply no_discard_stage. discriminate.
Qed.

(** A sequence that makes a discard after a statement that makes none has
    gone through that statement. *)
Lemma discard_after {A B} (m : M A) (k : A -> M B) s name :
  sound no_discard no_discard m ->
  InTrial i (DiscardNs name) ∈ calls ((m ≫= k) s) ->
  exists a,
    res (m s) = Val a /\
    InTrial i (DiscardNs name) ∈ calls (k a (gst (m s))) /\
    res ((m ≫= k) s) = res (k a (gst (m s))).
Proof.
  intros Hm Hin. destruct (Hm s) as (_ & _ & Hc & _ & _).
  rewrite Forall_forall in Hc.
  destruct (res (m s)) as [a|err|msg] eqn:E.
  - exists a. rewrite (bind_Val _ _ _ a E) in Hin |- *. cbn [calls res] in *.
    split; [reflexivity|]. split; [|reflexivity].
    apply elem_of_app in Hin as [Hin|Hin]; [|exact Hin].
    now destruct (Hc _ Hin i name).
  - rewrite (bind_Return _ _ _ _ E) in Hin. cbn [calls] in Hin.
    now destruct (Hc _ Hin i name).
  - rewrite (bind_Panic _ _ _ _ E) in Hin. cbn [calls] in Hin.
    now destruct (Hc _ Hin i name).
Qed.

(** Preparations that called the discard and got an error return it. *)
Lemma preparations_discard_failed s name e :
  InTrial i (DiscardNs name) ∈ calls (preparations currentCmd W i s) ->
  snaps_DiscardSnapNs W i = Some e ->
  res (preparations currentCmd W i s) = Return (Some e).
Proof.
  intros Hin He. destruct before_discard_sound as (H1 & H2 & H3).
  unfold preparations in *.
  apply (discard_after _ _ _ _ H1) in Hin as ([] & _ & Hin & ->).
  apply (discard_after _ _ _ _ H2) in Hin as ([] & _ & Hin & ->).
  apply (discard_after _ _ _ _ H3) in Hin as ([] & _ & Hin & ->).
  set (s3 := gst _) in *. clearbody s3.
  destruct (Args_Cmd x) as [|name' rest] eqn:Ea.
  - exfalso.
    assert (E : res (discard_snap_ns currentCmd W i s3) =
                Panic "index out of range [0] with length 0")
      by (rewrite discard_snap_ns_called, Ea; reflexivity).
    rewrite (bind_Panic _ _ _ _ E) in Hin. cbn [calls] in Hin.
    rewrite discard_snap_ns_called, Ea in Hin. now apply elem_of_nil in Hin.
  - assert (E : res (discard_snap_ns currentCmd W i s3) = Return (Some e))
      by (rewrite discard_snap_ns_called, Ea, He; reflexivity).
    now rewrite (bind_Return _ _ _ _ E).
Qed.

(** Preparations that fall through have called the discard, and it
    succeeded. *)
Lemma preparations_discarded s ws :
  res (preparations currentCmd W i s) = Val ws ->
  snaps_DiscardSnapNs W i = None /\
  exists name rest,
    Args_Cmd x = name :: rest /\
    InTrial i (DiscardNs name) ∈ calls (preparations currentCmd W i s).
Proof.
  unfold preparations. intros H.
  apply res_bind_Val in H as ([] & E1 & H). rewrite (bind_Val _ _ _ tt E1). cbn [calls].
  set (s1 := gst _) in *. clearbody s1.
  apply res_bind_Val in H as ([] & E2 & H). rewrite (bind_Val _ _ _ tt E2). cbn [calls].
  set (s2 := gst _) in *. clearbody s2.
  apply res_bind_Val in H as ([] & E3 & H). rewrite (bind_Val _ _ _ tt E3). cbn [calls].
  set (s3 := gst _) in *. clearbody s3.
  apply res_bind_Val in H as ([] & E4 & H). rewrite (bind_Val _ _ _ tt E4). cbn [calls].
  rewrite discard_snap_ns_called in E4 |- *.
  destruct (Args_Cmd x) as [|name rest]; [discriminate|]. cbn [res calls] in *.
  destruct (snaps_DiscardSnapNs W i) as [e|]; [discriminate|].
  split; [reflexivity|]. exists name, rest. split; [reflexivity|].
  rewrite !elem_of_app. right. right. right. left. constructor.
Qed.

(** In a trial the start comes after the discard. *)
Lemma trial_discards_first s :
  discarded_before_start currentCmd (calls (trial currentCmd W i s)) /\
  Forall no_start (deferred (trial currentCmd W i s)).
Proof.
  pose proof (trial_shape currentCmd W i s) as H. cbv zeta in H.
  destruct (preparations_sound currentCmd W i no_start no_start) with (s := s)
    as (_ & _ & Hc & Hdf & _).
  { intros st a Hl Hca Ha j [= _ ->]. destruct st; cbn in *; tauto. }
  { intros a Ha j [= _ ->]. exact Ha. }
  destruct (res (preparations currentCmd W i s)) as [ws|err|msg] eqn:Ep.
  - destruct (preparations_discarded s ws Ep) as (_ & name & rest & Ha & Hin).
    destruct (profiling_FreeCaches W i) as [e|].
    + rewrite H. cbn [calls deferred]. split; [|exact Hdf].
      apply discarded_before_start_absent. apply Forall_app. split; [exact Hc|].
      repeat constructor. discriminate.
    + destruct (timed_run_calls currentCmd W no_start i ws
                  (gst (preparations currentCmd W i s))) as (after & Ht & Hr).
      { intros st a Hne _ j [= _ Heq]. now apply Hne. }
      assert (Hhead : discarded_before_start currentCmd
                        ((calls (preparations currentCmd W i s) ++ [InTrial i FreeCaches]) ++
                         [InTrial i Start])).
      { apply (discarded_before_start_snoc _ _ _ name rest Ha).
        - rewrite elem_of_app. now left.
        - apply Forall_app. split; [exact Hc|]. repeat constructor. discriminate. }
      destruct (res (timed_run currentCmd W i ws _)) as [[run startup]|err|msg];
        [| destruct H |]; rewrite H; cbn [calls deferred]; (split; [|exact Hdf]);
        rewrite Ht.
      * replace (calls (preparations currentCmd W i s) ++
                 InTrial i FreeCaches :: (InTrial i Start :: after) ++
                 (if JSONOutput x then [] else [InTrial i (PrintStartup startup)]))
          with (((calls (preparations currentCmd W i s) ++ [InTrial i FreeCaches]) ++
                 [InTrial i Start]) ++
                (after ++ if JSONOutput x then []
                          else [InTrial i (PrintStartup startup)]))
          by (rewrite <- !app_assoc; reflexivity).
        apply discarded_before_start_app; [exact Hhead|].
        apply discarded_before_start_absent, Forall_app. split; [exact Hr|].
        destruct (JSONOutput x); repeat constructor. discriminate.
      * replace (calls (preparations currentCmd W i s) ++
                 InTrial i FreeCaches :: InTrial i Start :: after)
          with (((calls (preparations currentCmd W i s) ++ [InTrial i FreeCaches]) ++
                 [InTrial i Start]) ++ after)
          by (rewrite <- !app_assoc; reflexivity).
        apply discarded_before_start_app; [exact Hhead|].
        now apply discarded_before_start_absent.
  - rewrite H. cbn [calls deferred]. split; [|exact Hdf].
    now apply discarded_before_start_absent.
  - rewrite H. cbn [calls deferred]. split; [|exact Hdf].
    now apply discarded_before_start_absent.
Qed.

(** A trial whose discard fails returns the error and starts nothing. *)
Lemma trial_discard_failed s name e :
  InTrial i (DiscardNs name) ∈
    calls (trial currentCmd W i s) ++ rev (deferred (trial currentCmd W i s)) ->
  snaps_DiscardSnapNs W i = Some e ->
  res (trial currentCmd W i s) = Return (Some e) /\
  InTrial i Start ∉
    calls (trial currentCmd W i s) ++ rev (deferred (trial currentCmd W i s)).
Proof.
  intros Hin He.
  pose proof (trial_shape currentCmd W i s) as H. cbv zeta in H.
  destruct (preparations_sound currentCmd W i no_start no_start) with (s := s)
    as (_ & _ & Hc & Hdf & _).
  { intros st a Hl Hca Ha j [= _ ->]. destruct st; cbn in *; tauto. }
  { intros a Ha j [= _ ->]. exact Ha. }
  destruct (preparations_sound currentCmd W i (fun _ => True) no_discard) with (s := s)
    as (_ & _ & _ & Hdd & _); [now intros|exact no_discard_deferred|].
  rewrite Forall_forall in Hc, Hdf, Hdd.
  destruct (res (preparations currentCmd W i s)) as [ws|err|msg] eqn:Ep.
  { destruct (preparations_discarded s ws Ep) as (Hnone & _). congruence. }
  all: rewrite H in Hin |- *; cbn [res calls deferred] in *.
  all: assert (Hin' : InTrial i (DiscardNs name) ∈ calls (preparations currentCmd W i s))
         by (apply elem_of_app in Hin as [Hin|Hin]; [exact Hin|];
             apply list_elem_of_In, in_rev, list_elem_of_In in Hin;
             now destruct (Hdd _ Hin i name)).
  all: pose proof (preparations_discard_failed s name e Hin' He) as Hr.
  all: rewrite Ep in Hr; try discriminate.
  injection Hr as ->. split; [reflexivity|].
  intros Hst. apply elem_of_app in Hst as [Hst|Hst].
  - now destruct (Hc _ Hst i).
  - apply list_elem_of_In, in_rev, list_elem_of_In in Hst. now destruct (Hdf _ Hst i).
Qed.

End BothFlags.

Lemma trials_discard_first currentCmd W n i s :
  DiscardSnapNs (Run currentCmd) = true ->
  RunThroughSnap (Run currentCmd) = true ->
  discarded_before_start currentCmd (calls (trials currentCmd W n i s)) /\
  Forall (fun e => forall j, e <> InTrial j Start) (deferred (trials currentCmd W n i s)).
Proof.
  intros Hd Hs.
  apply (keeps_trials (fun c d => discarded_before_start currentCmd c /\
                                  Forall (fun e => forall j, e <> InTrial j Start) d)).
  - split; [apply discarded_before_start_absent|]; constructor.
  - intros c1 d1 c2 d2 [? ?] [? ?].
    split; [now apply discarded_before_start_app|now apply Forall_app].
  - intros j s'. now apply trial_discards_first.
Qed.

Lemma Execute_discards_first currentCmd W :
  DiscardSnapNs (Run currentCmd) = true ->
  RunThroughSnap (Run currentCmd) = true ->
  discarded_before_start currentCmd (trace (Execute currentCmd W)).
Proof.
  intros Hd Hs.
  destruct (Execute_trace_cases currentCmd W) as [(e & _ & _ & ->)|[_ ->]];
    cbn [trace].
  { apply discarded_before_start_absent. repeat constructor. discriminate. }
  destruct (trials_discard_first currentCmd W (iterations currentCmd) 0 entry Hd Hs)
    as [Hc Hdf].
  repeat apply discarded_before_start_app.
  - apply discarded_before_start_absent.
    destruct (nonempty _); repeat constructor. discriminate.
  - exact Hc.
  - apply discarded_before_start_absent.
    destruct (res _); [destruct (JSONOutput _)| |]; repeat constructor. discriminate.
  - apply discarded_before_start_absent. apply Forall_forall. intros e He.
    apply list_elem_of_In, in_rev, list_elem_of_In in He.
    rewrite Forall_forall in Hdf. now apply Hdf.
Qed.

Lemma Execute_discard_failed currentCmd W i name e :
  DiscardSnapNs (Run currentCmd) = true ->
  RunThroughSnap (Run currentCmd) = true ->
  InTrial i (DiscardNs name) ∈ trace (Execute currentCmd W) ->
  snaps_DiscardSnapNs W i = Some e ->
  ended (Execute currentCmd W) = Returned (Some e) /\
  InTrial i Start ∉ trace (Execute currentCmd W).
Proof.
  intros Hd Hs Hin He. apply of_trial_elem in Hin.
  destruct (Execute_trial_view currentCmd W i) as [E|(s & _ & E & Hend)].
  { rewrite E in Hin. now apply elem_of_nil in Hin. }
  rewrite E in Hin.
  destruct (trial_discard_failed currentCmd W i Hd Hs s name e Hin He) as [Hr Hno].
  rewrite Hr in Hend. split; [exact Hend|].
  intros Hst. apply of_trial_elem in Hst. rewrite E in Hst. now apply Hno.
Qed.

(** C6, as the code has it.  With the namespace-discard option set and the
    snap-run flag unset, no trial ever starts the target process, and a run
    of at least one trial (whose command, when it is not traced, has a
    token) aborts: with the error of the first step to fail before the
    option check, that is of the output file or, in the first trial, of the
    trace directory, the fifo, its opening, the tracer command or a log
    file; and with the configuration error when none of them fails.  With
    both flags set, whatever is discarded is the namespace of the first token
    of the command as given, not of the rewritten [targetCmd]; every start
    of the target process comes after that discard, in the same trial; and
    a trial whose discard fails starts no process, the run aborting with the
    error of the discard. *)
Theorem discard_requires_snap_run currentCmd W :
  DiscardSnapNs (Run currentCmd) = true ->
  (RunThroughSnap (Run currentCmd) = false ->
   (forall i, InTrial i Start ∉ trace (Execute currentCmd W)) /\
   (0 <= AdditionalIterations currentCmd < MaxUint ->
    (NoTrace (Run currentCmd) = true -> Args_Cmd (Run currentCmd) <> []) ->
    ended (Execute currentCmd W) =
      Returned (Some match earlier_failure currentCmd W with
                     | Some e => e
                     | None => ErrDiscardWithoutSnap
                     end))) /\
  (RunThroughSnap (Run currentCmd) = true ->
   (forall i name, InTrial i (DiscardNs name) ∈ trace (Execute currentCmd W) ->
                   exists rest, Args_Cmd (Run currentCmd) = name :: rest) /\
   (forall l1 l2 i,
      trace (Execute currentCmd W) = l1 ++ InTrial i Start :: l2 ->
      exists name rest,
        Args_Cmd (Run currentCmd) = name :: rest /\ InTrial i (DiscardNs name) ∈ l1) /\
   (forall i name e,
      InTrial i (DiscardNs name) ∈ trace (Execute currentCmd W) ->
      snaps_DiscardSnapNs W i = Some e ->
      ended (Execute currentCmd W) = Returned (Some e) /\
      InTrial i Start ∉ trace (Execute currentCmd W))).
Proof.
  intros Hd. split.
  - intros Hs. split.
    + intros i. now apply no_Start_without_snap_run.
    + intros Hn Hcmd. now apply Execute_without_snap_run.
  - intros Hs. split; [|split].
    + intros i name. apply DiscardNs_first_token.
    + exact (Execute_discards_first currentCmd W Hd Hs).
    + intros i name e. now apply Execute_discard_failed.
Qed.

Lemma discard_requires_snap_run_witness :
  (DiscardSnapNs (Run discard_without_snap) = true /\
   RunThroughSnap (Run discard_without_snap) = false /\
   (forall i, InTrial i Start ∉ trace (Execute discard_without_snap calm)) /\
   ended (Execute discard_without_snap calm) = Returned (Some ErrDiscardWithoutSnap) /\
   ended (Execute discard_without_snap no_tmp) =
     Returned (Some (ErrNew "no space left on device"))) /\
  (DiscardSnapNs (Run discard_with_snap) = true /\
   RunThroughSnap (Run discard_with_snap) = true /\
   (exists l1 l2,
      trace (Execute discard_with_snap calm) = l1 ++ InTrial 0 Start :: l2 /\
      exists name rest,
        Args_Cmd (Run discard_with_snap) = name :: rest /\
        InTrial 0 (DiscardNs name) ∈ l1) /\
   InTrial 0 (DiscardNs "sample-app") ∈ trace (Execute discard_with_snap discard_fails) /\
   snaps_DiscardSnapNs discard_fails 0 =
     Some (ErrNew "snap-discard-ns: permission denied") /\
   ended (Execute discard_with_snap discard_fails) =
     Returned (Some (ErrNew "snap-discard-ns: permission denied")) /\
   InTrial 0 Start ∉ trace (Execute discard_with_snap discard_fails)).
Proof.
  split.
  - split; [reflexivity|]. split; [reflexivity|].
    destruct (discard_requires_snap_run discard_without_snap calm eq_refl) as [H _].
    destruct (H eq_refl) as [Hstart Hend].
    destruct (discard_requires_snap_run discard_without_snap no_tmp eq_refl) as [H' _].
    destruct (H' eq_refl) as [_ Hend'].
    split; [exact Hstart|]. split.
    + apply Hend; [vm_compute; split; [discriminate|reflexivity]|discriminate].
    + apply Hend'; [vm_compute; split; [discriminate|reflexivity]|discriminate].
  - split; [reflexivity|]. split; [reflexivity|].
    destruct (discard_requires_snap_run discard_with_snap calm eq_refl) as [_ H].
    destruct (H eq_refl) as (_ & Hbefore & _).
    destruct (discard_requires_snap_run discard_with_snap discard_fails eq_refl)
      as [_ H'].
    destruct (H' eq_refl) as (_ & _ & Hfail).
    assert (Ht : trace (Execute discard_with_snap calm) =
                 firstn 7 (trace (Execute discard_with_snap calm)) ++ InTrial 0 Start ::
                 skipn 8 (trace (Execute discard_with_snap calm)))
      by (vm_compute; reflexivity).
    assert (Hin : InTrial 0 (DiscardNs "sample-app") ∈
                  trace (Execute discard_with_snap discard_fails))
      by (vm_compute; repeat constructor).
    split; [exact (ex_intro _ _ (ex_intro _ _ (conj Ht (Hbefore _ _ _ Ht))))|].
    split; [exact Hin|]. split; [reflexivity|].
    exact (Hfail 0%nat _ _ Hin eq_refl).
Defined.

(** * A trial within the trace *)

Section Block.

Variable currentCmd : Command.
Variable W : World.
Variable i : nat.

Local Abbreviation trial_ := (trial currentCmd W).
Local Abbreviation trials_ := (trials currentCmd W).

Lemma of_trial_calls i0 s :
  of_trial i (calls (trial_ i0 s)) = if Nat.eqb i0 i then calls (trial_ i0 s) else [].
Proof.
  destruct (trial_events currentCmd W i0 s) as [Hc _].
  destruct (Nat.eqb i0 i) eqn:E.
  - apply Nat.eqb_eq in E. subst i0. apply of_trial_same.
    eapply Forall_impl; [exact Hc|]. cbn. intros e (a & -> & _). eauto.
  - apply Nat.eqb_neq in E. apply of_trial_other.
    eapply Forall_impl; [exact Hc|]. cbn. now intros e (a & -> & _).
Qed.

Lemma of_trial_deferred i0 s :
  of_trial i (deferred (trial_ i0 s)) = if Nat.eqb i0 i then deferred (trial_ i0 s) else [].
Proof.
  destruct (trial_events currentCmd W i0 s) as [_ Hd].
  destruct (Nat.eqb i0 i) eqn:E.
  - apply Nat.eqb_eq in E. subst i0. apply of_trial_same.
    eapply Forall_impl; [exact Hd|]. cbn. intros e (a & -> & _). eauto.
  - apply Nat.eqb_neq in E. apply of_trial_other.
    eapply Forall_impl; [exact Hd|]. cbn. now intros e (a & -> & _).
Qed.

(** Within the loop, what trial [i] makes is one block of what the loop
    makes: the actions of one run of the body, started with no error logged,
    with no action of trial [i] before the block or after it. *)
Lemma trials_block n : forall i0 s,
  errs s = [] ->
  (of_trial i (calls (trials_ n i0 s)) = [] /\
   of_trial i (deferred (trials_ n i0 s)) = []) \/
  exists s' c1 c2,
    errs s' = [] /\
    calls (trials_ n i0 s) = c1 ++ calls (trial_ i s') ++ c2 /\
    of_trial i c1 = [] /\ of_trial i c2 = [] /\
    of_trial i (deferred (trials_ n i0 s)) = deferred (trial_ i s') /\
    ((forall v, res (trial_ i s') <> Val v) ->
     res (trials_ n i0 s) = res (trial_ i s')).
Proof.
  induction n as [|n IH]; intros i0 s Hs; [left; now split|].
  cbn [trials].
  pose proof (of_trial_calls i0 s) as Hhc. pose proof (of_trial_deferred i0 s) as Hhd.
  destruct (res (trial_ i0 s)) as [[]|err|msg] eqn:Ht.
  - rewrite (bind_Val _ _ _ tt Ht). cbn [calls deferred res].
    pose proof (trial_Val_errs currentCmd W i0 s tt Ht) as Hs'.
    destruct (Nat.eqb i0 i) eqn:E.
    + apply Nat.eqb_eq in E. subst i0. right.
      exists s, [], (calls (trials_ n (S i) (gst (trial_ i s)))).
      split; [exact Hs|]. split; [reflexivity|]. split; [reflexivity|].
      split; [|split].
      * apply of_trial_other. eapply Forall_impl; [apply trials_calls_tags, Hs'|].
        cbn. intros [j a|a]; [lia|auto].
      * rewrite of_trial_app, Hhd.
        rewrite (of_trial_other i (deferred (trials_ n (S i) _)));
          [now rewrite app_nil_r|].
        eapply Forall_impl; [apply trials_deferred_tags, Hs'|].
        cbn. intros [j a|a]; [lia|auto].
      * intros Hv. now destruct (Hv tt).
    + destruct (IH (S i0) (gst (trial_ i0 s)) Hs')
        as [[Hc Hd]|(s' & c1 & c2 & Hsd & Hc & H1 & H2 & Hd & Hr)].
      * left. rewrite !of_trial_app, Hhc, Hhd, Hc, Hd. now split.
      * right. exists s', (calls (trial_ i0 s) ++ c1), c2.
        split; [exact Hsd|]. split; [rewrite Hc; now rewrite <- app_assoc|].
        split; [now rewrite of_trial_app, Hhc, H1|]. split; [exact H2|].
        split; [now rewrite of_trial_app, Hhd, Hd|exact Hr].
  - rewrite (bind_Return _ _ _ _ Ht). cbn [calls deferred res]. rewrite Hhc, Hhd.
    destruct (Nat.eqb i0 i) eqn:E; [|left; now split].
    apply Nat.eqb_eq in E. subst i0. right. exists s, [], [].
    rewrite app_nil_r, Ht. repeat split; auto.
  - rewrite (bind_Panic _ _ _ _ Ht). cbn [calls deferred res]. rewrite Hhc, Hhd.
    destruct (Nat.eqb i0 i) eqn:E; [|left; now split].
    apply Nat.eqb_eq in E. subst i0. right. exists s, [], [].
    rewrite app_nil_r, Ht. repeat split; auto.
Qed.

End Block.

(** X8: a trial within the trace of a call.  If the trace has an event of
    trial [i] at all, then what trial [i] makes itself is one block of the
    trace, the actions of one run of the loop body started with no error
    logged: no event of trial [i] comes before that block, and the events of
    trial [i] that come after it are what that run deferred, last registered
    first (these lie further on, among the clean-ups of the other trials).
    So the events of trial [i], taken in the order of the trace, are the
    actions of that run followed by its clean-ups; and if that run returns
    or panics, so does the call, in the same way. *)
Theorem trial_in_trace currentCmd W i :
  of_trial i (trace (Execute currentCmd W)) = [] \/
  exists s before after,
    errs s = [] /\
    trace (Execute currentCmd W) = before ++ calls (trial currentCmd W i s) ++ after /\
    of_trial i before = [] /\
    of_trial i after = rev (deferred (trial currentCmd W i s)) /\
    of_trial i (trace (Execute currentCmd W)) =
      calls (trial currentCmd W i s) ++ rev (deferred (trial currentCmd W i s)) /\
    match res (trial currentCmd W i s) with
    | Val _ => True
    | Return err => ended (Execute currentCmd W) = Returned err
    | Panic msg => ended (Execute currentCmd W) = Panicked msg
    end.
Proof.
  destruct (Execute_trace_cases currentCmd W) as [(e & _ & _ & ->)|[_ ->]];
    [now left|].
  cbn [trace ended].
  set (o := trials currentCmd W (iterations currentCmd) 0 entry).
  set (pre := if nonempty (OutputFile (Run currentCmd))
              then [Outside (EnsureExistsAndOpen (OutputFile (Run currentCmd)) true)]
              else []).
  set (post := match res o with
               | Val _ => if JSONOutput (Run currentCmd)
                          then [Outside (Encode (outRes (gst o)))] else []
               | _ => []
               end).
  assert (Hpre : of_trial i pre = []) by (subst pre; now destruct (nonempty _)).
  assert (Hpost : of_trial i post = []).
  { subst post. destruct (res o); try reflexivity. now destruct (JSONOutput _). }
  destruct (trials_block currentCmd W i (iterations currentCmd) 0 entry eq_refl)
    as [[Hc Hd]|(s & c1 & c2 & Hs & Hc & H1 & H2 & Hd & Hr)]; fold o in Hc, Hd.
  - left. now rewrite !of_trial_app, of_trial_rev, Hpre, Hpost, Hc, Hd.
  - right. fold o in Hr. exists s, (pre ++ c1), (c2 ++ post ++ rev (deferred o)).
    assert (Hafter : of_trial i (c2 ++ post ++ rev (deferred o)) =
                     rev (deferred (trial currentCmd W i s))).
    { now rewrite !of_trial_app, of_trial_rev, H2, Hpost, Hd. }
    assert (Hown : of_trial i (calls (trial currentCmd W i s)) =
                   calls (trial currentCmd W i s)).
    { rewrite of_trial_calls. now rewrite Nat.eqb_refl. }
    split; [exact Hs|]. split; [rewrite Hc; now rewrite <- !app_assoc|].
    split; [now rewrite of_trial_app, Hpre, H1|]. split; [exact Hafter|].
    split.
    + rewrite Hc, <- !app_assoc.
      rewrite (of_trial_app i pre), Hpre, (of_trial_app i c1), H1.
      rewrite (of_trial_app i (calls _)), Hown, Hafter. reflexivity.
    + destruct (res (trial currentCmd W i s)) as [v|err|msg] eqn:E; [exact I| |];
        rewrite Hr by (intros v; discriminate); reflexivity.
Qed.

(** * The scripts and the start *)

(** The one start of a list splits it in one way. *)
Lemma start_splits_once A : forall B l1 l2 i j,
  Forall (fun e => forall k, e <> InTrial k Start) A ->
  Forall (fun e => forall k, e <> InTrial k Start) B ->
  A ++ InTrial i Start :: B = l1 ++ InTrial j Start :: l2 ->
  l1 = A /\ l2 = B.
Proof.
  induction A as [|a A IH]; intros B l1 l2 i j HA HB E.
  - destruct l1 as [|e l1]; [now injection E as _ ->|].
    injection E as _ ->. rewrite Forall_app, Forall_cons in HB.
    destruct HB as (_ & Hne & _). now destruct (Hne j).
  - apply Forall_cons in HA as [Ha HA].
    destruct l1 as [|e l1]; [injection E as -> _; now destruct (Ha j)|].
    injection E as <- E. destruct (IH B l1 l2 i j HA HB E) as [-> ->]. now split.
Qed.

Section AroundTheStart.

Variable currentCmd : Command.
Variable W : World.
Variable i : nat.

Local Abbreviation x := (Run currentCmd).
Local Abbreviation no_start := (fun e : event => forall k, e <> InTrial k Start).

(** The prepare script, when there is one, is the first thing that a trial
    does. *)
Lemma preparations_head s :
  nonempty (PrepareScript x) = true ->
  exists l,
    calls (preparations currentCmd W i s) =
      InTrial i (RunScript (PrepareScript x) (PrepareScriptArgs x)) :: l.
Proof.
  intros Hp. unfold preparations.
  rewrite (bind_Val _ _ _ tt (prepare_script_res currentCmd W i s)). cbn [calls].
  unfold prepare_script at 1. rewrite Hp. cbn [when].
  rewrite call_then. cbn [calls app]. eauto.
Qed.

Lemma trial_head s :
  nonempty (PrepareScript x) = true ->
  exists l,
    calls (trial currentCmd W i s) ++ rev (deferred (trial currentCmd W i s)) =
      InTrial i (RunScript (PrepareScript x) (PrepareScriptArgs x)) :: l.
Proof.
  intros Hp. destruct (preparations_head s Hp) as [l Hl].
  pose proof (trial_shape currentCmd W i s) as H. cbv zeta in H.
  destruct (res (preparations currentCmd W i s)) as [ws|err|msg];
    [destruct (profiling_FreeCaches W i) as [e|];
     [|destruct (res (timed_run currentCmd W i ws _)) as [[run startup]|err|msg];
       [|destruct H|]]| |];
    rewrite H; cbn [calls deferred]; rewrite Hl; cbn [app]; eauto.
Qed.

(** What a trial does before it starts the command has the prepare script
    and no other; what it does after has the restore script and no other. *)
Lemma trial_around_start s before after :
  calls (trial currentCmd W i s) ++ rev (deferred (trial currentCmd W i s)) =
    before ++ InTrial i Start :: after ->
  scripts before = prepare_part currentCmd /\ scripts after = restore_part currentCmd.
Proof.
  pose proof (trial_shape currentCmd W i s) as H. cbv zeta in H.
  destruct (scripts_preparations currentCmd W i s) as [Hsc Hsd].
  destruct (preparations_sound currentCmd W i no_start no_start) with (s := s)
    as (_ & _ & Hc & Hd & _).
  { intros st a Hl Hca Ha k [= _ ->]. destruct st; cbn in *; tauto. }
  { intros a Ha k [= _ ->]. exact Ha. }
  assert (Hrd : Forall no_start (rev (deferred (preparations currentCmd W i s)))).
  { apply Forall_forall. intros e He.
    apply list_elem_of_In, in_rev, list_elem_of_In in He.
    rewrite Forall_forall in Hd. now apply Hd. }
  assert (Hsrd : scripts (rev (deferred (preparations currentCmd W i s))) = []).
  { unfold scripts. rewrite omap_rev.
    fold (scripts (deferred (preparations currentCmd W i s))). now rewrite Hsd. }
  assert (Hnone : forall l, Forall no_start l -> l = before ++ InTrial i Start :: after ->
                            False).
  { intros l Hl ->. rewrite Forall_app, Forall_cons in Hl.
    destruct Hl as (_ & Hne & _). now destruct (Hne i). }
  destruct (res (preparations currentCmd W i s)) as [ws|err|msg].
  - destruct (profiling_FreeCaches W i) as [e|].
    + rewrite H. cbn [calls deferred]. intros E. exfalso.
      refine (Hnone _ _ E). apply Forall_app. split; [|exact Hrd].
      apply Forall_app. split; [exact Hc|]. repeat constructor. discriminate.
    + destruct (timed_run_calls currentCmd W no_start i ws
                  (gst (preparations currentCmd W i s))) as (rest & Ht & Hr).
      { intros st a Hne _ k [= _ Heq]. now apply Hne. }
      pose proof (scripts_timed_run currentCmd W i ws
                    (gst (preparations currentCmd W i s))) as Hst.
      rewrite Ht in Hst.
      change (InTrial i Start :: rest) with ([InTrial i Start] ++ rest) in Hst.
      rewrite scripts_app in Hst. cbn [scripts omap app] in Hst. cbn in Hst.
      assert (Hsplit : forall tail,
                Forall no_start tail -> scripts tail = [] ->
                (calls (preparations currentCmd W i s) ++
                 InTrial i FreeCaches :: (InTrial i Start :: rest) ++ tail) ++
                rev (deferred (preparations currentCmd W i s)) =
                before ++ InTrial i Start :: after ->
                scripts before = prepare_part currentCmd /\
                scripts after = restore_part currentCmd).
      { intros tail Htl Hstl E.
        replace ((calls (preparations currentCmd W i s) ++
                  InTrial i FreeCaches :: (InTrial i Start :: rest) ++ tail) ++
                 rev (deferred (preparations currentCmd W i s)))
          with ((calls (preparations currentCmd W i s) ++ [InTrial i FreeCaches]) ++
                InTrial i Start ::
                (rest ++ tail ++ rev (deferred (preparations currentCmd W i s)))) in E
          by (rewrite <- !app_assoc; cbn [app]; now rewrite <- !app_assoc).
        apply start_splits_once in E as [-> ->].
        - rewrite !scripts_app, Hsc, Hst, Hstl, Hsrd. cbn. now rewrite !app_nil_r.
        - apply Forall_app. split; [exact Hc|]. repeat constructor. discriminate.
        - apply Forall_app. split; [exact Hr|]. apply Forall_app. now split. }
      destruct (res (timed_run currentCmd W i ws _)) as [[run startup]|err|msg];
        [| destruct H |]; rewrite H; cbn [calls deferred]; rewrite Ht.
      * apply Hsplit.
        -- destruct (JSONOutput x); repeat constructor. discriminate.
        -- now destruct (JSONOutput x).
      * intros E. apply (Hsplit []); [constructor|reflexivity|].
        now rewrite app_nil_r.
  - rewrite H. cbn [calls deferred]. intros E. exfalso.
    refine (Hnone _ _ E). apply Forall_app. split; [exact Hc|exact Hrd].
  - rewrite H. cbn [calls deferred]. intros E. exfalso.
    refine (Hnone _ _ E). apply Forall_app. split; [exact Hc|exact Hrd].
Qed.

End AroundTheStart.

(** X19: the scripts around the command.  In a trial that does anything at
    all, the prepare script, if one is configured, is the first thing that
    is done, before the command is built and before any other collaborator
    is called; before the command is started no other script is run; and the
    restore script, if one is configured, is run exactly when the trial has
    started the command, after the start: then it is run whatever the
    window wait, the cascade and the trace parser returned, even in a trial
    that panics for want of a timing.  A trial that returns an error of its
    set-up has run the prepare script and does not run the restore
    script. *)
Theorem scripts_run_around_the_command currentCmd W i a :
  InTrial i a ∈ trace (Execute currentCmd W) ->
  (PrepareScript (Run currentCmd) <> ""%string ->
   exists l,
     of_trial i (trace (Execute currentCmd W)) =
       InTrial i (RunScript (PrepareScript (Run currentCmd))
                            (PrepareScriptArgs (Run currentCmd))) :: l) /\
  (forall before after,
     of_trial i (trace (Execute currentCmd W)) = before ++ InTrial i Start :: after ->
     scripts before = prepare_part currentCmd /\
     scripts after = restore_part currentCmd) /\
  scripts (of_trial i (trace (Execute currentCmd W))) =
    prepare_part currentCmd ++
    match starts (of_trial i (trace (Execute currentCmd W))) with
    | [] => []
    | _ => restore_part currentCmd
    end.
Proof.
  intros Hin. apply of_trial_elem in Hin.
  destruct (Execute_trial_view currentCmd W i) as [E|(s & _ & E & _)];
    rewrite E in Hin |- *; [now apply elem_of_nil in Hin|].
  split; [|split].
  - intros Hp. apply trial_head. now apply nonempty_true.
  - intros before after. apply trial_around_start.
  - destruct (trial_scripts currentCmd W i s) as [Hd Hc].
    destruct (trial_starts currentCmd W i s) as [Hsd _].
    rewrite scripts_app, starts_app. unfold scripts at 2, starts at 2.
    rewrite !omap_rev.
    fold (scripts (deferred (trial currentCmd W i s))).
    fold (starts (deferred (trial currentCmd W i s))).
    now rewrite Hd, Hsd, !app_nil_r.
Qed.

Lemma scripts_run_around_the_command_witness :
  InTrial 0 Start ∈ trace (Execute sample_scripts parse_fails) /\
  (PrepareScript (Run sample_scripts) <> ""%string /\
   exists l,
     of_trial 0 (trace (Execute sample_scripts parse_fails)) =
       InTrial 0 (RunScript "prepare.sh" []) :: l) /\
  (exists before after,
     of_trial 0 (trace (Execute sample_scripts parse_fails)) =
       before ++ InTrial 0 Start :: after /\
     scripts before = [("prepare.sh"%string, [])] /\
     scripts after = [("restore.sh"%string, [])]) /\
  scripts (of_trial 0 (trace (Execute sample_scripts parse_fails))) =
    [("prepare.sh"%string, []); ("restore.sh"%string, [])].
Proof.
  assert (H : InTrial 0 Start ∈ trace (Execute sample_scripts parse_fails)).
  { vm_compute. repeat constructor. }
  destruct (scripts_run_around_the_command sample_scripts parse_fails 0%nat Start H)
    as (Hhead & Haround & Hall).
  assert (Hs : of_trial 0 (trace (Execute sample_scripts parse_fails)) =
               firstn 7 (of_trial 0 (trace (Execute sample_scripts parse_fails))) ++
               InTrial 0 Start ::
               skipn 8 (of_trial 0 (trace (Execute sample_scripts parse_fails))))
    by (vm_compute; reflexivity).
  split; [exact H|]. split; [split; [discriminate|apply Hhead; discriminate]|].
  split; [|exact Hall].
  exact (ex_intro _ _ (ex_intro _ _ (conj Hs (Haround _ _ Hs)))).
Defined.
